(** * kubeface: the retrying bucket-storage client and the job orchestrator

    A shallow embedding of [kubeface/bucket_storage.py], [kubeface/job.py]
    and [kubeface/local_process_backend.py].

    Python code that performs I/O is embedded as a computation in a small
    state-and-exception monad over a [World]: the contents of the object
    store together with the ordered trace of everything the program does to
    the outside (log records, sleeps, requests sent to the store, processes
    started, status snapshots published). *)

From Stdlib Require Import ZArith String Ascii List Lia.
From stdpp Require Import base option list gmap strings pretty.
From Equations.Prop Require Import Equations Logic.

Local Open Scope Z_scope.
Local Open Scope string_scope.

(** ** Python values used by the code *)

(** The exceptions that the embedded code raises or receives. *)
Inductive Exn : Type :=
| ValueError (msg : string)
| TypeError (msg : string)
| RuntimeError (msg : string)
| HttpError (status : Z).

(** An access-control entry of a stored object, as [put] builds it. *)
Record AclEntry : Type := mkAcl {
  acl_entity : string;
  acl_role : string;
  acl_email : string
}.

(** The request body of an insertion: the object name and the optional
    ['acl'] key. *)
Record InsertBody : Type := mkBody {
  body_name : string;
  body_acl : option (list AclEntry)
}.

(** What the store keeps for one object. *)
Record StoredObject : Type := mkObject {
  obj_data : list Byte.byte;
  obj_acl : option (list AclEntry)
}.

(** The requests of the storage service that the client executes. *)
Inductive Request : Type :=
| ReqList (bucket file_name_prefix : string)
| ReqRewrite (sourceBucket sourceObject destinationBucket destinationObject : string)
| ReqDelete (bucket object : string)
| ReqInsert (bucket : string) (body : InsertBody) (mime_type : string)
| ReqGetMedia (bucket object : string).

(** The status dictionary built by [Job.status_dict]. *)
Record StatusDict : Type := mkStatus {
  st_backend : string;
  st_job_name : string;
  st_cache_key : string;
  st_max_simultaneous_tasks : Z;
  st_num_tasks : option Z;
  st_submitted_tasks : list string;
  st_completed_tasks : list string;
  st_running_tasks : list string;
  st_reused_tasks : list string
}.

(** Records written through [logging]. *)
Inductive LogRecord : Type :=
| LogCallFailed (function : string) (e : Exn) (error_num retries : Z)
| LogSleeping (sleep_time : Z)
| LogRunning (args : list string)
| LogUsingExisting (task_output : string)
| LogUploading (task_input task_name : string) (size : nat)
| LogSubmitting (tasks_to_submit : Z)
| LogWaiting (running_tasks : list string).

(** Everything observable that the program does, in order. *)
Inductive Event : Type :=
| EvLog (r : LogRecord)
| EvSleep (seconds : Z)
| EvRequest (r : Request)
| EvPopen (args : list string)
| EvStatus (d : StatusDict).

(** ** The world: object store and trace *)

Record World : Type := mkWorld {
  objects : gmap (string * string) StoredObject;
  trace : list Event
}.

Definition emit (e : Event) (w : World) : World :=
  {| objects := objects w; trace := (trace w ++ [e])%list |}.

Definition set_objects (o : gmap (string * string) StoredObject) (w : World) : World :=
  {| objects := o; trace := trace w |}.

(** ** The monad of effectful Python code

    A computation runs from a state to an exception or a value, and the
    state it leaves. Storage code runs on the [World]; the methods of a
    [Job] run on the job object together with the world. *)

Definition Result (A : Type) : Type := (Exn + A)%type.

Definition ST (S A : Type) : Type := S -> Result A * S.

Definition M (A : Type) : Type := ST World A.

Definition ret {S A} (a : A) : ST S A := fun s => (inr a, s).

Definition raise {S A} (e : Exn) : ST S A := fun s => (inl e, s).

Definition bind {S A B} (c : ST S A) (k : A -> ST S B) : ST S B :=
  fun s =>
    match c s with
    | (inr a, s') => k a s'
    | (inl e, s') => (inl e, s')
    end.

Notation "'let*' x ':=' c 'in' k" := (bind c (fun x => k))
  (at level 10, x pattern, c at level 100, k at level 200, only parsing).
Notation "c ;;; k" := (bind c (fun _ => k))
  (at level 100, k at level 200, right associativity, only parsing).

Definition tell (e : Event) : M unit := fun w => (inr tt, emit e w).

Definition logging (r : LogRecord) : M unit := tell (EvLog r).

(** [time.sleep] *)
Definition sleep (seconds : Z) : M unit := tell (EvSleep seconds).

(** Observations on a trace. *)
Definition is_call_failed (e : Event) : bool :=
  match e with EvLog (LogCallFailed _ _ _ _) => true | _ => false end.

Definition sleeps (t : list Event) : list Z :=
  omap (fun e => match e with EvSleep s => Some s | _ => None end) t.

Definition requests (t : list Event) : list Request :=
  omap (fun e => match e with EvRequest r => Some r | _ => None end) t.

Definition popens (t : list Event) : list (list string) :=
  omap (fun e => match e with EvPopen a => Some a | _ => None end) t.

(** The number of failed attempts that the retry wrapper has logged. *)
Definition failed_attempts (t : list Event) : nat :=
  length (List.filter is_call_failed t).

(** ** Python string operations *)

(** [s.startswith(p)] *)
Definition startswith (s p : string) : bool := String.prefix p s.

(** [s[n:]] for a non-negative [n] *)
Fixpoint string_drop (n : nat) (s : string) : string :=
  match n, s with
  | O, _ => s
  | S n', String _ s' => string_drop n' s'
  | S _, EmptyString => EmptyString
  end.

(** The first occurrence of [sep] in [s]: what precedes it and what
    follows it. *)
Fixpoint partition (sep : ascii) (s : string) : option (string * string) :=
  match s with
  | EmptyString => None
  | String c s' =>
      if Ascii.eqb c sep then Some (EmptyString, s')
      else match partition sep s' with
           | Some (a, b) => Some (String c a, b)
           | None => None
           end
  end.

(** [s.split(sep, 1)] for a one-character separator *)
Definition split1 (sep : ascii) (s : string) : list string :=
  match partition sep s with
  | Some (a, b) => [a; b]
  | None => [s]
  end.

(** Unpacking a sequence into a pair of names, [(a, b) = xs]. *)
Definition unpack2 (xs : list string) : M (string * string) :=
  match xs with
  | [a; b] => ret (a, b)
  | [] => raise (ValueError "not enough values to unpack (expected 2, got 0)")
  | [_] => raise (ValueError "not enough values to unpack (expected 2, got 1)")
  | _ => raise (ValueError "too many values to unpack (expected 2)")
  end.

(** ** The storage service

    The service behind [get_service()] is outside the repository. It is
    modelled as a store of objects addressed by bucket and object name that
    never fails by itself: a request fails (404) only when it names an
    object that is absent. Every executed request is recorded in the
    trace. A listing is returned whole: following the next-page tokens, as
    [list_contents] does, concatenates the pages of this one result. *)

Module service.

Definition names_in (o : gmap (string * string) StoredObject)
    (bucket file_name_prefix : string) : list string :=
  omap (fun kv : (string * string) * StoredObject =>
          let (k, _) := kv in
          if decide (k.1 = bucket)
          then if startswith k.2 file_name_prefix then Some k.2 else None
          else None)
       (map_to_list o).

Definition objects_list (bucket file_name_prefix : string) : M (list string) :=
  tell (EvRequest (ReqList bucket file_name_prefix)) ;;;
  fun w => (inr (names_in (objects w) bucket file_name_prefix), w).

(** One page of that listing, as a store with pages of [maxResults] names
    answers the request for the page at [pageToken]: the names of the page,
    and the token of the next page when names remain. *)
Definition objects_list_page (maxResults : nat) (bucket file_name_prefix : string)
    (pageToken : nat) : M (list string * option nat) :=
  tell (EvRequest (ReqList bucket file_name_prefix)) ;;;
  fun w =>
    let rest := drop pageToken (names_in (objects w) bucket file_name_prefix) in
    (inr (take maxResults rest,
          if (maxResults <? length rest)%nat then Some (pageToken + maxResults)%nat
          else None),
     w).

Definition objects_get_media (bucket object : string) : M (list Byte.byte) :=
  tell (EvRequest (ReqGetMedia bucket object)) ;;;
  fun w =>
    match objects w !! (bucket, object) with
    | Some o => (inr (obj_data o), w)
    | None => (inl (HttpError 404), w)
    end.

Definition objects_insert (bucket : string) (body : InsertBody) (data : list Byte.byte)
    (mime_type : string) : M InsertBody :=
  tell (EvRequest (ReqInsert bucket body mime_type)) ;;;
  fun w =>
    (inr body,
     set_objects (<[(bucket, body_name body) := mkObject data (body_acl body)]> (objects w)) w).

Definition objects_delete (bucket object : string) : M unit :=
  tell (EvRequest (ReqDelete bucket object)) ;;;
  fun w =>
    match objects w !! (bucket, object) with
    | Some _ => (inr tt, set_objects (base.delete (bucket, object) (objects w)) w)
    | None => (inl (HttpError 404), w)
    end.

Definition objects_rewrite (sourceBucket sourceObject destinationBucket destinationObject : string)
    : M unit :=
  tell (EvRequest (ReqRewrite sourceBucket sourceObject
                     destinationBucket destinationObject)) ;;;
  fun w =>
    match objects w !! (sourceBucket, sourceObject) with
    | Some o =>
        (inr tt,
         set_objects (<[(destinationBucket, destinationObject) := o]> (objects w)) w)
    | None => (inl (HttpError 404), w)
    end.

End service.

(** ** bucket_storage.py *)

Module bucket_storage.

Definition RETRIES_BEFORE_FAILURE : Z := 12.

(** [FIRST_RETRY_SLEEP = 2.0]. The only values computed from it are
    [2.0 ** k] for an integer [1 <= k <= 12], which binary floating point
    represents exactly; seconds are therefore kept as integers. *)
Definition FIRST_RETRY_SLEEP : Z := 2.

Section robustify.
Context {A : Type}.
(** [name] stands for [str(function)] in the log record. *)
Variable name : string.
Variable function : M A.

(** The [while True] loop of [robust_function], entered with the current
    value of [error_num]. No attempt is made once [error_num] has passed
    the limit, so the distance to that point decreases. *)
Equations? robust_loop (error_num : Z) (w : World) : Result A * World
  by wf (Z.to_nat (RETRIES_BEFORE_FAILURE + 1 - error_num)) lt :=
  robust_loop error_num w with function w => {
    | (inr v, w1) => (inr v, w1)
    | (inl e, w1) with inspect (error_num + 1 >? RETRIES_BEFORE_FAILURE) => {
        | exist _ true _ =>
            (inl e,
             emit (EvLog (LogCallFailed name e (error_num + 1)
                                       RETRIES_BEFORE_FAILURE)) w1)
        | exist _ false Hle =>
            robust_loop (error_num + 1)
              (emit (EvSleep (FIRST_RETRY_SLEEP ^ (error_num + 1)))
                 (emit (EvLog (LogSleeping (FIRST_RETRY_SLEEP ^ (error_num + 1))))
                    (emit (EvLog (LogCallFailed name e (error_num + 1)
                                              RETRIES_BEFORE_FAILURE)) w1)))
      }
  }.
Proof. unfold RETRIES_BEFORE_FAILURE in *. lia. Qed.

Definition robustify : M A := robust_loop 0.
End robustify.

Definition split_bucket_and_name (url : string) : M (list string) :=
  if negb (startswith url "gs://")
  then raise (ValueError ("Not a gs:// url: " ++ url))
  else ret (split1 "/" (string_drop (String.length "gs://") url)).

Definition list_contents_body (prefix : string) : M (list string) :=
  let* splitted := split_bucket_and_name prefix in
  let* (bucket_name, file_name_prefix) :=
     (if (length splitted =? 1)%nat
      then ret (hd "" splitted, "")
      else unpack2 splitted) in
  service.objects_list bucket_name file_name_prefix.

Definition list_contents (prefix : string) : M (list string) :=
  robustify "list_contents" (list_contents_body prefix).

(** The [while req] loop of [list_contents], entered with the request for
    the page at [pageToken], on a store that answers with pages of
    [S page] names, at most the [maxResults=100000] that the code asks
    for: each pass executes the request, extends [all_objects] with the
    items of the response and takes the next request from [list_next].
    The names that remain to be listed decrease. *)
Equations? list_pages (page : nat) (bucket file_name_prefix : string)
    (pageToken : nat) (all_objects : list string) (w : World)
    : Result (list string) * World
  by wf (length (service.names_in (objects w) bucket file_name_prefix) - pageToken)%nat
        lt :=
  list_pages page bucket file_name_prefix pageToken all_objects w
    with inspect (service.objects_list_page (S page) bucket file_name_prefix
                    pageToken w) => {
    | exist _ (inr (items, Some nextPageToken), w1) _ =>
        list_pages page bucket file_name_prefix nextPageToken
          (all_objects ++ items)%list w1
    | exist _ (inr (items, None), w1) _ => (inr (all_objects ++ items)%list, w1)
    | exist _ (inl e, w1) _ => (inl e, w1)
  }.
Proof.
  destruct (S page <? _)%nat eqn:Hlt; [|done].
  match goal with H : Some _ = Some _ |- _ => injection H as <- end.
  apply Nat.ltb_lt in Hlt. rewrite length_drop in Hlt. lia.
Qed.

(** [list_contents] with its loop over the pages. [list_contents_body]
    above is this function on a store that answers every listing in one
    page. *)
Definition list_contents_paged_body (page : nat) (prefix : string) : M (list string) :=
  let* splitted := split_bucket_and_name prefix in
  let* (bucket_name, file_name_prefix) :=
     (if (length splitted =? 1)%nat
      then ret (hd "" splitted, "")
      else unpack2 splitted) in
  list_pages page bucket_name file_name_prefix 0 [].

Definition list_contents_paged (page : nat) (prefix : string) : M (list string) :=
  robustify "list_contents" (list_contents_paged_body page prefix).

Definition move_body (source dest : string) : M unit :=
  let* xs := split_bucket_and_name source in
  let* (bucket_name, source_object) := unpack2 xs in
  let* xs := split_bucket_and_name dest in
  let* (bucket_name2, dest_object) := unpack2 xs in
  service.objects_rewrite bucket_name source_object bucket_name dest_object ;;;
  service.objects_delete bucket_name source_object.

Definition move (source dest : string) : M unit :=
  robustify "move" (move_body source dest).

Definition reader_entry (r : string) : AclEntry :=
  {| acl_entity := "user-" ++ r; acl_role := "READER"; acl_email := r |}.

Definition owner_entry (o : string) : AclEntry :=
  {| acl_entity := "user-" ++ o; acl_role := "OWNER"; acl_email := o |}.

(** [input_handle] is given by the bytes that the handle holds; after
    [seek(0)] the upload reads all of them. *)
Definition put_body (name : string) (input_handle : list Byte.byte)
    (readers owners : list string) (mime_type : string) : M InsertBody :=
  let* xs := split_bucket_and_name name in
  let* (bucket_name, file_name) := unpack2 xs in
  let body :=
    {| body_name := file_name;
       body_acl :=
         match readers, owners with
         | [], [] => None
         | _, _ => Some (map reader_entry readers ++ map owner_entry owners)%list
         end |} in
  service.objects_insert bucket_name body input_handle mime_type.

Definition put_with (name : string) (input_handle : list Byte.byte)
    (readers owners : list string) (mime_type : string) : M InsertBody :=
  robustify "put" (put_body name input_handle readers owners mime_type).

(** [put] with the default arguments. *)
Definition put (name : string) (input_handle : list Byte.byte) : M InsertBody :=
  put_with name input_handle [] [] "application/octet-stream".

(** [get] with the default [output_handle]. The returned handle is given
    by the bytes downloaded into it; the chunks of the download, and the
    debug record logged for each, are those of the one request. *)
Definition get_body (name : string) : M (list Byte.byte) :=
  let* xs := split_bucket_and_name name in
  let* (bucket_name, file_name) := unpack2 xs in
  service.objects_get_media bucket_name file_name.

Definition get (name : string) : M (list Byte.byte) :=
  robustify "get" (get_body name).

Definition delete_body (name : string) : M unit :=
  let* xs := split_bucket_and_name name in
  let* (bucket_name, file_name) := unpack2 xs in
  service.objects_delete bucket_name file_name.

Definition delete (name : string) : M unit :=
  robustify "delete" (delete_body name).

(** [access_info] is not wrapped: it raises at once. The tab of the
    format string is the character 9. *)
Definition access_info (name : string) : M string :=
  let* xs := split_bucket_and_name name in
  let* (bucket_name, file_name) := unpack2 xs in
  ret ("https://storage.cloud.google.com/" ++ bucket_name ++ "/" ++ file_name
       ++ String (ascii_of_nat 9) "[ " ++ name ++ " ]").

End bucket_storage.

(** ** Parsed command-line arguments

    [argparse] is outside the repository. A parser is the sequence of the
    arguments added to it, and parsing gives a namespace with one attribute
    per argument, named by its [dest]: the value that the action stores
    when the flag is on the command line, and the default otherwise.
    Only parsers whose arguments have distinct flags and distinct [dest]s
    are modelled, on command lines made of full flags of these arguments:
    [argparse] also resolves abbreviated flags and rejects what it cannot
    resolve, and [parse_args] answers [None] for all of that. Reading an
    attribute that the namespace does not have raises [AttributeError]. *)

Inductive ArgValue : Type :=
| ArgBool (b : bool)
| ArgStr (s : string).

Inductive ArgAction : Type :=
| store_true
| store_false.

Record Argument : Type := mkArgument {
  arg_flag : string;
  arg_dest : string;
  arg_action : ArgAction;
  arg_default : ArgValue
}.

Inductive AttributeError : Type :=
| mkAttributeError (attribute : string).

Module argparse.

Definition add_argument (parser : list Argument) (a : Argument) : list Argument :=
  (parser ++ [a])%list.

Definition stored (a : ArgAction) : ArgValue :=
  match a with
  | store_true => ArgBool true
  | store_false => ArgBool false
  end.

(** The parsers and command lines that are modelled. *)
Definition modelled (parser : list Argument) (argv : list string) : Prop :=
  NoDup (map arg_flag parser) /\ NoDup (map arg_dest parser) /\
  Forall (fun x => x ∈ map arg_flag parser) argv.

Definition parse_args (parser : list Argument) (argv : list string)
    : option (gmap string ArgValue) :=
  if bool_decide (modelled parser argv)
  then Some (foldl (fun namespace a =>
                      <[arg_dest a :=
                          if bool_decide (arg_flag a ∈ argv)
                          then stored (arg_action a)
                          else arg_default a]> namespace)
                   ∅ parser)
  else None.

Definition getattr (namespace : gmap string ArgValue) (attribute : string)
    : AttributeError + ArgValue :=
  match namespace !! attribute with
  | Some v => inr v
  | None => inl (mkAttributeError attribute)
  end.

End argparse.

(** The truth value of an argument where the code tests it. *)
Definition truthy (v : ArgValue) : bool :=
  match v with
  | ArgBool b => b
  | ArgStr s => negb (String.eqb s "")
  end.

(** ** local_process_backend.py *)

(** What [submit_task] hands back to its caller. *)
Inductive Handle : Type :=
| PopenHandle (args : list string)
| OpaqueHandle.

(** A backend object. A method call passes its positional arguments as a
    sequence, which the method binds to its parameters; a call with the
    wrong number of arguments raises [TypeError]. *)
Record Backend : Type := mkBackend {
  backend_str : string;
  submit_task : list string -> M Handle
}.

Module local_process_backend.

Definition run_task_args (task_input task_output : string) (delete_input : bool)
    : list string :=
  (["_kubeface-run-task"; task_input; task_output]
   ++ (if delete_input then ["--delete-input"] else []))%list.

(** [subprocess.Popen(args)] starts the process and returns at once. *)
Definition Popen (args : list string) : M Handle :=
  tell (EvPopen args) ;;; ret (PopenHandle args).

(** [LocalProcessBackend.submit_task(self, task_input, task_output)]: two
    parameters besides [self]. *)
Definition LocalProcessBackend_submit_task (delete_input : bool)
    (positional : list string) : M Handle :=
  match positional with
  | [task_input; task_output] =>
      let args := run_task_args task_input task_output delete_input in
      logging (LogRunning args) ;;;
      Popen args
  | [] | [_] =>
      raise (TypeError "submit_task() missing required positional arguments")
  | _ =>
      raise (TypeError ("submit_task() takes 3 positional arguments but "
                        ++ pretty (S (length positional)) ++ " were given"))
  end.

Definition LocalProcessBackend (delete_input : bool) : Backend :=
  {| backend_str := "LocalProcessBackend";
     submit_task := LocalProcessBackend_submit_task delete_input |}.

Definition add_args (parser : list Argument) : list Argument :=
  argparse.add_argument parser
    {| arg_flag := "--local-process-keep-input";
       arg_dest := "local_process_delete_input";
       arg_action := store_false;
       arg_default := ArgStr "true" |}.

(** The backend keeps [delete_input] only to test it in [run_task_args]. *)
Definition from_args (args : gmap string ArgValue) : AttributeError + Backend :=
  match argparse.getattr args "local_process_keep_input" with
  | inr v => inr (LocalProcessBackend (truthy v))
  | inl e => inl e
  end.

End local_process_backend.

(** ** The modules that job.py imports *)

(** Modelled from the spec: [kubeface/naming.py] is missing from the
    sources. Section 4.1 lists its pure derivations, which are taken as
    the operations of this interface. *)
Class Naming : Type := mkNaming {
  make_job_name : string -> string;
  make_task_name : string -> nat -> string;
  task_input_name : string -> string;
  task_result_name : string -> string;
  task_result_prefix : string -> string;
  task_name_from_result_name : string -> string
}.

(** Modelled from the spec: the laws that section 4.1 and section 8 give
    for the naming derivations. A task name is injective in the index; the
    task name is recovered from a result name; the result prefix of a cache
    key is a prefix of the result names of its tasks, and a name under the
    prefix is the result name of the task it names. *)
Class NamingLaws (N : Naming) : Prop := mkNamingLaws {
  make_task_name_inj k i j :
    make_task_name k i = make_task_name k j -> i = j;
  result_name_round_trip t :
    task_name_from_result_name (task_result_name t) = t;
  result_prefix_covers k i :
    startswith (task_result_name (make_task_name k i)) (task_result_prefix k) = true;
  result_prefix_exact k x :
    startswith x (task_result_prefix k) = true ->
    task_result_name (task_name_from_result_name x) = x
}.

(** Modelled from the spec: [kubeface/serialization.py] is missing from
    the sources; the value serialization format is out of scope, so [dump]
    and [load] are the operations of this interface. *)
Class Serialization (Task Value : Type) : Type := mkSerialization {
  dump : Task -> list Byte.byte;
  load : list Byte.byte -> Value
}.

(** Modelled from the spec: [kubeface/storage.py] is missing from the
    sources. By section 4.2 the retrying storage client is the only I/O
    surface of the orchestrator; each operation is the bucket-storage one. *)
Module storage.
Definition list_contents := bucket_storage.list_contents.
Definition put := bucket_storage.put.
Definition get := bucket_storage.get.
Definition delete := bucket_storage.delete.
Definition move := bucket_storage.move.
End storage.

(** Modelled from the spec: [kubeface/status_writer.py] is missing from
    the sources; the status reporter only consumes the snapshot, so
    [update] publishes it to the trace. *)
Module status_writer.
Definition update (d : StatusDict) : M unit := tell (EvStatus d).
End status_writer.

(** ** job.py *)

Module job.

Section Job.
Context {Task Value : Type} {N : Naming} {Ser : Serialization Task Value}.

(** The fields of a [Job] object. [tasks_iter] holds the items that the
    iterator has yet to yield; the start time and the status writer are
    left out. *)
Record Job : Type := mkJob {
  backend : Backend;
  tasks_iter : list Task;
  max_simultaneous_tasks : Z;
  storage_prefix : string;
  cache_key : string;
  num_tasks : option Z;
  cleanup : bool;
  job_name : string;
  submitted_tasks : list string;
  reused_tasks : list string
}.

(** [Job.__init__]; [fresh] is what [naming.make_cache_key()] would return. *)
Definition init (backend : Backend) (tasks_iter : list Task)
    (max_simultaneous_tasks : Z) (storage_prefix : string)
    (cache_key : option string) (num_tasks : option Z) (cleanup : bool)
    (fresh : string) : Job :=
  let cache_key :=
    match cache_key with
    | Some k => if decide (k = "") then fresh else k
    | None => fresh
    end in
  {| backend := backend;
     tasks_iter := tasks_iter;
     max_simultaneous_tasks := max_simultaneous_tasks;
     storage_prefix := storage_prefix;
     cache_key := cache_key;
     num_tasks := num_tasks;
     cleanup := cleanup;
     job_name := make_job_name cache_key;
     submitted_tasks := [];
     reused_tasks := [] |}.

(** Methods run on the job object and the world. *)
Definition J (A : Type) : Type := ST (Job * World) A.

Definition io {A} (c : M A) : J A :=
  fun s => let (r, w) := c s.2 in (r, (s.1, w)).

Definition self : J Job := fun s => (inr s.1, s).

Definition update_self (f : Job -> Job) : J unit := fun s => (inr tt, (f s.1, s.2)).

Definition set_tasks_iter (l : list Task) (j : Job) : Job :=
  {| backend := backend j; tasks_iter := l;
     max_simultaneous_tasks := max_simultaneous_tasks j;
     storage_prefix := storage_prefix j; cache_key := cache_key j;
     num_tasks := num_tasks j; cleanup := cleanup j; job_name := job_name j;
     submitted_tasks := submitted_tasks j; reused_tasks := reused_tasks j |}.

Definition append_submitted (t : string) (j : Job) : Job :=
  {| backend := backend j; tasks_iter := tasks_iter j;
     max_simultaneous_tasks := max_simultaneous_tasks j;
     storage_prefix := storage_prefix j; cache_key := cache_key j;
     num_tasks := num_tasks j; cleanup := cleanup j; job_name := job_name j;
     submitted_tasks := (submitted_tasks j ++ [t])%list;
     reused_tasks := reused_tasks j |}.

Definition append_reused (t : string) (j : Job) : Job :=
  {| backend := backend j; tasks_iter := tasks_iter j;
     max_simultaneous_tasks := max_simultaneous_tasks j;
     storage_prefix := storage_prefix j; cache_key := cache_key j;
     num_tasks := num_tasks j; cleanup := cleanup j; job_name := job_name j;
     submitted_tasks := submitted_tasks j;
     reused_tasks := (reused_tasks j ++ [t])%list |}.

(** [next(self.tasks_iter)]; [None] stands for [StopIteration]. *)
Definition next_task : J (option Task) :=
  fun s =>
    match tasks_iter s.1 with
    | [] => (inr None, s)
    | task :: rest => (inr (Some task), (set_tasks_iter rest s.1, s.2))
    end.

Definition storage_path (j : Job) (filename : string) : string :=
  storage_prefix j ++ "/" ++ filename.

Definition get_completed_tasks : J (gset string) :=
  let* j := self in
  let* completed_task_result_names :=
    io (storage.list_contents (storage_path j (task_result_prefix (cache_key j)))) in
  ret (list_to_set (map task_name_from_result_name completed_task_result_names)).

Definition get_running_tasks (completed_tasks : option (gset string)) : J (gset string) :=
  let* completed_tasks :=
    match completed_tasks with
    | None => get_completed_tasks
    | Some c => ret c
    end in
  let* j := self in
  ret (list_to_set (submitted_tasks j) ∖ completed_tasks).

Definition status_dict : J StatusDict :=
  let* completed_tasks := get_completed_tasks in
  let* running_tasks := get_running_tasks (Some completed_tasks) in
  let* j := self in
  ret {| st_backend := backend_str (backend j);
         st_job_name := job_name j;
         st_cache_key := cache_key j;
         st_max_simultaneous_tasks := max_simultaneous_tasks j;
         st_num_tasks := num_tasks j;
         st_submitted_tasks := submitted_tasks j;
         st_completed_tasks := elements completed_tasks;
         st_running_tasks := elements running_tasks;
         st_reused_tasks := reused_tasks j |}.

Definition submit_one_task (completed_tasks : option (gset string)) : J bool :=
  let* next := next_task in
  match next with
  | None => ret false
  | Some task =>
      let* completed_tasks :=
        match completed_tasks with
        | None => get_completed_tasks
        | Some c => ret c
        end in
      let* j := self in
      let task_name := make_task_name (cache_key j) (length (submitted_tasks j)) in
      let task_input := storage_path j (task_input_name task_name) in
      let task_output := storage_path j (task_result_name task_name) in
      (if decide (task_name ∈ completed_tasks)
       then
         io (logging (LogUsingExisting task_output)) ;;;
         update_self (append_reused task_name)
       else
         let fd := dump task in
         io (logging (LogUploading task_input task_name (length fd))) ;;;
         io (storage.put task_input fd) ;;;
         io (submit_task (backend j) [task_name; task_input; task_output]) ;;;
         let* d := status_dict in
         io (status_writer.update d)) ;;;
      update_self (append_submitted task_name) ;;;
      ret true
  end.

(** [all(self.submit_one_task(completed_tasks) for _ in range(n))]: the
    calls stop at the first one that returns [False]. *)
Fixpoint submit_all (n : nat) (completed_tasks : gset string) : J bool :=
  match n with
  | O => ret true
  | S n' =>
      let* ok := submit_one_task (Some completed_tasks) in
      if ok then submit_all n' completed_tasks else ret false
  end.

(** One pass through the body of the outer loop of [wait], up to the
    point where it either goes round again ([true]) or enters the inner
    loop because the task source is exhausted ([false]). *)
Definition wait_poll (poll_seconds : Z) : J bool :=
  let* completed_tasks := get_completed_tasks in
  let* running_tasks := get_running_tasks (Some completed_tasks) in
  let* j := self in
  let tasks_to_submit :=
    Z.max 0 (max_simultaneous_tasks j - Z.of_nat (size running_tasks)) in
  if (tasks_to_submit =? 0)%Z
  then io (sleep poll_seconds) ;;; ret true
  else
    io (logging (LogSubmitting tasks_to_submit)) ;;;
    submit_all (Z.to_nat tasks_to_submit) completed_tasks.

(** One pass through the body of the inner loop of [wait]: [true] when it
    returns, [false] when it sleeps and goes round again. *)
Definition drain_poll (poll_seconds : Z) : J bool :=
  let* d := status_dict in
  io (status_writer.update d) ;;;
  let* running_tasks := get_running_tasks None in
  if decide (running_tasks = ∅)
  then ret true
  else
    io (logging (LogWaiting (elements running_tasks))) ;;;
    io (sleep poll_seconds) ;;;
    ret false.

(** The inner loop, which runs for as long as tasks are running. [None]
    when it is still running after [fuel] passes. *)
Fixpoint drain (fuel : nat) (poll_seconds : Z) (s : Job * World)
    : option (Result unit * (Job * World)) :=
  match fuel with
  | O => None
  | S fuel' =>
      match drain_poll poll_seconds s with
      | (inl e, s') => Some (inl e, s')
      | (inr true, s') => Some (inr tt, s')
      | (inr false, s') => drain fuel' poll_seconds s'
      end
  end.

(** [Job.wait] when nothing but the job acts on the world. *)
Fixpoint wait (fuel : nat) (poll_seconds : Z) (s : Job * World)
    : option (Result unit * (Job * World)) :=
  match fuel with
  | O => None
  | S fuel' =>
      match wait_poll poll_seconds s with
      | (inl e, s') => Some (inl e, s')
      | (inr true, s') => wait fuel' poll_seconds s'
      | (inr false, s') => drain fuel' poll_seconds s'
      end
  end.

(** The body of the [for] loop of [results], over the task names that
    remain; the values are those yielded, in order. *)
Fixpoint results_from (task_names : list string) : J (list Value) :=
  match task_names with
  | [] => ret []
  | task_name :: rest =>
      let* j := self in
      let result_file := storage_path j (task_result_name task_name) in
      let* handle := io (storage.get result_file) in
      let value := load handle in
      (if cleanup j then io (storage.delete result_file) else ret tt) ;;;
      let* values := results_from rest in
      ret (value :: values)
  end.

(** [Job.results], consumed to its end. *)
Definition results : J (list Value) :=
  let* running_tasks := get_running_tasks None in
  if decide (running_tasks = ∅)
  then
    let* j := self in
    results_from (submitted_tasks j)
  else raise (RuntimeError "Not all tasks have completed").

End Job.

Arguments Job : clear implicits.

End job.

(** ** Definitions used to state the properties *)

Import bucket_storage.

(** The world after a failed attempt number [k] of [function] from [w]:
    the failure is logged and the wrapper sleeps [FIRST_RETRY_SLEEP ^ k]. *)
Definition back_off {A} (name : string) (function : M A) (k : Z) (w : World) : World :=
  match function w with
  | (inl e, w1) =>
      emit (EvSleep (FIRST_RETRY_SLEEP ^ k))
        (emit (EvLog (LogSleeping (FIRST_RETRY_SLEEP ^ k)))
           (emit (EvLog (LogCallFailed name e k RETRIES_BEFORE_FAILURE)) w1))
  | (inr _, w1) => w1
  end.

(** [n] failed attempts in a row, numbered from [k]. *)
Fixpoint retries {A} (name : string) (function : M A) (n : nat) (k : Z) (w : World)
    : World :=
  match n with
  | O => w
  | S n' => retries name function n' (k + 1) (back_off name function k w)
  end.

(** The sleeps of a call that is retried to the end. *)
Definition backoff_sleeps : list Z :=
  map (fun k => FIRST_RETRY_SLEEP ^ Z.of_nat k) (seq 1 (Z.to_nat RETRIES_BEFORE_FAILURE)).

(** A computation neither sleeps nor logs a failed call by itself. *)
Definition quiet {A} (c : M A) : Prop :=
  forall w, sleeps (trace (c w).2) = sleeps (trace w) /\
            failed_attempts (trace (c w).2) = failed_attempts (trace w).

(** A store call during an outage: the request is sent and fails. *)
Definition unavailable : M unit :=
  tell (EvRequest (ReqDelete "bucket" "key")) ;;; raise (HttpError 503).

(** A path that splits into a bucket and an object name. *)
Definition well_formed_path (url : string) : bool :=
  startswith url "gs://" &&
  match partition "/" (string_drop (String.length "gs://") url) with
  | Some _ => true
  | None => false
  end.

(** A world with an empty store and nothing done yet. *)
Definition empty_world : World := {| objects := ∅; trace := [] |}.

Definition object_of (data : list Byte.byte) : StoredObject :=
  {| obj_data := data; obj_acl := None |}.

(** The outcome [r] of a wrapped call from [w] is the exception [e] after
    the whole retry schedule, without any request reaching the store: every
    attempt failed and was logged, and the wrapper slept after each but the
    last. *)
Definition retried_to_the_end {A} (r : Result A * World) (w : World) (e : Exn) : Prop :=
  r.1 = inl e /\
  sleeps (trace r.2) = (sleeps (trace w) ++ backoff_sleeps)%list /\
  failed_attempts (trace r.2) =
    (failed_attempts (trace w) + Z.to_nat (RETRIES_BEFORE_FAILURE + 1))%nat /\
  requests (trace r.2) = requests (trace w) /\
  objects r.2 = objects w.

(** ** Instances used in examples *)

(** A naming scheme that satisfies the laws: [key::index] for a task,
    [input::task] and [result::task] for its objects. *)
Definition example_naming : Naming :=
  {| make_job_name := fun k => "job::" ++ k;
     make_task_name := fun k i => k ++ "::" ++ pretty i;
     task_input_name := fun t => "input::" ++ t;
     task_result_name := fun t => "result::" ++ t;
     task_result_prefix := fun k => "result::" ++ k;
     task_name_from_result_name := fun x => string_drop (String.length "result::") x |}.

(** Tasks and values are numbers, written as that many bytes. *)
Definition example_serialization : Serialization nat nat :=
  {| dump := fun n => repeat Byte.x2a n;
     load := fun bytes => length bytes |}.

(** A backend with the three parameters of the call in [job.py], which
    runs the task at once: it reads the input, and writes it twice over
    to the output. *)
Definition doubling_submit_task (positional : list string) : M Handle :=
  match positional with
  | [task_name; task_input; task_output] =>
      let* data := storage.get task_input in
      storage.put task_output (data ++ data)%list ;;;
      ret OpaqueHandle
  | _ => raise (TypeError "submit_task() takes 4 positional arguments")
  end.

Definition doubling_backend : Backend :=
  {| backend_str := "DoublingBackend"; submit_task := doubling_submit_task |}.

(** The same backend when its worker deletes the input once the result
    is written, as a worker run with [--delete-input] does. *)
Definition consuming_submit_task (positional : list string) : M Handle :=
  match positional with
  | [task_name; task_input; task_output] =>
      let* data := storage.get task_input in
      storage.put task_output (data ++ data)%list ;;;
      storage.delete task_input ;;;
      ret OpaqueHandle
  | _ => raise (TypeError "submit_task() takes 4 positional arguments")
  end.

Definition consuming_backend : Backend :=
  {| backend_str := "ConsumingBackend"; submit_task := consuming_submit_task |}.

(** A backend that accepts the task and never runs it. *)
Definition idle_backend : Backend :=
  {| backend_str := "IdleBackend"; submit_task := fun _ => ret OpaqueHandle |}.

Definition hello : list Byte.byte := [Byte.x68; Byte.x69].

(** A store that holds one object, [gs://a/x]. *)
Definition world_a_x : World :=
  {| objects := {[ ("a", "x") := object_of hello ]}; trace := [] |}.

(** A job over the tasks [0 .. 4], two at a time, as in the scenario of
    section 8. *)
Definition example_job (backend : Backend) : job.Job nat :=
  job.init (N := example_naming) backend [0; 1; 2; 3; 4]%nat 2 "gs://bucket"
    (Some "key") (Some 5) true "fresh".

(** ** Definitions used to state the properties of a job *)

(** The bucket and the prefix that [list_contents] asks the store for,
    when the path has the [gs://] scheme. *)
Definition listing_target (url : string) : option (string * string) :=
  if startswith url "gs://" then
    match partition "/" (string_drop (String.length "gs://") url) with
    | Some (bucket, file_name_prefix) => Some (bucket, file_name_prefix)
    | None => Some (string_drop (String.length "gs://") url, "")
    end
  else None.

Section job_definitions.
Context {Task Value : Type} {N : Naming} {Ser : Serialization Task Value}.
Import job.

(** The storage prefix of the job is a bucket, [gs://bucket]. *)
Definition in_bucket (j : Job Task) (bucket : string) : Prop :=
  storage_prefix j = "gs://" ++ bucket /\ partition "/" bucket = None.

(** What the job lists to find the results. *)
Definition result_listing (j : Job Task) : option (string * string) :=
  listing_target (storage_path j (task_result_prefix (cache_key j))).

(** The completed and the running tasks of the job as the store shows
    them in world [w]. *)
Definition completed_now (j : Job Task) (w : World) : gset string :=
  match result_listing j with
  | Some (bucket, file_name_prefix) =>
      list_to_set (map task_name_from_result_name
                     (service.names_in (objects w) bucket file_name_prefix))
  | None => ∅
  end.

Definition running_now (j : Job Task) (w : World) : gset string :=
  list_to_set (submitted_tasks j) ∖ completed_now j w.

(** The bytes stored as the result of task [t]. *)
Definition stored_result (o : gmap (string * string) StoredObject)
    (bucket t : string) : list Byte.byte :=
  match o !! (bucket, task_result_name t) with
  | Some x => obj_data x
  | None => []
  end.

(** A computation leaves the job object as it is. *)
Definition keeps_job {A} (c : J (Task := Task) A) : Prop :=
  forall j w, (c (j, w)).2.1 = j.

(** [pulled n s s']: from [s], [n] calls of [submit_one_task] have
    returned [True], the last one leaving [s']. Between the calls the
    world may change in any way, and each call may be given any set of
    completed tasks. *)
Inductive pulled : nat -> Job Task * World -> Job Task * World -> Prop :=
| pulled_none s : pulled 0 s s
| pulled_next n s s1 completed_tasks w s2 :
    pulled n s s1 ->
    submit_one_task completed_tasks (s1.1, w) = (inr true, s2) ->
    pulled (S n) s s2.

End job_definitions.

(** The example job after two pulls: the first task is new, the second
    finds its result in the set of completed tasks. *)
Definition pulled_once : job.Job nat * World :=
  (job.submit_one_task (N := example_naming) (Ser := example_serialization)
     (Some ∅) (example_job doubling_backend, empty_world)).2.

Definition pulled_twice : job.Job nat * World :=
  (job.submit_one_task (N := example_naming) (Ser := example_serialization)
     (Some {[ "key::1" ]}) (pulled_once.1, empty_world)).2.

(** The example job after one pull on the idle backend: a task is
    submitted and never completes. *)
Definition waiting : job.Job nat * World :=
  (job.submit_one_task (N := example_naming) (Ser := example_serialization)
     (Some ∅) (example_job idle_backend, empty_world)).2.

(** A store that holds the results of the first two tasks of the example
    job. *)
Definition two_results : World :=
  {| objects :=
       {[ ("bucket", "result::key::0") := object_of [Byte.x2a];
          ("bucket", "result::key::1") := object_of [Byte.x2a; Byte.x2a; Byte.x2a] ]};
     trace := [] |}.



Section reuse_definitions.
Context {Task : Type} {N : Naming}.
Import job.


End reuse_definitions.

(** A store that holds the results of the five tasks of the example job,
    as a first run leaves them when the results are not read. *)
Definition five_results : World :=
  {| objects :=
       list_to_map
         (map (fun i => (("bucket", "result::key::" ++ pretty i),
                         object_of (repeat Byte.x2a (2 * i))))
              (seq 0 5));
     trace := [] |}.

(** ** Jobs below the root of a bucket *)




(** A naming that satisfies the laws and reads every listed name that is
    not a result name as the result of the first task of the key. *)
Definition guessing_naming : Naming :=
  {| make_job_name := fun k => "job::" ++ k;
     make_task_name := fun k i => k ++ "::" ++ pretty i;
     task_input_name := fun t => "input::" ++ t;
     task_result_name := fun t => "result::" ++ t;
     task_result_prefix := fun k => "result::" ++ k;
     task_name_from_result_name := fun x =>
       if startswith x "result::" then string_drop (String.length "result::") x
       else "key::0" |}.


(** ** The run of [wait] among the workers *)

(** The store keeps its objects from [w] to [w']: objects may be added or
    overwritten, none disappears. *)
Definition objects_kept (w w' : World) : Prop :=
  forall k, is_Some (objects w !! k) -> is_Some (objects w' !! k).

(** A computation never removes an object. *)
Definition keeps_objects {A} (c : M A) : Prop :=
  forall w, objects_kept w (c w).2.

(** Where [wait] is. *)
Inductive Phase : Type :=
| Polling
| Submitting (remaining : nat) (completed_tasks : gset string)
| Draining
| Returned.

Section run_definitions.
Context {Task Value : Type} {N : Naming} {Ser : Serialization Task Value}.
Import job.

(** The job [j'] has the configuration of [j]. *)
Definition same_config (j j' : Job Task) : Prop :=
  backend j' = backend j /\
  max_simultaneous_tasks j' = max_simultaneous_tasks j /\
  storage_prefix j' = storage_prefix j /\
  cache_key j' = cache_key j.

(** The store keeps the result objects of the job from [w] to [w']: no
    object under the prefix that the job lists disappears. Every other
    object, the inputs of the tasks among them, may be added, overwritten
    or removed. *)
Definition results_kept (j : Job Task) (w w' : World) : Prop :=
  forall bucket file_name_prefix x,
    result_listing j = Some (bucket, file_name_prefix) ->
    startswith x file_name_prefix = true ->
    is_Some (objects w !! (bucket, x)) -> is_Some (objects w' !! (bucket, x)).

(** The calls of [submit_task] that the job makes, one per task index,
    remove no result object of the job. *)
Definition backend_keeps_results (j : Job Task) : Prop :=
  forall (i : nat) w,
    let task_name := make_task_name (cache_key j) i in
    results_kept j w
      (submit_task (backend j)
         [task_name; storage_path j (task_input_name task_name);
          storage_path j (task_result_name task_name)] w).2.

(** The steps of [wait] and of the workers. The workers act between the
    calls that [wait] makes; they may do anything to the store but remove
    a result object of the job. [wait] lists the store and either sleeps or
    starts a batch; in a batch it calls [submit_one_task] until the batch
    is done or the task source is exhausted; then it drains. A call that
    raises ends the run. *)
Inductive step (poll_seconds : Z)
  : Phase * (Job Task * World) -> Phase * (Job Task * World) -> Prop :=
| step_workers ph j w w' :
    results_kept j w w' ->
    step poll_seconds (ph, (j, w)) (ph, (j, w'))
| step_poll_sleep s completed_tasks s1 running_tasks s2 :
    get_completed_tasks s = (inr completed_tasks, s1) ->
    get_running_tasks (Some completed_tasks) s1 = (inr running_tasks, s2) ->
    Z.max 0 (max_simultaneous_tasks s2.1 - Z.of_nat (size running_tasks)) = 0%Z ->
    step poll_seconds (Polling, s) (Polling, (s2.1, emit (EvSleep poll_seconds) s2.2))
| step_poll_submit s completed_tasks s1 running_tasks s2 tasks_to_submit :
    get_completed_tasks s = (inr completed_tasks, s1) ->
    get_running_tasks (Some completed_tasks) s1 = (inr running_tasks, s2) ->
    Z.max 0 (max_simultaneous_tasks s2.1 - Z.of_nat (size running_tasks)) =
      tasks_to_submit ->
    tasks_to_submit <> 0%Z ->
    step poll_seconds (Polling, s)
      (Submitting (Z.to_nat tasks_to_submit) completed_tasks,
       (s2.1, emit (EvLog (LogSubmitting tasks_to_submit)) s2.2))
| step_submit_one n completed_tasks s s' :
    submit_one_task (Some completed_tasks) s = (inr true, s') ->
    step poll_seconds (Submitting (S n) completed_tasks, s)
      (Submitting n completed_tasks, s')
| step_submit_exhausted n completed_tasks s s' :
    submit_one_task (Some completed_tasks) s = (inr false, s') ->
    step poll_seconds (Submitting (S n) completed_tasks, s) (Draining, s')
| step_batch_done completed_tasks s :
    step poll_seconds (Submitting 0 completed_tasks, s) (Polling, s)
| step_drain_sleep s s' :
    drain_poll poll_seconds s = (inr false, s') ->
    step poll_seconds (Draining, s) (Draining, s')
| step_drain_return s s' :
    drain_poll poll_seconds s = (inr true, s') ->
    step poll_seconds (Draining, s) (Returned, s').

(** What holds in each phase of a run of a job configured as [j0]. *)
Definition bounded (j0 : Job Task) (c : Phase * (Job Task * World)) : Prop :=
  same_config j0 c.2.1 /\
  match c.1 with
  | Submitting remaining completed_tasks =>
      completed_tasks ⊆ completed_now c.2.1 c.2.2 /\
      (Z.of_nat (size (list_to_set (submitted_tasks c.2.1) ∖ completed_tasks
                       : gset string))
       + Z.of_nat remaining <= max_simultaneous_tasks j0)%Z
  | _ =>
      (Z.of_nat (size (running_now c.2.1 c.2.2)) <= max_simultaneous_tasks j0)%Z
  end.

(** A method keeps the configuration of the job and the result objects
    of the store. *)
Definition steady {A} (j0 : Job Task) (c : J A) : Prop :=
  forall j w, same_config j0 j ->
    same_config j0 (c (j, w)).2.1 /\ results_kept j0 w (c (j, w)).2.2.

End run_definitions.

(** ** Two instances with one cache key *)

(** A job over eight tasks, two at a time, on the backend that runs each
    task at once. *)
Definition long_job : job.Job nat :=
  job.init (N := example_naming) doubling_backend [0; 1; 2; 3; 4; 5; 6; 7]%nat 2
    "gs://bucket" (Some "key") (Some 8) true "fresh".

(** That job after three passes of the outer loop of [wait]: six tasks are
    submitted, in batches of two, and all have their results. *)
Definition long_job_polled : job.Job nat * World :=
  let pass s := (job.wait_poll (N := example_naming) (Ser := example_serialization)
                   5 s).2 in
  pass (pass (pass (long_job, empty_world))).

(** Another instance with the same cache key, over the first six tasks. *)
Definition short_job : job.Job nat :=
  job.init (N := example_naming) doubling_backend [0; 1; 2; 3; 4; 5]%nat 2
    "gs://bucket" (Some "key") (Some 6) true "fresh".

(** ** Definitions used to state further properties *)

(** A call that stops failing: it fails while the wrapper has slept
    fewer than [n] times. *)
Definition flaky (n : nat) : M unit :=
  fun w =>
    if (length (sleeps (trace w)) <? n)%nat
    then (inl (HttpError 503), emit (EvRequest (ReqDelete "bucket" "key")) w)
    else (inr tt, emit (EvRequest (ReqDelete "bucket" "key")) w).

(** The outcome [r] of a wrapped call from [w] is the exception [e] of the
    store, after the request [req] has been sent at every attempt of the
    whole retry schedule; the store is as it was. *)
Definition refused_to_the_end {A} (r : Result A * World) (w : World) (e : Exn)
    (req : Request) : Prop :=
  r.1 = inl e /\
  objects r.2 = objects w /\
  requests (trace r.2) =
    (requests (trace w) ++ replicate (Z.to_nat (RETRIES_BEFORE_FAILURE + 1)) req)%list /\
  sleeps (trace r.2) = (sleeps (trace w) ++ backoff_sleeps)%list.

(** The example job with no slot at all. *)
Definition stalled_job : job.Job nat :=
  job.init (N := example_naming) idle_backend [0; 1]%nat 0 "gs://bucket"
    (Some "key") None true "fresh".

(** The example job with an empty task source. *)
Definition empty_job : job.Job nat :=
  job.init (N := example_naming) idle_backend [] 2 "gs://bucket"
    (Some "key") (Some 0) true "fresh".

(** The submission of the first task of the example job on the local
    process backend, which raises. *)
Definition refused : Result bool * (job.Job nat * World) :=
  job.submit_one_task (N := example_naming) (Ser := example_serialization) None
    (example_job (local_process_backend.LocalProcessBackend true), empty_world).

Section more_job_definitions.
Context {Task Value : Type} {N : Naming} {Ser : Serialization Task Value}.
Import job.

(** The requests that [results] sends for one task. *)
Definition result_requests (j : Job Task) (bucket t : string) : list Request :=
  ReqGetMedia bucket (task_result_name t)
  :: (if cleanup j then [ReqDelete bucket (task_result_name t)] else []).

(** The world in which the backend is called for [task]: the upload is
    logged and the input stored. *)
Definition uploaded (j : Job Task) (bucket : string) (task : Task) (w : World) : World :=
  let task_name := make_task_name (cache_key j) (length (submitted_tasks j)) in
  set_objects
    (<[(bucket, task_input_name task_name) := object_of (dump task)]> (objects w))
    (emit (EvRequest (ReqInsert bucket
                        {| body_name := task_input_name task_name; body_acl := None |}
                        "application/octet-stream"))
       (emit (EvLog (LogUploading (storage_path j (task_input_name task_name))
                       task_name (length (dump task)))) w)).

(** The positional arguments of the call of [submit_task] for the next
    task. *)
Definition submission (j : Job Task) : list string :=
  let task_name := make_task_name (cache_key j) (length (submitted_tasks j)) in
  [task_name; storage_path j (task_input_name task_name);
   storage_path j (task_result_name task_name)].

End more_job_definitions.

(** A backend that runs a task to its end during the call of
    [submit_task], for the paths of one bucket: given a stored input it
    returns a handle, leaves a result at the output path, removes no
    object and does not sleep. *)
Definition prompt (b : Backend) (bucket : string) : Prop :=
  forall task_name input output w,
    is_Some (objects w !! (bucket, input)) ->
    exists h w',
      submit_task b [task_name; "gs://" ++ bucket ++ "/" ++ input;
                     "gs://" ++ bucket ++ "/" ++ output] w = (inr h, w') /\
      objects_kept w w' /\
      is_Some (objects w' !! (bucket, output)) /\
      sleeps (trace w') = sleeps (trace w).

(** ** tests/test_storage.py

    The two tests that use the store, run on the bucket storage. The
    decorator [with_local_and_bucket_storage] passes the prefix [bucket];
    [stamp] stands for [str(time.time()).replace(".", "")]. *)

Module test_storage.

#[export] Instance byte_eq_dec : EqDecision Byte.byte := Byte.byte_eq_dec.

(** How a test ends when no call raises: [testing.assert_equal] and
    [testing.assert_] stop it at the first assertion that fails. *)
Inductive Outcome : Type :=
| passed
| assertion_failed (which : nat).

Definition assert_ (which : nat) (holds : bool) (rest : M Outcome) : M Outcome :=
  if holds then rest else ret (assertion_failed which).

(** ["ABCDe" * 1000], encoded. *)
Definition data : list Byte.byte :=
  concat (repeat [Byte.x41; Byte.x42; Byte.x43; Byte.x44; Byte.x65] 1000).

Definition file_name (stamp : string) : string :=
  "kubeface-test-" ++ stamp ++ ".txt".

Definition test_put_and_get_to_bucket (bucket stamp : string) : M Outcome :=
  let file_name := file_name stamp in
  let name := bucket ++ "/" ++ file_name in
  storage.put name data ;;;
  let* listed := storage.list_contents name in
  assert_ 1 (bool_decide (listed = [file_name])) (
  let* listed := storage.list_contents (bucket ++ "/kubeface-test-") in
  assert_ 2 (bool_decide (file_name ∈ listed)) (
  let* result_handle := storage.get name in
  assert_ 3 (bool_decide (result_handle = data)) (
  storage.delete name ;;;
  let* listed := storage.list_contents (bucket ++ "/") in
  assert_ 4 (bool_decide (file_name ∉ listed)) (
  ret passed)))).

Definition test_move (bucket stamp : string) : M Outcome :=
  let file_name := file_name stamp in
  let name := bucket ++ "/" ++ file_name in
  let name2 := bucket ++ "/moved-" ++ file_name in
  storage.put name data ;;;
  let* listed := storage.list_contents name in
  assert_ 1 (bool_decide (listed = [file_name])) (
  storage.move name name2 ;;;
  let* listed := storage.list_contents name in
  assert_ 2 (bool_decide (listed = [])) (
  let* listed := storage.list_contents name2 in
  assert_ 3 (bool_decide (listed = ["moved-" ++ file_name])) (
  let* result_handle := storage.get name2 in
  assert_ 4 (bool_decide (result_handle = data)) (
  storage.delete name2 ;;;
  let* listed := storage.list_contents (bucket ++ "/") in
  assert_ 5 (bool_decide ("moved-" ++ file_name ∉ listed)) (
  ret passed))))).

End test_storage.

(** No object of [bucket] other than [name] itself has a name that
    starts with [name]. *)
Definition fresh_name (w : World) (bucket name : string) : Prop :=
  forall n, is_Some (objects w !! (bucket, n)) -> startswith n name = true -> n = name.

(** A store in which an object left by an earlier run extends the name
    that the test is about to use. *)
Definition leftover_world : World :=
  {| objects := {[ ("bucket", "kubeface-test-1478250000.txt.old") := object_of [] ]};
     trace := [] |}.


(** * Properties *)

(** ** The monad *)

Lemma bind_ret_l {S A B} (a : A) (k : A -> ST S B) s : bind (ret a) k s = k a s.
Proof. reflexivity. Qed.

Lemma bind_inr {S A B} (c : ST S A) (k : A -> ST S B) s a s' :
  c s = (inr a, s') -> bind c k s = k a s'.
Proof. intros H. unfold bind. rewrite H. reflexivity. Qed.

Lemma bind_inl {S A B} (c : ST S A) (k : A -> ST S B) s e s' :
  c s = (inl e, s') -> bind c k s = (inl e, s').
Proof. intros H. unfold bind. rewrite H. reflexivity. Qed.

(** ** Traces *)

Lemma sleeps_emit e w :
  sleeps (trace (emit e w)) =
  (sleeps (trace w) ++ match e with EvSleep s => [s] | _ => [] end)%list.
Proof.
  unfold sleeps, emit. simpl. rewrite omap_app. simpl.
  destruct e; reflexivity.
Qed.

Lemma failed_attempts_emit e w :
  failed_attempts (trace (emit e w)) =
  (failed_attempts (trace w) + if is_call_failed e then 1 else 0)%nat.
Proof.
  unfold failed_attempts, emit. simpl. rewrite List.filter_app, length_app.
  simpl. destruct (is_call_failed e); reflexivity.
Qed.

Lemma requests_emit e w :
  requests (trace (emit e w)) =
  (requests (trace w) ++ match e with EvRequest r => [r] | _ => [] end)%list.
Proof.
  unfold requests, emit. simpl. rewrite omap_app. simpl.
  destruct e; reflexivity.
Qed.

Lemma objects_emit e w : objects (emit e w) = objects w.
Proof. reflexivity. Qed.

(** ** The retry wrapper *)

Section robustify_facts.
Context {A : Type} (name : string) (f : M A).

Lemma robust_loop_eq error_num w :
  robust_loop name f error_num w =
  match f w with
  | (inr v, w1) => (inr v, w1)
  | (inl e, w1) =>
      let w2 :=
        emit (EvLog (LogCallFailed name e (error_num + 1) RETRIES_BEFORE_FAILURE)) w1 in
      if error_num + 1 >? RETRIES_BEFORE_FAILURE then (inl e, w2)
      else robust_loop name f (error_num + 1)
             (emit (EvSleep (FIRST_RETRY_SLEEP ^ (error_num + 1)))
                (emit (EvLog (LogSleeping (FIRST_RETRY_SLEEP ^ (error_num + 1)))) w2))
  end.
Proof.
  simp robust_loop. destruct (f w) as [[e|v] w1]; simpl; [|reflexivity].
  destruct (error_num + 1 >? RETRIES_BEFORE_FAILURE); reflexivity.
Qed.

(** A call that succeeds at once is not retried. *)
Lemma robustify_ok w v w1 : f w = (inr v, w1) -> robustify name f w = (inr v, w1).
Proof. intros H. unfold robustify. rewrite robust_loop_eq, H. reflexivity. Qed.

Lemma robust_loop_failing (n : nat) : forall (k : Z) w,
  (forall w, exists e w', f w = (inl e, w')) ->
  0 <= k -> k + Z.of_nat n = RETRIES_BEFORE_FAILURE ->
  robust_loop name f k w =
  match f (retries name f n (k + 1) w) with
  | (inl e, w') =>
      (inl e, emit (EvLog (LogCallFailed name e (RETRIES_BEFORE_FAILURE + 1)
                             RETRIES_BEFORE_FAILURE)) w')
  | (inr v, w') => (inr v, w')
  end.
Proof.
  induction n as [|n IH]; intros k w Hfail Hk Hsum.
  - simpl. rewrite robust_loop_eq.
    destruct (f w) as [[e|v] w1]; [|reflexivity].
    replace (k + 1) with (RETRIES_BEFORE_FAILURE + 1) by lia.
    reflexivity.
  - rewrite robust_loop_eq. simpl retries. unfold back_off at 1.
    destruct (Hfail w) as (e & w1 & Hf). rewrite Hf.
    cbv zeta.
    replace (k + 1 >? RETRIES_BEFORE_FAILURE) with false
      by (symmetry; rewrite Z.gtb_ltb; apply Z.ltb_ge; lia).
    rewrite (IH (k + 1)) by (auto; lia).
    reflexivity.
Qed.

Lemma retries_trace (n : nat) : forall (k : Z) w,
  (forall w, exists e w', f w = (inl e, w')) -> quiet f ->
  sleeps (trace (retries name f n k w)) =
    (sleeps (trace w) ++
     map (fun i => FIRST_RETRY_SLEEP ^ (k + Z.of_nat i)) (seq 0 n))%list /\
  failed_attempts (trace (retries name f n k w)) =
    (failed_attempts (trace w) + n)%nat.
Proof.
  induction n as [|n IH]; intros k w Hfail Hq.
  - simpl. rewrite app_nil_r. split; [reflexivity|lia].
  - simpl retries. destruct (IH (k + 1) (back_off name f k w) Hfail Hq) as [Hs Hc].
    rewrite Hs, Hc. unfold back_off.
    destruct (Hfail w) as (e & w1 & Hf). rewrite Hf.
    destruct (Hq w) as [Hqs Hqc]. rewrite Hf in Hqs, Hqc. simpl in Hqs, Hqc.
    rewrite !sleeps_emit, !failed_attempts_emit, Hqs, Hqc. simpl.
    rewrite !app_nil_r, <- app_assoc. simpl.
    split; [|lia].
    f_equal. rewrite Z.add_0_r. f_equal.
    rewrite <- seq_shift, map_map.
    apply map_ext. intros i. f_equal. lia.
Qed.

End robustify_facts.

Lemma retries_of_raise {A} name (e : Exn) (f : M A) (n : nat) : forall k w,
  (forall w, f w = (inl e, w)) ->
  requests (trace (retries name f n k w)) = requests (trace w) /\
  objects (retries name f n k w) = objects w.
Proof.
  induction n as [|n IH]; intros k w Hf; [done|].
  simpl retries. destruct (IH (k + 1) (back_off name f k w) Hf) as [Hr Ho].
  rewrite Hr, Ho. unfold back_off. rewrite Hf.
  rewrite !requests_emit, !objects_emit. simpl. by rewrite !app_nil_r.
Qed.

(** A body that raises the same exception whatever the world, before it
    does anything, is retried to the end. *)
Lemma robustify_of_raise {A} name (e : Exn) (f : M A) w :
  (forall w, f w = (inl e, w)) ->
  retried_to_the_end (robustify name f w) w e.
Proof.
  intros Hf.
  assert (Hfail : forall w, exists e w', f w = (inl e, w')) by (intros; eauto).
  assert (Hq : quiet f) by (intros w'; rewrite Hf; done).
  destruct (retries_trace name f (Z.to_nat RETRIES_BEFORE_FAILURE) (0 + 1) w Hfail Hq)
    as [Hs Hc].
  destruct (retries_of_raise name e f (Z.to_nat RETRIES_BEFORE_FAILURE) (0 + 1) w Hf)
    as [Hr Ho].
  unfold robustify.
  rewrite (robust_loop_failing name f (Z.to_nat RETRIES_BEFORE_FAILURE) 0 w Hfail)
    by (vm_compute; congruence).
  set (wr := retries name f (Z.to_nat RETRIES_BEFORE_FAILURE) (0 + 1) w) in *.
  rewrite Hf. unfold retried_to_the_end. cbn [fst snd].
  rewrite sleeps_emit, failed_attempts_emit, requests_emit, objects_emit.
  rewrite Hs, Hc, Hr, Ho. cbn [is_call_failed].
  rewrite !app_nil_r. repeat split; try done.
  vm_compute Z.to_nat. lia.
Qed.

(** C1 (amended). When the wrapped call fails on every attempt, the
    wrapper sleeps [2 ^ k] seconds after the [k]-th failed attempt for
    [k = 1 .. 12], makes a thirteenth attempt ([RETRIES_BEFORE_FAILURE]
    retries after the first one), and the exception of that last attempt
    reaches the caller as it is. *)
Theorem robustify_exhaustion {A} (name : string) (f : M A) (w : World)
    (Hfail : forall w, exists e w', f w = (inl e, w')) (Hquiet : quiet f) :
  exists e w',
    f (retries name f (Z.to_nat RETRIES_BEFORE_FAILURE) 1 w) = (inl e, w') /\
    robustify name f w =
      (inl e, emit (EvLog (LogCallFailed name e (RETRIES_BEFORE_FAILURE + 1)
                             RETRIES_BEFORE_FAILURE)) w') /\
    sleeps (trace (robustify name f w).2) = (sleeps (trace w) ++ backoff_sleeps)%list /\
    failed_attempts (trace (robustify name f w).2) =
      (failed_attempts (trace w) + Z.to_nat (RETRIES_BEFORE_FAILURE + 1))%nat.
Proof.
  unfold robustify.
  rewrite (robust_loop_failing name f (Z.to_nat RETRIES_BEFORE_FAILURE) 0 w Hfail)
    by (vm_compute; congruence).
  change (0 + 1) with 1.
  destruct (retries_trace name f (Z.to_nat RETRIES_BEFORE_FAILURE) 1 w Hfail Hquiet)
    as [Hs Hc].
  set (wr := retries name f (Z.to_nat RETRIES_BEFORE_FAILURE) 1 w) in *.
  destruct (Hfail wr) as (e & w' & Hlast).
  destruct (Hquiet wr) as [Hqs Hqc].
  exists e, w'. rewrite Hlast in *. split; [reflexivity|]. split; [reflexivity|].
  cbn [fst snd] in *. rewrite sleeps_emit, failed_attempts_emit. cbn [is_call_failed].
  rewrite Hqs, Hqc, Hs, Hc, app_nil_r. split; [reflexivity|].
  vm_compute Z.to_nat. lia.
Qed.

Lemma robustify_exhaustion_witness :
  exists e w',
    unavailable (retries "delete" unavailable (Z.to_nat RETRIES_BEFORE_FAILURE) 1
                   empty_world) = (inl e, w') /\
    robustify "delete" unavailable empty_world =
      (inl e, emit (EvLog (LogCallFailed "delete" e (RETRIES_BEFORE_FAILURE + 1)
                             RETRIES_BEFORE_FAILURE)) w') /\
    sleeps (trace (robustify "delete" unavailable empty_world).2) =
      (sleeps (trace empty_world) ++ backoff_sleeps)%list /\
    failed_attempts (trace (robustify "delete" unavailable empty_world).2) =
      (failed_attempts (trace empty_world) + Z.to_nat (RETRIES_BEFORE_FAILURE + 1))%nat.
Proof.
  apply (robustify_exhaustion "delete" unavailable empty_world).
  - intros w. eexists _, _. reflexivity.
  - intros w. unfold unavailable, bind, tell, raise. cbn [fst snd]. split.
    + rewrite sleeps_emit. apply app_nil_r.
    + rewrite failed_attempts_emit. cbn [is_call_failed]. lia.
Defined.

(** C1 (as claimed) fails: during an outage the store receives thirteen
    requests for one call, not twelve, the sleeps are [2; 4; ...; 4096],
    and the caller receives the store's own exception. *)
Lemma robustify_makes_thirteen_attempts :
  let r := robustify "delete" unavailable empty_world in
  r.1 = inl (HttpError 503) /\
  length (requests (trace r.2)) = 13%nat /\
  length (requests (trace r.2)) <> Z.to_nat RETRIES_BEFORE_FAILURE /\
  sleeps (trace r.2) = [2; 4; 8; 16; 32; 64; 128; 256; 512; 1024; 2048; 4096].
Proof. vm_compute. repeat split; congruence. Qed.

(** ** Storage paths *)

Lemma startswith_app p s : startswith (p ++ s) p = true.
Proof.
  unfold startswith. induction p as [|a p IH]; simpl; [by destruct s|].
  destruct (ascii_dec a a); [assumption|congruence].
Qed.

Lemma startswith_empty s : startswith s "" = true.
Proof. by destruct s. Qed.

Lemma string_drop_app p s : string_drop (String.length p) (p ++ s) = s.
Proof. induction p as [|a p IH]; simpl; [by destruct s|assumption]. Qed.

Lemma partition_app_sep sep b s :
  partition sep b = None -> partition sep (b ++ String sep s) = Some (b, s).
Proof.
  induction b as [|c b IH]; simpl; intros H.
  - by rewrite Ascii.eqb_refl.
  - destruct (Ascii.eqb c sep); [discriminate|].
    destruct (partition sep b) as [[? ?]|]; [discriminate|].
    by rewrite IH.
Qed.

(** A path [gs://bucket/name] splits into its bucket and its name. *)
Lemma split_bucket_and_name_path bucket name w :
  partition "/" bucket = None ->
  split_bucket_and_name ("gs://" ++ bucket ++ "/" ++ name) w = (inr [bucket; name], w).
Proof.
  intros H. unfold split_bucket_and_name.
  rewrite startswith_app. cbn [negb]. unfold ret, split1.
  rewrite string_drop_app.
  change ("/" ++ name) with (String "/" name).
  by rewrite (partition_app_sep _ _ _ H).
Qed.

(** A path [gs://bucket] has one part only. *)
Lemma split_bucket_and_name_bucket bucket w :
  partition "/" bucket = None ->
  split_bucket_and_name ("gs://" ++ bucket) w = (inr [bucket], w).
Proof.
  intros H. unfold split_bucket_and_name.
  rewrite startswith_app. cbn [negb]. unfold ret, split1.
  by rewrite string_drop_app, H.
Qed.

(** Whether the split succeeds does not depend on the world, and the
    split leaves the world alone. *)
Lemma split_bucket_and_name_pure url w :
  split_bucket_and_name url w = ((split_bucket_and_name url empty_world).1, w).
Proof. unfold split_bucket_and_name. by destruct (negb _). Qed.

Lemma split_bucket_and_name_parts url xs w :
  split_bucket_and_name url w = (inr xs, w) ->
  (exists a, xs = [a]) \/ (exists a b, xs = [a; b]).
Proof.
  unfold split_bucket_and_name. destruct (negb _); [discriminate|].
  unfold ret, split1. intros [= <-].
  destruct (partition _ _) as [[a b]|]; eauto.
Qed.

(** On a malformed path, splitting and unpacking into bucket and name
    raises [ValueError], whatever the world. *)
Lemma split_unpack_malformed url :
  well_formed_path url = false ->
  exists msg, forall w,
    (let* xs := split_bucket_and_name url in unpack2 xs) w = (inl (ValueError msg), w).
Proof.
  unfold well_formed_path, split_bucket_and_name, bind. intros H.
  destruct (startswith url "gs://"); cbn [negb andb] in *.
  - unfold ret, split1.
    destruct (partition _ _) as [[a b]|]; [discriminate|].
    eexists. intros w. reflexivity.
  - eexists. intros w. reflexivity.
Qed.

Lemma split_unpack_well_formed url :
  well_formed_path url = true ->
  exists bucket name, forall w,
    (let* xs := split_bucket_and_name url in unpack2 xs) w = (inr (bucket, name), w).
Proof.
  unfold well_formed_path, split_bucket_and_name, bind. intros H.
  destruct (startswith url "gs://"); cbn [negb andb] in *; [|discriminate].
  unfold ret, split1.
  destruct (partition _ _) as [[a b]|]; [|discriminate].
  exists a, b. intros w. reflexivity.
Qed.

(** ** The listing of the store *)

Lemma elem_of_names_in o bucket file_name_prefix n :
  n ∈ service.names_in o bucket file_name_prefix <->
  is_Some (o !! (bucket, n)) /\ startswith n file_name_prefix = true.
Proof.
  unfold service.names_in. rewrite list_elem_of_omap. split.
  - intros ([[b n'] v] & Hin & Hsome).
    apply elem_of_map_to_list in Hin. cbn [fst snd] in Hsome.
    destruct (decide (b = bucket)) as [->|]; [|discriminate].
    destruct (startswith n' file_name_prefix) eqn:Hp; [|discriminate].
    injection Hsome as ->. eauto.
  - intros [[v Hv] Hp]. exists ((bucket, n), v). split.
    + by apply elem_of_map_to_list.
    + cbn [fst snd]. rewrite decide_True by done. by rewrite Hp.
Qed.

(** ** Malformed paths *)

Lemma bind_raise_const {A B} (c : M A) (k : A -> M B) e :
  (forall w, c w = (inl e, w)) -> forall w, bind c k w = (inl e, w).
Proof. intros H w. unfold bind. by rewrite H. Qed.

Lemma bind_assoc {S A B C} (c : ST S A) (k : A -> ST S B) (h : B -> ST S C) s :
  bind (bind c k) h s = bind c (fun x => bind (k x) h) s.
Proof. unfold bind. by destruct (c s) as [[e|a] s']. Qed.

Lemma with_bucket_and_name_malformed {B} url (h : string * string -> M B) :
  well_formed_path url = false ->
  exists msg, forall w,
    (let* xs := split_bucket_and_name url in let* p := unpack2 xs in h p) w =
    (inl (ValueError msg), w).
Proof.
  intros H. destruct (split_unpack_malformed url H) as [msg Hm].
  exists msg. intros w. rewrite <- bind_assoc. by apply bind_raise_const.
Qed.

Lemma with_bucket_and_name_well_formed {B} url (h : string * string -> M B) :
  well_formed_path url = true ->
  exists bucket name, forall w,
    (let* xs := split_bucket_and_name url in let* p := unpack2 xs in h p) w =
    h (bucket, name) w.
Proof.
  intros H. destruct (split_unpack_well_formed url H) as (b & n & Hok).
  exists b, n. intros w. rewrite <- bind_assoc. by rewrite (bind_inr _ _ _ _ _ (Hok w)).
Qed.

Lemma get_body_malformed url :
  well_formed_path url = false ->
  exists msg, forall w, get_body url w = (inl (ValueError msg), w).
Proof. intros H. exact (with_bucket_and_name_malformed url _ H). Qed.

Lemma delete_body_malformed url :
  well_formed_path url = false ->
  exists msg, forall w, delete_body url w = (inl (ValueError msg), w).
Proof. intros H. exact (with_bucket_and_name_malformed url _ H). Qed.

Lemma put_body_malformed url data readers owners mime_type :
  well_formed_path url = false ->
  exists msg, forall w,
    put_body url data readers owners mime_type w = (inl (ValueError msg), w).
Proof. intros H. exact (with_bucket_and_name_malformed url _ H). Qed.

Lemma move_body_malformed_source url dest :
  well_formed_path url = false ->
  exists msg, forall w, move_body url dest w = (inl (ValueError msg), w).
Proof. intros H. exact (with_bucket_and_name_malformed url _ H). Qed.

Lemma move_body_malformed_dest source url :
  well_formed_path url = false ->
  exists msg, forall w, move_body source url w = (inl (ValueError msg), w).
Proof.
  intros H. destruct (well_formed_path source) eqn:Hs.
  - destruct (split_unpack_malformed url H) as [msg Hm].
    destruct (split_unpack_well_formed source Hs) as (b & n & Hok).
    exists msg. intros w. unfold move_body.
    rewrite <- bind_assoc. rewrite (bind_inr _ _ _ _ _ (Hok w)). cbn beta iota.
    rewrite <- bind_assoc. by apply bind_raise_const.
  - apply move_body_malformed_source, Hs.
Qed.

Lemma list_contents_body_not_gs url :
  startswith url "gs://" = false ->
  forall w, list_contents_body url w =
            (inl (ValueError ("Not a gs:// url: " ++ url)), w).
Proof.
  intros H w. unfold list_contents_body, bind, split_bucket_and_name.
  by rewrite H.
Qed.

(** C3 (amended). On a malformed storage path, [get], [put], [delete]
    and [move] raise [ValueError] on every attempt inside the retry
    wrapper: the call is retried like any other failure, with all its
    sleeps, before the [ValueError] reaches the caller; no request is sent
    to the store. [list_contents] does the same on a path that is not a
    [gs://] one. *)
Theorem malformed_path_is_retried (url : string) (w : World)
    (Hbad : well_formed_path url = false) :
  (exists msg, retried_to_the_end (get url w) w (ValueError msg)) /\
  (forall data readers owners mime_type, exists msg,
     retried_to_the_end (put_with url data readers owners mime_type w) w
       (ValueError msg)) /\
  (exists msg, retried_to_the_end (delete url w) w (ValueError msg)) /\
  (forall dest, exists msg, retried_to_the_end (move url dest w) w (ValueError msg)) /\
  (forall source, exists msg,
     retried_to_the_end (move source url w) w (ValueError msg)) /\
  (startswith url "gs://" = false ->
   retried_to_the_end (list_contents url w) w
     (ValueError ("Not a gs:// url: " ++ url))).
Proof.
  split_and!.
  - destruct (get_body_malformed url Hbad) as [msg H].
    exists msg. by apply robustify_of_raise.
  - intros data readers owners mime_type.
    destruct (put_body_malformed url data readers owners mime_type Hbad) as [msg H].
    exists msg. by apply robustify_of_raise.
  - destruct (delete_body_malformed url Hbad) as [msg H].
    exists msg. by apply robustify_of_raise.
  - intros dest. destruct (move_body_malformed_source url dest Hbad) as [msg H].
    exists msg. by apply robustify_of_raise.
  - intros source. destruct (move_body_malformed_dest source url Hbad) as [msg H].
    exists msg. by apply robustify_of_raise.
  - intros Hgs. apply robustify_of_raise.
    by apply list_contents_body_not_gs.
Qed.

Lemma malformed_path_is_retried_witness :
  (exists msg,
     retried_to_the_end (get "s3://bucket/key" empty_world) empty_world
       (ValueError msg)) /\
  (forall data readers owners mime_type, exists msg,
     retried_to_the_end
       (put_with "s3://bucket/key" data readers owners mime_type empty_world)
       empty_world (ValueError msg)) /\
  (exists msg,
     retried_to_the_end (delete "s3://bucket/key" empty_world) empty_world
       (ValueError msg)) /\
  (forall dest, exists msg,
     retried_to_the_end (move "s3://bucket/key" dest empty_world) empty_world
       (ValueError msg)) /\
  (forall source, exists msg,
     retried_to_the_end (move source "s3://bucket/key" empty_world) empty_world
       (ValueError msg)) /\
  (startswith "s3://bucket/key" "gs://" = false ->
   retried_to_the_end (list_contents "s3://bucket/key" empty_world) empty_world
     (ValueError ("Not a gs:// url: " ++ "s3://bucket/key"))).
Proof. apply (malformed_path_is_retried "s3://bucket/key" empty_world). reflexivity. Defined.

(** C3 (as claimed) fails: [get] on a path with another scheme is not
    rejected at once but attempted thirteen times with twelve sleeps in
    between, and [list_contents] on a path without a name succeeds. *)
Lemma malformed_path_not_rejected_at_once :
  well_formed_path "s3://bucket/key" = false /\
  (get "s3://bucket/key" empty_world).1 =
    inl (ValueError "Not a gs:// url: s3://bucket/key") /\
  failed_attempts (trace (get "s3://bucket/key" empty_world).2) = 13%nat /\
  sleeps (trace (get "s3://bucket/key" empty_world).2) =
    [2; 4; 8; 16; 32; 64; 128; 256; 512; 1024; 2048; 4096] /\
  well_formed_path "gs://bucket" = false /\
  (list_contents "gs://bucket" empty_world).1 = inr [].
Proof. vm_compute. repeat split; reflexivity. Qed.

(** ** Paths without a name *)

Lemma list_contents_body_bucket bucket w :
  partition "/" bucket = None ->
  list_contents_body ("gs://" ++ bucket) w =
  (inr (service.names_in (objects w) bucket ""),
   emit (EvRequest (ReqList bucket "")) w).
Proof.
  intros H. unfold list_contents_body.
  rewrite (bind_inr _ _ _ _ _ (split_bucket_and_name_bucket bucket w H)).
  reflexivity.
Qed.

Lemma split_unpack_bucket bucket w :
  partition "/" bucket = None ->
  (let* xs := split_bucket_and_name ("gs://" ++ bucket) in unpack2 xs) w =
  (inl (ValueError "not enough values to unpack (expected 2, got 1)"), w).
Proof.
  intros H.
  by rewrite (bind_inr _ _ _ _ _ (split_bucket_and_name_bucket bucket w H)).
Qed.

(** C10. On a path [gs://bucket] without a name, [list_contents] succeeds
    at the first attempt and lists the whole bucket under the empty prefix;
    [get], [put] and [delete] fail to unpack the one-part split into bucket
    and name, inside the retry wrapper, so that the failure is retried to
    the end before it reaches the caller. *)
Theorem bucket_only_path (bucket : string) (w : World)
    (Hbucket : partition "/" bucket = None) :
  list_contents ("gs://" ++ bucket) w =
    (inr (service.names_in (objects w) bucket ""),
     emit (EvRequest (ReqList bucket "")) w) /\
  (forall n, n ∈ service.names_in (objects w) bucket "" <->
             is_Some (objects w !! (bucket, n))) /\
  retried_to_the_end (get ("gs://" ++ bucket) w) w
    (ValueError "not enough values to unpack (expected 2, got 1)") /\
  (forall data readers owners mime_type,
     retried_to_the_end (put_with ("gs://" ++ bucket) data readers owners mime_type w) w
       (ValueError "not enough values to unpack (expected 2, got 1)")) /\
  retried_to_the_end (delete ("gs://" ++ bucket) w) w
    (ValueError "not enough values to unpack (expected 2, got 1)").
Proof.
  assert (Hsplit : forall {B} (k : string * string -> M B) w',
    (let* xs := split_bucket_and_name ("gs://" ++ bucket) in
     let* p := unpack2 xs in k p) w' =
    (inl (ValueError "not enough values to unpack (expected 2, got 1)"), w')).
  { intros B k w'.
    by rewrite (bind_inr _ _ _ _ _ (split_bucket_and_name_bucket bucket w' Hbucket)). }
  split_and!.
  - apply robustify_ok, list_contents_body_bucket, Hbucket.
  - intros n. rewrite elem_of_names_in, startswith_empty. tauto.
  - apply robustify_of_raise. intros w'. apply Hsplit.
  - intros. apply robustify_of_raise. intros w'. apply Hsplit.
  - apply robustify_of_raise. intros w'. apply Hsplit.
Qed.

Lemma bucket_only_path_witness :
  list_contents ("gs://" ++ "bucket") empty_world =
    (inr (service.names_in (objects empty_world) "bucket" ""),
     emit (EvRequest (ReqList "bucket" "")) empty_world) /\
  (forall n, n ∈ service.names_in (objects empty_world) "bucket" "" <->
             is_Some (objects empty_world !! ("bucket", n))) /\
  retried_to_the_end (get ("gs://" ++ "bucket") empty_world) empty_world
    (ValueError "not enough values to unpack (expected 2, got 1)") /\
  (forall data readers owners mime_type,
     retried_to_the_end
       (put_with ("gs://" ++ "bucket") data readers owners mime_type empty_world)
       empty_world
       (ValueError "not enough values to unpack (expected 2, got 1)")) /\
  retried_to_the_end (delete ("gs://" ++ "bucket") empty_world) empty_world
    (ValueError "not enough values to unpack (expected 2, got 1)").
Proof. apply (bucket_only_path "bucket" empty_world). reflexivity. Defined.

(** ** Storage operations on a well-formed path *)

Section well_formed.
Context (bucket name : string) (Hbucket : partition "/" bucket = None).

Lemma with_bucket_and_name {B} (h : string * string -> M B) w :
  (let* xs := split_bucket_and_name ("gs://" ++ bucket ++ "/" ++ name) in
   let* p := unpack2 xs in h p) w = h (bucket, name) w.
Proof.
  by rewrite (bind_inr _ _ _ _ _ (split_bucket_and_name_path bucket name w Hbucket)).
Qed.

Lemma list_contents_path w :
  list_contents ("gs://" ++ bucket ++ "/" ++ name) w =
  (inr (service.names_in (objects w) bucket name),
   emit (EvRequest (ReqList bucket name)) w).
Proof.
  apply robustify_ok. unfold list_contents_body.
  by rewrite (bind_inr _ _ _ _ _ (split_bucket_and_name_path bucket name w Hbucket)).
Qed.

Lemma get_present w o :
  objects w !! (bucket, name) = Some o ->
  get ("gs://" ++ bucket ++ "/" ++ name) w =
  (inr (obj_data o), emit (EvRequest (ReqGetMedia bucket name)) w).
Proof.
  intros Ho. apply robustify_ok. unfold get_body. rewrite with_bucket_and_name.
  unfold service.objects_get_media, bind, tell. cbn [objects emit]. by rewrite Ho.
Qed.

Lemma delete_present w o :
  objects w !! (bucket, name) = Some o ->
  delete ("gs://" ++ bucket ++ "/" ++ name) w =
  (inr tt,
   set_objects (base.delete (bucket, name) (objects w))
     (emit (EvRequest (ReqDelete bucket name)) w)).
Proof.
  intros Ho. apply robustify_ok. unfold delete_body. rewrite with_bucket_and_name.
  unfold service.objects_delete, bind, tell. cbn [objects emit]. by rewrite Ho.
Qed.

Lemma put_path data w :
  put ("gs://" ++ bucket ++ "/" ++ name) data w =
  (inr {| body_name := name; body_acl := None |},
   set_objects (<[(bucket, name) := object_of data]> (objects w))
     (emit (EvRequest (ReqInsert bucket {| body_name := name; body_acl := None |}
                         "application/octet-stream")) w)).
Proof.
  apply robustify_ok. unfold put_body. by rewrite with_bucket_and_name.
Qed.

End well_formed.

Lemma startswith_refl s : startswith s s = true.
Proof.
  unfold startswith. induction s as [|a s IH]; [done|]. simpl.
  destruct (ascii_dec a a); [assumption|congruence].
Qed.

(** Within one bucket, [move] copies the object under the new name and
    deletes the old one; when the names differ, listings no longer show
    the old name, they show the new one, and [get] returns the bytes. *)
Lemma move_within_bucket bucket name name' w o :
  partition "/" bucket = None ->
  objects w !! (bucket, name) = Some o ->
  move ("gs://" ++ bucket ++ "/" ++ name) ("gs://" ++ bucket ++ "/" ++ name') w =
  (inr tt,
   set_objects (base.delete (bucket, name) (<[(bucket, name') := o]> (objects w)))
     (emit (EvRequest (ReqDelete bucket name))
        (emit (EvRequest (ReqRewrite bucket name bucket name')) w))) /\
  (name <> name' ->
   let w' := (move ("gs://" ++ bucket ++ "/" ++ name)
                   ("gs://" ++ bucket ++ "/" ++ name') w).2 in
   (forall p, name ∉ service.names_in (objects w') bucket p) /\
   name' ∈ service.names_in (objects w') bucket name' /\
   (get ("gs://" ++ bucket ++ "/" ++ name') w').1 = inr (obj_data o)).
Proof.
  intros Hbucket Ho.
  assert (Hmove : move ("gs://" ++ bucket ++ "/" ++ name)
                       ("gs://" ++ bucket ++ "/" ++ name') w =
    (inr tt,
     set_objects (base.delete (bucket, name) (<[(bucket, name') := o]> (objects w)))
       (emit (EvRequest (ReqDelete bucket name))
          (emit (EvRequest (ReqRewrite bucket name bucket name')) w)))).
  { apply robustify_ok. unfold move_body.
    rewrite (with_bucket_and_name bucket name Hbucket).
    rewrite (bind_inr _ _ _ _ _
               (split_bucket_and_name_path bucket name' w Hbucket)).
    cbn [unpack2]. rewrite bind_ret_l.
    unfold service.objects_rewrite, service.objects_delete, bind, tell.
    cbn [objects emit set_objects]. rewrite Ho. cbn [objects emit set_objects].
    destruct (decide (name = name')) as [<-|Hne].
    - by rewrite lookup_insert_eq.
    - rewrite lookup_insert_ne by congruence. by rewrite Ho. }
  split; [exact Hmove|]. intros Hne. rewrite Hmove. cbn [snd].
  assert (Hnew : objects (set_objects
             (base.delete (bucket, name) (<[(bucket, name') := o]> (objects w)))
             (emit (EvRequest (ReqDelete bucket name))
                (emit (EvRequest (ReqRewrite bucket name bucket name')) w)))
           !! (bucket, name') = Some o).
  { cbn [objects set_objects].
    rewrite lookup_delete_ne by congruence. apply lookup_insert_eq. }
  split_and!.
  - intros p Hin. apply elem_of_names_in in Hin as [[? Hin] _].
    cbn [objects set_objects] in Hin. by rewrite lookup_delete_eq in Hin.
  - apply elem_of_names_in. split; [by rewrite Hnew|apply startswith_refl].
  - by rewrite (get_present bucket name' Hbucket _ o Hnew).
Qed.

(** C4, at a destination in another bucket. [move] puts the object into
    the bucket of the source, under the name of the destination: it leaves
    [gs://a/x], it is not listed at [gs://b/y] and cannot be read there,
    and it is found at [gs://a/y] instead. *)
Theorem move_to_another_bucket :
  let r := move "gs://a/x" "gs://b/y" world_a_x in
  r.1 = inr tt /\
  objects r.2 = {[ ("a", "y") := object_of hello ]} /\
  requests (trace r.2) = [ReqRewrite "a" "x" "a" "y"; ReqDelete "a" "x"] /\
  (list_contents "gs://b/y" r.2).1 = inr [] /\
  (get "gs://b/y" r.2).1 = inl (HttpError 404) /\
  (get "gs://a/y" r.2).1 = inr hello.
Proof. vm_compute. split_and!; reflexivity. Qed.

(** With the destination in the bucket of the source, the same call does
    what is asked. *)
Example move_in_the_same_bucket :
  let r := move "gs://a/x" "gs://a/y" world_a_x in
  r.1 = inr tt /\
  (list_contents "gs://a/x" r.2).1 = inr [] /\
  (list_contents "gs://a/y" r.2).1 = inr ["y"] /\
  (get "gs://a/y" r.2).1 = inr hello.
Proof. vm_compute. split_and!; reflexivity. Qed.

(** ** The local process backend *)

(** Called with the two paths, the backend starts the worker on them. *)
Lemma LocalProcessBackend_two_arguments delete_input task_input task_output w :
  submit_task (local_process_backend.LocalProcessBackend delete_input)
    [task_input; task_output] w =
  (inr (PopenHandle
          (local_process_backend.run_task_args task_input task_output delete_input)),
   emit (EvPopen (local_process_backend.run_task_args task_input task_output
                    delete_input))
     (emit (EvLog (LogRunning (local_process_backend.run_task_args
                                 task_input task_output delete_input))) w)).
Proof. reflexivity. Qed.

(** Called as [job.py] calls it, with the task name and the two paths, it
    raises [TypeError] and starts nothing. *)
Lemma LocalProcessBackend_three_arguments delete_input task_name task_input
    task_output w :
  submit_task (local_process_backend.LocalProcessBackend delete_input)
    [task_name; task_input; task_output] w =
  (inl (TypeError "submit_task() takes 3 positional arguments but 4 were given"), w).
Proof. reflexivity. Qed.

(** C2, for a job that runs on the local process backend. The first task
    is new; its input is uploaded and the backend is called with the task
    name and the two paths, which raises [TypeError]: no process is
    started, the task is not recorded as submitted, and [wait] ends with
    the exception. *)
Theorem local_process_backend_rejects_submission :
  let s := (example_job (local_process_backend.LocalProcessBackend true), empty_world) in
  let r := job.submit_one_task (N := example_naming) (Ser := example_serialization) None s in
  r.1 = inl (TypeError "submit_task() takes 3 positional arguments but 4 were given") /\
  popens (trace r.2.2) = [] /\
  requests (trace r.2.2) =
    [ReqList "bucket" "result::key";
     ReqInsert "bucket" {| body_name := "input::key::0"; body_acl := None |}
       "application/octet-stream"] /\
  job.submitted_tasks r.2.1 = [] /\
  job.tasks_iter r.2.1 = [1; 2; 3; 4]%nat /\
  (exists s', job.wait (N := example_naming) (Ser := example_serialization) 1 5 s =
     Some (inl (TypeError "submit_task() takes 3 positional arguments but 4 were given"),
           s')).
Proof. vm_compute. split_and!; try reflexivity. eexists. reflexivity. Qed.

(** ** Listing *)

Lemma list_contents_target url w :
  match listing_target url with
  | Some (bucket, file_name_prefix) =>
      list_contents url w =
      (inr (service.names_in (objects w) bucket file_name_prefix),
       emit (EvRequest (ReqList bucket file_name_prefix)) w)
  | None =>
      retried_to_the_end (list_contents url w) w
        (ValueError ("Not a gs:// url: " ++ url))
  end.
Proof.
  unfold listing_target. destruct (startswith url "gs://") eqn:Hgs.
  - assert (Hbody : forall b p,
      match partition "/" (string_drop (String.length "gs://") url) with
      | Some (bucket, file_name_prefix) => Some (bucket, file_name_prefix)
      | None => Some (string_drop (String.length "gs://") url, "")
      end = Some (b, p) ->
      list_contents_body url w = service.objects_list b p w).
    { intros b p Hp. unfold list_contents_body, bind, split_bucket_and_name.
      rewrite Hgs. cbn [negb]. unfold ret, split1.
      destruct (partition _ _) as [[a c]|]; injection Hp as <- <-; reflexivity. }
    destruct (match partition _ _ with Some _ => _ | None => _ end) as [[b p]|] eqn:Hp.
    + apply robustify_ok. by rewrite (Hbody b p).
    + by destruct (partition _ _) as [[? ?]|].
  - apply robustify_of_raise. by apply list_contents_body_not_gs.
Qed.

Lemma listing_target_path bucket name :
  partition "/" bucket = None ->
  listing_target ("gs://" ++ bucket ++ "/" ++ name) = Some (bucket, name).
Proof.
  intros H. unfold listing_target. rewrite startswith_app, string_drop_app.
  change ("/" ++ name) with (String "/" name).
  by rewrite (partition_app_sep _ _ _ H).
Qed.

(** ** Job methods *)

Section job_facts.
Context {Task Value : Type} {N : Naming} {Ser : Serialization Task Value}.
Import job.

Lemma keeps_job_io {A} (c : M A) : keeps_job (Task := Task) (io c).
Proof. intros j w. unfold io. cbn [fst snd]. by destruct (c w). Qed.

Lemma keeps_job_ret {A} (a : A) : keeps_job (Task := Task) (ret a).
Proof. done. Qed.

Lemma keeps_job_raise {A} e : keeps_job (Task := Task) (raise (A := A) e).
Proof. done. Qed.

Lemma keeps_job_self : keeps_job (Task := Task) self.
Proof. done. Qed.

Lemma keeps_job_bind {A B} (c : J A) (k : A -> J B) :
  keeps_job c -> (forall a, keeps_job (k a)) -> keeps_job (Task := Task) (bind c k).
Proof.
  intros Hc Hk j w. unfold bind. specialize (Hc j w).
  destruct (c (j, w)) as [[e|a] [j' w']]; cbn [fst snd] in *; subst; [done|apply Hk].
Qed.

Lemma keeps_job_get_completed_tasks : keeps_job (Task := Task) get_completed_tasks.
Proof.
  unfold get_completed_tasks.
  repeat first [apply keeps_job_io | apply keeps_job_ret | apply keeps_job_self
               | apply keeps_job_bind; [|intros ?]].
Qed.

Lemma keeps_job_get_running_tasks c : keeps_job (Task := Task) (get_running_tasks c).
Proof.
  unfold get_running_tasks.
  apply keeps_job_bind; [|intros ?].
  - destruct c; [apply keeps_job_ret|apply keeps_job_get_completed_tasks].
  - apply keeps_job_bind; [apply keeps_job_self|intros ?; apply keeps_job_ret].
Qed.

Lemma keeps_job_status_dict : keeps_job (Task := Task) status_dict.
Proof.
  unfold status_dict.
  repeat first [apply keeps_job_get_completed_tasks | apply keeps_job_get_running_tasks
               | apply keeps_job_ret | apply keeps_job_self
               | apply keeps_job_bind; [|intros ?]].
Qed.

Lemma submit_one_task_spec c j w r j' w' :
  submit_one_task c (j, w) = (r, (j', w')) ->
  match tasks_iter j with
  | [] => r = inr false /\ j' = j /\ w' = w
  | task :: rest =>
      let task_name := make_task_name (cache_key j) (length (submitted_tasks j)) in
      match r with
      | inr b =>
          b = true /\
          (j' = append_submitted task_name (append_reused task_name (set_tasks_iter rest j)) \/
           j' = append_submitted task_name (set_tasks_iter rest j))
      | inl e => j' = set_tasks_iter rest j
      end
  end.
Proof.
  unfold submit_one_task. unfold bind at 1. unfold next_task. cbn [fst snd].
  destruct (tasks_iter j) as [|task rest] eqn:Hiter.
  - intros [= <- <- <-]. done.
  - set (j1 := set_tasks_iter rest j).
    unfold bind at 1.
    match goal with |- context [match ?m (j1, w) with _ => _ end] =>
      assert (Hc : keeps_job (Task := Task) m);
      [destruct c; [apply keeps_job_ret|apply keeps_job_get_completed_tasks]|];
      specialize (Hc j1 w);
      destruct (m (j1, w)) as [[e|completed] [j2 w2]] end;
      cbn [fst snd] in Hc; subst j2.
    { intros [= <- <- <-]. done. }
    unfold bind at 1. unfold self at 1. cbn [fst snd].
    change (cache_key j1) with (cache_key j).
    change (submitted_tasks j1) with (submitted_tasks j).
    set (task_name := make_task_name (cache_key j) (length (submitted_tasks j))).
    destruct (decide (task_name ∈ completed)) as [Hin|Hnin].
    + intros [= <- <- <-]. split; [done|]. by left.
    + unfold bind at 1.
      match goal with |- context [match ?m (j1, w2) with _ => _ end] =>
        assert (Hb : keeps_job (Task := Task) m) end.
      { repeat first [apply keeps_job_io | apply keeps_job_status_dict
                     | apply keeps_job_bind; [|intros ?]]. }
      specialize (Hb j1 w2).
      match goal with |- context [match ?m (j1, w2) with _ => _ end] =>
        destruct (m (j1, w2)) as [[e|u] [j3 w3]] end; cbn [fst snd] in Hb; subst j3.
      * intros [= <- <- <-]. done.
      * intros [= <- <- <-]. split; [done|]. by right.
Qed.

End job_facts.

(** ** The example naming scheme *)

Lemma startswith_app_l p q x : startswith x (p ++ q) = true -> startswith x p = true.
Proof.
  unfold startswith. revert x. induction p as [|a p IH]; intros x; [by destruct x|].
  destruct x as [|b x]; [done|].
  change (String a p ++ q) with (String a (p ++ q)). cbn.
  destruct (ascii_dec a b); [apply IH|done].
Qed.

Lemma startswith_drop p x :
  startswith x p = true -> p ++ string_drop (String.length p) x = x.
Proof.
  unfold startswith. revert x. induction p as [|a p IH]; intros x; [by destruct x|].
  destruct x as [|b x]; [done|]. cbn [String.prefix String.length string_drop].
  change (String a p ++ string_drop (String.length p) x)
    with (String a (p ++ string_drop (String.length p) x)).
  destruct (ascii_dec a b) as [->|]; [|done].
  intros H. by rewrite IH.
Qed.

Lemma example_naming_laws : NamingLaws example_naming.
Proof.
  split.
  - intros k i j H. cbn in H.
    apply (inj (String.app k)) in H. apply (inj (String.app "::")) in H.
    by apply (inj pretty) in H.
  - intros t. reflexivity.
  - intros k i. apply (startswith_app ("result::" ++ k)).
  - intros k x H. apply (startswith_app_l "result::" k) in H.
    apply (startswith_drop "result::" x H).
Qed.

(** ** Task indices *)

Section pull_order.
Context {Task Value : Type} {N : Naming} {Ser : Serialization Task Value}.
Import job.

Lemma pulled_invariant n (s s' : Job Task * World) :
  pulled n s s' ->
  cache_key s'.1 = cache_key s.1 /\
  submitted_tasks s'.1 =
    (submitted_tasks s.1 ++
     map (fun i => make_task_name (cache_key s.1) (length (submitted_tasks s.1) + i))
       (seq 0 n))%list /\
  tasks_iter s'.1 = drop n (tasks_iter s.1) /\
  (n <= length (tasks_iter s.1))%nat.
Proof.
  induction 1 as [s|n s s1 c w [j2 w2] _ IH Hcall].
  - cbn [seq map]. rewrite app_nil_r, drop_0. split_and!; [done..|lia].
  - destruct IH as (Hkey & Hsub & Hiter & Hn).
    apply submit_one_task_spec in Hcall. cbn [fst snd].
    destruct (tasks_iter s1.1) as [|task rest] eqn:Hs1; [by destruct Hcall|].
    cbn zeta in Hcall. destruct Hcall as [_ Hj2].
    assert (Hfields : cache_key j2 = cache_key s1.1 /\
              submitted_tasks j2 =
                (submitted_tasks s1.1 ++
                 [make_task_name (cache_key s1.1) (length (submitted_tasks s1.1))])%list /\
              tasks_iter j2 = rest).
    { by destruct Hj2 as [-> | ->]. }
    destruct Hfields as (Hk2 & Hs2 & Hi2).
    assert (Hlen : (n < length (tasks_iter s.1))%nat).
    { destruct (decide (n < length (tasks_iter s.1))%nat) as [|Hge]; [done|].
      rewrite drop_ge in Hiter by lia. done. }
    split_and!.
    + congruence.
    + rewrite Hs2, Hsub, Hkey, seq_S, map_app, app_assoc. cbn [map].
      do 3 f_equal. rewrite length_app, length_map, length_seq. lia.
    + rewrite Hi2. replace (S n) with (n + 1)%nat by lia.
      rewrite <- drop_drop, <- Hiter. reflexivity.
    + lia.
Qed.

(** C9. In a run of calls of [submit_one_task] that start from a job
    with nothing submitted, the task pulled by call number [i + 1] takes
    index [i], whether it is reused or new: after [n] calls the submitted
    names are those of the indices [0 .. n - 1] in this order, the first
    [n] tasks of the source have been pulled, and under the naming laws no
    name occurs twice. *)
Theorem task_indices_follow_pull_order n (s s' : Job Task * World)
    (Hfresh : submitted_tasks s.1 = []) (Hrun : pulled n s s') :
  submitted_tasks s'.1 = map (make_task_name (cache_key s.1)) (seq 0 n) /\
  tasks_iter s'.1 = drop n (tasks_iter s.1) /\
  (n <= length (tasks_iter s.1))%nat /\
  (NamingLaws N -> NoDup (submitted_tasks s'.1)).
Proof.
  destruct (pulled_invariant n s s' Hrun) as (_ & Hsub & Hiter & Hn).
  rewrite Hfresh in Hsub. cbn [app length Nat.add] in Hsub.
  split_and!; try done.
  intros Hlaws. rewrite Hsub. apply NoDup_fmap_2; [|apply NoDup_seq].
  intros i j. apply make_task_name_inj.
Qed.

End pull_order.

Lemma task_indices_follow_pull_order_witness :
  job.submitted_tasks pulled_twice.1 =
    map (make_task_name (Naming := example_naming)
           (job.cache_key (example_job doubling_backend))) (seq 0 2) /\
  job.tasks_iter pulled_twice.1 = drop 2 (job.tasks_iter (example_job doubling_backend)) /\
  (2 <= length (job.tasks_iter (example_job doubling_backend)))%nat /\
  (NamingLaws example_naming -> NoDup (job.submitted_tasks pulled_twice.1)).
Proof.
  apply (task_indices_follow_pull_order (N := example_naming)
           (Ser := example_serialization) 2
           (example_job doubling_backend, empty_world) pulled_twice).
  - reflexivity.
  - apply (pulled_next (N := example_naming) (Ser := example_serialization) 1
             (example_job doubling_backend, empty_world) pulled_once
             (Some {[ "key::1" ]}) empty_world).
    + apply (pulled_next (N := example_naming) (Ser := example_serialization) 0
               (example_job doubling_backend, empty_world)
               (example_job doubling_backend, empty_world) (Some ∅) empty_world).
      * apply pulled_none.
      * reflexivity.
    + reflexivity.
Defined.

(** ** Results *)

Section results_facts.
Context {Task Value : Type} {N : Naming} {Ser : Serialization Task Value}.
Import job.

Lemma storage_path_bucket (j : Job Task) bucket filename :
  in_bucket j bucket ->
  storage_path j filename = "gs://" ++ bucket ++ "/" ++ filename.
Proof. intros [H _]. unfold storage_path. rewrite H. reflexivity. Qed.

Lemma result_listing_bucket (j : Job Task) bucket :
  in_bucket j bucket ->
  result_listing j = Some (bucket, task_result_prefix (cache_key j)).
Proof.
  intros H. unfold result_listing. rewrite (storage_path_bucket j bucket _ H).
  apply listing_target_path, H.
Qed.

Lemma get_completed_tasks_run (j : Job Task) w bucket file_name_prefix :
  result_listing j = Some (bucket, file_name_prefix) ->
  get_completed_tasks (j, w) =
  (inr (completed_now j w),
   (j, emit (EvRequest (ReqList bucket file_name_prefix)) w)).
Proof.
  intros H. unfold get_completed_tasks, completed_now. rewrite H.
  unfold bind, self, io. cbn [fst snd].
  pose proof (list_contents_target
                (storage_path j (task_result_prefix (cache_key j))) w) as Hl.
  unfold result_listing in H. rewrite H in Hl.
  unfold storage.list_contents. rewrite Hl. reflexivity.
Qed.

Lemma get_running_tasks_given (j : Job Task) w c :
  get_running_tasks (Some c) (j, w) = (inr (list_to_set (submitted_tasks j) ∖ c), (j, w)).
Proof. reflexivity. Qed.

Lemma get_running_tasks_run (j : Job Task) w bucket file_name_prefix :
  result_listing j = Some (bucket, file_name_prefix) ->
  get_running_tasks None (j, w) =
  (inr (running_now j w),
   (j, emit (EvRequest (ReqList bucket file_name_prefix)) w)).
Proof.
  intros H. unfold get_running_tasks.
  rewrite (bind_inr _ _ _ _ _ (get_completed_tasks_run j w _ _ H)).
  reflexivity.
Qed.

Lemma elem_of_completed_now (j : Job Task) w bucket file_name_prefix t :
  result_listing j = Some (bucket, file_name_prefix) ->
  t ∈ completed_now j w <->
  exists x, is_Some (objects w !! (bucket, x)) /\
            startswith x file_name_prefix = true /\
            task_name_from_result_name x = t.
Proof.
  intros H. unfold completed_now. rewrite H.
  rewrite elem_of_list_to_set, list_elem_of_fmap. split.
  - intros (x & -> & [Hs Hp]%elem_of_names_in). eauto.
  - intros (x & Hx & Hp & <-). exists x. split; [done|].
    by apply elem_of_names_in.
Qed.

(** A task of the job whose result object is in the store is completed. *)
Lemma completed_now_present `{!NamingLaws N} (j : Job Task) w bucket i :
  in_bucket j bucket ->
  is_Some (objects w !! (bucket, task_result_name (make_task_name (cache_key j) i))) ->
  make_task_name (cache_key j) i ∈ completed_now j w.
Proof.
  intros Hb Hsome.
  apply (elem_of_completed_now j w _ _ _ (result_listing_bucket j bucket Hb)).
  eexists. split_and!; [exact Hsome|apply result_prefix_covers|apply result_name_round_trip].
Qed.

(** A completed task has its result object in the store. *)
Lemma completed_now_stored `{!NamingLaws N} (j : Job Task) w bucket t :
  in_bucket j bucket ->
  t ∈ completed_now j w ->
  is_Some (objects w !! (bucket, task_result_name t)).
Proof.
  intros Hb Hin.
  apply (elem_of_completed_now j w _ _ _ (result_listing_bucket j bucket Hb)) in Hin
    as (x & Hx & Hp & <-).
  by rewrite (result_prefix_exact _ _ Hp).
Qed.


Lemma io_inr {A} (c : M A) (j : Job Task) w a w' :
  c w = (inr a, w') -> io c (j, w) = (inr a, (j, w')).
Proof. intros H. unfold io. cbn [fst snd]. by rewrite H. Qed.

Lemma task_result_name_inj `{!NamingLaws N} t t' :
  task_result_name t = task_result_name t' -> t = t'.
Proof.
  intros H. rewrite <- (result_name_round_trip t), <- (result_name_round_trip t').
  by rewrite H.
Qed.



End results_facts.


(** The naming that reads unknown names as results of the first task
    satisfies the laws. *)
Lemma guessing_naming_laws : NamingLaws guessing_naming.
Proof.
  split.
  - intros k i j H. cbn in H.
    apply (inj (String.app k)) in H. apply (inj (String.app "::")) in H.
    by apply (inj pretty) in H.
  - intros t. cbn [task_name_from_result_name task_result_name guessing_naming].
    rewrite startswith_app. apply (string_drop_app "result::" t).
  - intros k i. apply (startswith_app ("result::" ++ k)).
  - intros k x H. apply (startswith_app_l "result::" k) in H.
    cbn [task_name_from_result_name task_result_name guessing_naming].
    rewrite H. apply (startswith_drop "result::" x H).
Qed.




(** The scenario of section 8: five tasks, two at a time, on a backend
    that doubles its input at once. All five are submitted in pull order,
    none is reused, and the results come back in that order. *)
Example scenario_of_five_tasks :
  match job.wait (N := example_naming) (Ser := example_serialization) 20 5
          (example_job doubling_backend, empty_world) with
  | Some (inr tt, s) =>
      job.submitted_tasks s.1 = ["key::0"; "key::1"; "key::2"; "key::3"; "key::4"] /\
      job.reused_tasks s.1 = [] /\
      (job.results (N := example_naming) (Ser := example_serialization) s).1 =
        inr [0; 2; 4; 6; 8]%nat
  | _ => False
  end.
Proof. vm_compute. split_and!; reflexivity. Qed.

(** ** Reuse of existing results *)

Section reuse_facts.
Context {Task Value : Type} {N : Naming} {Ser : Serialization Task Value}.
Import job.




Lemma submit_one_task_reused (j : Job Task) w c task rest :
  tasks_iter j = task :: rest ->
  make_task_name (cache_key j) (length (submitted_tasks j)) ∈ c ->
  submit_one_task (Some c) (j, w) =
  (inr true,
   (append_submitted (make_task_name (cache_key j) (length (submitted_tasks j)))
      (append_reused (make_task_name (cache_key j) (length (submitted_tasks j)))
         (set_tasks_iter rest j)),
    emit (EvLog (LogUsingExisting
                   (storage_path j
                      (task_result_name
                         (make_task_name (cache_key j) (length (submitted_tasks j)))))))
      w)).
Proof.
  intros Hiter Hin. unfold submit_one_task, bind at 1, next_task. cbn [fst snd].
  rewrite Hiter. rewrite bind_ret_l. unfold bind at 1, self at 1. cbn [fst snd].
  change (cache_key (set_tasks_iter rest j)) with (cache_key j).
  change (submitted_tasks (set_tasks_iter rest j)) with (submitted_tasks j).
  rewrite decide_True by done. reflexivity.
Qed.

Lemma submit_one_task_exhausted (j : Job Task) w c :
  tasks_iter j = [] -> submit_one_task c (j, w) = (inr false, (j, w)).
Proof.
  intros Hiter. unfold submit_one_task, bind at 1, next_task. cbn [fst snd].
  by rewrite Hiter.
Qed.




Section second_run.
Context `{!NamingLaws N} (j : Job Task) (w0 : World) (bucket : string) (poll_seconds : Z).
Context (Hbucket : in_bucket j bucket) (Hmax : (1 <= max_simultaneous_tasks j)%Z).
Context (Hstored : forall i, (i < length (tasks_iter j))%nat ->
  is_Some (objects w0 !! (bucket, task_result_name (make_task_name (cache_key j) i)))).






End second_run.



End reuse_facts.



(** ** The bound on the running tasks *)

Section run_facts.
Context {Task Value : Type} {N : Naming} {Ser : Serialization Task Value}.
Import job.

Lemma objects_kept_refl w : objects_kept w w.
Proof. by intros k. Qed.

Lemma objects_kept_trans w1 w2 w3 :
  objects_kept w1 w2 -> objects_kept w2 w3 -> objects_kept w1 w3.
Proof. intros H1 H2 k Hk. auto. Qed.

Lemma objects_kept_eq w w' : objects w' = objects w -> objects_kept w w'.
Proof. intros H k. by rewrite H. Qed.

Lemma objects_kept_emit e w : objects_kept w (emit e w).
Proof. by apply objects_kept_eq. Qed.

Lemma results_kept_refl (j : Job Task) w : results_kept j w w.
Proof. by intros b p x _ _. Qed.

Lemma results_kept_trans (j : Job Task) w1 w2 w3 :
  results_kept j w1 w2 -> results_kept j w2 w3 -> results_kept j w1 w3.
Proof. intros H1 H2 b p x Hl Hp Hx. eauto. Qed.

Lemma objects_kept_results (j : Job Task) w w' :
  objects_kept w w' -> results_kept j w w'.
Proof. intros H b p x _ _. apply H. Qed.

Lemma keeps_objects_ret {A} (a : A) : keeps_objects (ret a).
Proof. intros w. apply objects_kept_refl. Qed.

Lemma keeps_objects_raise {A} e : keeps_objects (raise (A := A) e).
Proof. intros w. apply objects_kept_refl. Qed.

Lemma keeps_objects_tell e : keeps_objects (tell e).
Proof. intros w. apply objects_kept_emit. Qed.

Lemma keeps_objects_bind {A B} (c : M A) (k : A -> M B) :
  keeps_objects c -> (forall a, keeps_objects (k a)) -> keeps_objects (bind c k).
Proof.
  intros Hc Hk w. unfold bind. specialize (Hc w).
  destruct (c w) as [[e|a] w1]; [done|].
  eapply objects_kept_trans; [exact Hc|apply Hk].
Qed.

Lemma keeps_objects_robust_loop {A} name (f : M A) (m : nat) :
  keeps_objects f -> forall error_num w,
  Z.to_nat (RETRIES_BEFORE_FAILURE + 1 - error_num) = m ->
  objects_kept w (robust_loop name f error_num w).2.
Proof.
  intros Hf. induction m as [|m IH]; intros error_num w Hm;
    rewrite (robust_loop_eq name f error_num w); pose proof (Hf w) as Hfw;
    destruct (f w) as [[e|v] w1]; cbn [snd] in *; try done; cbv zeta.
  - replace (error_num + 1 >? RETRIES_BEFORE_FAILURE)%Z with true
      by (symmetry; apply Z.gtb_gt; lia).
    eapply objects_kept_trans; [exact Hfw|apply objects_kept_emit].
  - destruct (error_num + 1 >? RETRIES_BEFORE_FAILURE)%Z eqn:Hgt.
    + eapply objects_kept_trans; [exact Hfw|apply objects_kept_emit].
    + eapply objects_kept_trans; [exact Hfw|].
      eapply objects_kept_trans; [|apply IH].
      * do 3 (eapply objects_kept_trans; [apply objects_kept_emit|]).
        apply objects_kept_refl.
      * rewrite Z.gtb_ltb in Hgt. apply Z.ltb_ge in Hgt. lia.
Qed.

Lemma keeps_objects_robustify {A} name (f : M A) :
  keeps_objects f -> keeps_objects (robustify name f).
Proof. intros Hf w. by eapply keeps_objects_robust_loop. Qed.

Lemma keeps_objects_split url : keeps_objects (split_bucket_and_name url).
Proof. intros w. rewrite split_bucket_and_name_pure. apply objects_kept_refl. Qed.

Lemma keeps_objects_unpack2 xs : keeps_objects (unpack2 xs).
Proof.
  destruct xs as [|a [|b [|c xs]]]; first [apply keeps_objects_ret|apply keeps_objects_raise].
Qed.

Lemma keeps_objects_list_contents url : keeps_objects (storage.list_contents url).
Proof.
  intros w. pose proof (list_contents_target url w) as H.
  unfold storage.list_contents.
  destruct (listing_target url) as [[b p]|].
  - rewrite H. apply objects_kept_emit.
  - destruct H as (_ & _ & _ & _ & Ho). by apply objects_kept_eq.
Qed.

Lemma keeps_objects_put url data : keeps_objects (storage.put url data).
Proof.
  apply keeps_objects_robustify. unfold put_body.
  apply keeps_objects_bind; [apply keeps_objects_split|intros xs].
  apply keeps_objects_bind; [apply keeps_objects_unpack2|intros [b n]].
  unfold service.objects_insert.
  apply keeps_objects_bind; [apply keeps_objects_tell|intros _].
  intros w k Hk. cbn [snd objects set_objects].
  destruct (decide ((b, n) = k)) as [<-|Hne].
  - by rewrite lookup_insert_eq.
  - by rewrite lookup_insert_ne.
Qed.

Section steady.
Context (j0 : Job Task).

Lemma steady_io {A} (c : M A) : keeps_objects c -> steady j0 (io c).
Proof.
  intros Hc j w Hcfg. unfold io. cbn [fst snd]. specialize (Hc w).
  destruct (c w). split; [done|]. by apply objects_kept_results.
Qed.

Lemma steady_ret {A} (a : A) : steady j0 (ret a).
Proof. intros j w Hcfg. split; [done|apply results_kept_refl]. Qed.

Lemma steady_raise {A} e : steady j0 (raise (A := A) e).
Proof. intros j w Hcfg. split; [done|apply results_kept_refl]. Qed.

Lemma steady_update_self f :
  (forall j, same_config j0 j -> same_config j0 (f j)) -> steady j0 (update_self f).
Proof. intros Hf j w Hcfg. split; [by apply Hf|apply results_kept_refl]. Qed.

Lemma steady_bind {A B} (c : J A) (k : A -> J B) :
  steady j0 c -> (forall a, steady j0 (k a)) -> steady j0 (bind c k).
Proof.
  intros Hc Hk j w Hcfg. unfold bind. destruct (Hc j w Hcfg) as [H1 H2].
  destruct (c (j, w)) as [[e|a] [j1 w1]]; cbn [fst snd] in *; [done|].
  destruct (Hk a j1 w1 H1) as [H3 H4]. split; [done|].
  by eapply results_kept_trans.
Qed.

Lemma steady_bind_self {B} (k : Job Task -> J B) :
  (forall j, same_config j0 j -> steady j0 (k j)) -> steady j0 (bind self k).
Proof. intros Hk j w Hcfg. by apply Hk. Qed.

Lemma steady_get_completed_tasks : steady j0 get_completed_tasks.
Proof.
  unfold get_completed_tasks. apply steady_bind_self. intros j _.
  apply steady_bind; [|intros ?; apply steady_ret].
  apply steady_io, keeps_objects_list_contents.
Qed.

Lemma steady_get_running_tasks c : steady j0 (get_running_tasks c).
Proof.
  unfold get_running_tasks. apply steady_bind.
  - destruct c; [apply steady_ret|apply steady_get_completed_tasks].
  - intros ?. apply steady_bind_self. intros j _. apply steady_ret.
Qed.

Lemma steady_status_dict : steady j0 status_dict.
Proof.
  unfold status_dict.
  apply steady_bind; [apply steady_get_completed_tasks|intros ?].
  apply steady_bind; [apply steady_get_running_tasks|intros ?].
  apply steady_bind_self. intros j _. apply steady_ret.
Qed.

Lemma steady_next_task : steady j0 next_task.
Proof.
  intros j w Hcfg. unfold next_task. cbn [fst snd].
  destruct (tasks_iter j); (split; [done|apply results_kept_refl]).
Qed.

Lemma steady_submit_one_task c :
  backend_keeps_results j0 -> steady j0 (submit_one_task c).
Proof.
  intros Hbackend. unfold submit_one_task.
  apply steady_bind; [apply steady_next_task|intros [task|]]; [|apply steady_ret].
  apply steady_bind.
  { destruct c; [apply steady_ret|apply steady_get_completed_tasks]. }
  intros completed. apply steady_bind_self. intros j Hcfg.
  apply steady_bind; [|intros _; apply steady_bind; [|intros _; apply steady_ret]].
  - destruct (decide _).
    + apply steady_bind; [apply steady_io, keeps_objects_tell|intros _].
      by apply steady_update_self.
    + apply steady_bind; [apply steady_io, keeps_objects_tell|intros _].
      apply steady_bind; [apply steady_io, keeps_objects_put|intros _].
      apply steady_bind.
      { intros j1 w1 Hcfg1. unfold io. cbn [fst snd].
        pose proof (Hbackend (length (submitted_tasks j)) w1) as Hcall.
        cbv zeta in Hcall. unfold storage_path in *.
        destruct Hcfg as (-> & _ & -> & ->).
        by destruct (submit_task _ _ w1). }
      intros _. apply steady_bind; [apply steady_status_dict|intros d].
      apply steady_io, keeps_objects_tell.
  - by apply steady_update_self.
Qed.

Lemma steady_drain_poll poll_seconds : steady j0 (drain_poll poll_seconds).
Proof.
  unfold drain_poll.
  apply steady_bind; [apply steady_status_dict|intros d].
  apply steady_bind; [apply steady_io, keeps_objects_tell|intros _].
  apply steady_bind; [apply steady_get_running_tasks|intros r].
  destruct (decide _); [apply steady_ret|].
  apply steady_bind; [apply steady_io, keeps_objects_tell|intros _].
  apply steady_bind; [apply steady_io, keeps_objects_tell|intros _].
  apply steady_ret.
Qed.

End steady.

Lemma same_config_refl (j : Job Task) : same_config j j.
Proof. done. Qed.

Lemma result_listing_config (j j' : Job Task) :
  same_config j j' -> result_listing j' = result_listing j.
Proof.
  intros (_ & _ & Hp & Hk). unfold result_listing, storage_path. by rewrite Hp, Hk.
Qed.

Lemma completed_now_mono (j j' : Job Task) w w' :
  same_config j j' -> objects_kept w w' ->
  completed_now j w ⊆ completed_now j' w'.
Proof.
  intros Hcfg Hkept t. unfold completed_now.
  rewrite (result_listing_config j j' Hcfg).
  destruct (result_listing j) as [[b p]|]; [|done].
  rewrite !elem_of_list_to_set, !list_elem_of_fmap.
  intros (x & -> & [Hs Hp]%elem_of_names_in). exists x. split; [done|].
  apply elem_of_names_in. split; [by apply Hkept|done].
Qed.

Lemma completed_now_kept (j0 j j' : Job Task) w w' :
  same_config j0 j -> same_config j0 j' -> results_kept j0 w w' ->
  completed_now j w ⊆ completed_now j' w'.
Proof.
  intros Hcfg Hcfg' Hkept t. unfold completed_now.
  rewrite (result_listing_config j0 j Hcfg), (result_listing_config j0 j' Hcfg').
  destruct (result_listing j0) as [[b p]|] eqn:Hl; [|done].
  rewrite !elem_of_list_to_set, !list_elem_of_fmap.
  intros (x & -> & [Hs Hp]%elem_of_names_in). exists x. split; [done|].
  apply elem_of_names_in. split; [by apply (Hkept b p x)|done].
Qed.

Lemma difference_mono_r_gset (X C C' : gset string) : C ⊆ C' -> X ∖ C' ⊆ X ∖ C.
Proof.
  intros H t [H1 H2]%elem_of_difference. apply elem_of_difference.
  split; [done|]. intros Hc. by apply H2, H.
Qed.

Lemma running_now_mono (j : Job Task) w w' :
  objects_kept w w' -> running_now j w' ⊆ running_now j w.
Proof.
  intros Hkept. unfold running_now.
  apply difference_mono_r_gset, (completed_now_mono j j w w' (same_config_refl j) Hkept).
Qed.

Lemma running_now_kept (j0 j : Job Task) w w' :
  same_config j0 j -> results_kept j0 w w' -> running_now j w' ⊆ running_now j w.
Proof.
  intros Hcfg Hkept. unfold running_now.
  apply difference_mono_r_gset, (completed_now_kept j0 j j w w' Hcfg Hcfg Hkept).
Qed.

Lemma results_kept_config (j j' : Job Task) w w' :
  same_config j j' -> results_kept j' w w' -> results_kept j w w'.
Proof.
  intros Hcfg Hkept b p x Hl. apply Hkept.
  by rewrite (result_listing_config j j' Hcfg).
Qed.

(** A listing that returns is the listing of the store as it is. *)
Lemma get_completed_tasks_inr (j : Job Task) w c s1 :
  get_completed_tasks (j, w) = (inr c, s1) ->
  c = completed_now j w /\ s1.1 = j /\ objects s1.2 = objects w /\
  is_Some (result_listing j).
Proof.
  destruct (result_listing j) as [[b p]|] eqn:Hl.
  - rewrite (get_completed_tasks_run j w b p Hl). by intros [= <- <-].
  - unfold get_completed_tasks, bind, self, io. cbn [fst snd].
    pose proof (list_contents_target
                  (storage_path j (task_result_prefix (cache_key j))) w) as Ht.
    unfold result_listing in Hl. rewrite Hl in Ht. destruct Ht as [Ht _].
    unfold storage.list_contents.
    destruct (list_contents _ w) as [r w1]. cbn [fst] in Ht. by subst r.
Qed.

Lemma size_running_append (submitted : list string) (t : string) (c : gset string) :
  (size (list_to_set (submitted ++ [t]) ∖ c : gset string)
   <= size (list_to_set submitted ∖ c : gset string) + 1)%nat.
Proof.
  rewrite list_to_set_app_L. cbn [list_to_set].
  destruct (decide (t ∈ (list_to_set submitted ∖ c : gset string))) as [Hin|Hnin].
  - apply Nat.le_trans with (size (list_to_set submitted ∖ c : gset string)); [|lia].
    apply subseteq_size. intros x [Hx Hc]%elem_of_difference.
    apply elem_of_union in Hx as [Hx|Hx].
    + by apply elem_of_difference.
    + apply elem_of_union in Hx as [->%elem_of_singleton|Hx]; [done|].
      by apply not_elem_of_empty in Hx.
  - apply Nat.le_trans with
      (size ((list_to_set submitted ∖ c : gset string) ∪ {[t]})).
    + apply subseteq_size. intros x [Hx Hc]%elem_of_difference.
      apply elem_of_union in Hx as [Hx|Hx].
      * apply elem_of_union. left. by apply elem_of_difference.
      * apply elem_of_union in Hx as [Hx|Hx]; [|by apply not_elem_of_empty in Hx].
        apply elem_of_union. by right.
    + rewrite size_union; [by rewrite size_singleton|].
      intros x Hx ->%elem_of_singleton. done.
Qed.

Lemma keeps_job_drain_poll poll_seconds :
  keeps_job (Task := Task) (drain_poll poll_seconds).
Proof.
  unfold drain_poll.
  apply keeps_job_bind; [apply keeps_job_status_dict|intros d].
  apply keeps_job_bind; [apply keeps_job_io|intros _].
  apply keeps_job_bind; [apply keeps_job_get_running_tasks|intros r].
  destruct (decide _); [apply keeps_job_ret|].
  repeat first [apply keeps_job_io | apply keeps_job_ret
               | apply keeps_job_bind; [|intros ?]].
Qed.

Lemma bounded_running (j0 : Job Task) c :
  bounded j0 c ->
  (Z.of_nat (size (running_now c.2.1 c.2.2)) <= max_simultaneous_tasks j0)%Z.
Proof.
  destruct c as [ph [j w]]. intros [_ Hph]. cbn [fst snd] in *.
  destruct ph as [|n c| |]; try done.
  destruct Hph as [Hc Hsize].
  assert (size (running_now j w)
          <= size (list_to_set (submitted_tasks j) ∖ c : gset string))%nat; [|lia].
  apply subseteq_size. unfold running_now. by apply difference_mono_r_gset.
Qed.

Lemma bounded_init (j0 : Job Task) w0 :
  (0 <= max_simultaneous_tasks j0)%Z -> submitted_tasks j0 = [] ->
  bounded j0 (Polling, (j0, w0)).
Proof.
  intros Hmax Hfresh. split; [done|]. cbn [fst snd]. unfold running_now.
  rewrite Hfresh. cbn [list_to_set].
  replace (∅ ∖ completed_now j0 w0) with (∅ : gset string); [by rewrite size_empty|].
  apply set_eq. intros t. split; [by intros ?%not_elem_of_empty|].
  by intros [?%not_elem_of_empty _]%elem_of_difference.
Qed.

Section run.
Context (poll_seconds : Z) (j0 : Job Task).
Context (Hbackend : backend_keeps_results j0).

Lemma bounded_step c c' :
  bounded j0 c -> step poll_seconds c c' -> bounded j0 c'.
Proof.
  intros Hb Hstep. pose proof (bounded_running j0 c Hb) as Hrun.
  destruct Hstep as [ph j w w' Hkept
                    |[j w] c1 s1 r [j2 w2] Hlist Hr Hslots
                    |[j w] c1 s1 r [j2 w2] n Hlist Hr Hslots Hn
                    |n c1 [j w] [j' w'] Hone
                    |n c1 [j w] [j' w'] Hone
                    |c1 [j w]
                    |[j w] [j' w'] Hdrain
                    |[j w] [j' w'] Hdrain];
    destruct Hb as [Hcfg Hph]; cbn [fst snd] in *.
  - (* the workers act *)
    apply (results_kept_config j0 j w w' Hcfg) in Hkept.
    split; [done|]. destruct ph as [|n c1| |]; cbn [fst snd] in *.
    2: { destruct Hph as [Hc Hsize]. split; [|done].
         etransitivity; [exact Hc|].
         by apply (completed_now_kept j0). }
    all: etransitivity; [|exact Hph];
         apply Nat2Z.inj_le, subseteq_size; by apply (running_now_kept j0).
  - (* a poll that sleeps *)
    destruct s1 as [j1 w1].
    apply get_completed_tasks_inr in Hlist as (-> & Hj1 & Ho1 & _). cbn [fst snd] in *.
    subst j1. rewrite get_running_tasks_given in Hr. injection Hr as <- <- <-.
    split; [done|]. cbn [fst snd].
    replace (running_now j (emit (EvSleep poll_seconds) w1)) with (running_now j w);
      [done|].
    unfold running_now, completed_now. cbn [objects emit]. by rewrite Ho1.
  - (* a poll that starts a batch *)
    destruct s1 as [j1 w1].
    apply get_completed_tasks_inr in Hlist as (-> & Hj1 & Ho1 & _). cbn [fst snd] in *.
    subst j1. rewrite get_running_tasks_given in Hr. injection Hr as <- <- <-.
    split; [done|]. cbn [fst snd]. split.
    + unfold completed_now. cbn [objects emit]. by rewrite Ho1.
    + destruct Hcfg as (_ & Hm & _). rewrite Hm in Hslots. lia.
  - (* a task is submitted *)
    destruct Hph as [Hc Hsize].
    destruct (steady_submit_one_task j0 (Some c1) Hbackend j w Hcfg) as [Hcfg' Hkept].
    rewrite Hone in Hcfg', Hkept. cbn [fst snd] in *.
    split; [done|]. cbn [fst snd]. split.
    + etransitivity; [exact Hc|]. by apply (completed_now_kept j0).
    + apply submit_one_task_spec in Hone.
      destruct (tasks_iter j) as [|task rest]; [by destruct Hone|].
      cbv zeta in Hone. destruct Hone as [_ Hj'].
      assert (Hsub : submitted_tasks j' =
                (submitted_tasks j ++
                 [make_task_name (cache_key j) (length (submitted_tasks j))])%list)
        by (by destruct Hj' as [-> | ->]).
      rewrite Hsub.
      pose proof (size_running_append (submitted_tasks j)
                    (make_task_name (cache_key j) (length (submitted_tasks j))) c1).
      lia.
  - (* the task source is exhausted *)
    destruct Hph as [Hc Hsize].
    apply submit_one_task_spec in Hone.
    destruct (tasks_iter j) as [|task rest]; [|by destruct Hone].
    destruct Hone as (_ & -> & ->). split; [done|]. cbn [fst snd]. exact Hrun.
  - (* the batch is done *)
    split; [done|]. cbn [fst snd]. exact Hrun.
  - (* draining, tasks still running *)
    destruct (steady_drain_poll j0 poll_seconds j w Hcfg) as [Hcfg' Hkept].
    pose proof (keeps_job_drain_poll poll_seconds j w) as Hjob.
    rewrite Hdrain in Hcfg', Hkept, Hjob. cbn [fst snd] in *. subst j'.
    split; [done|]. cbn [fst snd].
    etransitivity; [|exact Hph].
    apply Nat2Z.inj_le, subseteq_size. by apply (running_now_kept j0).
  - (* draining, all done *)
    destruct (steady_drain_poll j0 poll_seconds j w Hcfg) as [Hcfg' Hkept].
    pose proof (keeps_job_drain_poll poll_seconds j w) as Hjob.
    rewrite Hdrain in Hcfg', Hkept, Hjob. cbn [fst snd] in *. subst j'.
    split; [done|]. cbn [fst snd].
    etransitivity; [|exact Hph].
    apply Nat2Z.inj_le, subseteq_size. by apply (running_now_kept j0).
Qed.

Lemma bounded_rtc c c' :
  bounded j0 c -> rtc (step poll_seconds) c c' -> bounded j0 c'.
Proof. intros Hb Hrtc. induction Hrtc; eauto using bounded_step. Qed.

(** [wait] takes steps of the machine. *)
Lemma submit_all_steps n c : forall s b s',
  submit_all n c s = (inr b, s') ->
  rtc (step poll_seconds) (Submitting n c, s)
    ((if b then Polling else Draining), s').
Proof.
  induction n as [|n IH]; intros s b s'.
  - intros [= <- <-]. apply rtc_once, step_batch_done.
  - cbn [submit_all]. unfold bind at 1.
    destruct (submit_one_task (Some c) s) as [[e|[|]] s1] eqn:Hone; [done|..].
    + intros Hrest. eapply rtc_l; [by apply step_submit_one|by apply IH].
    + intros [= <- <-]. by apply rtc_once, step_submit_exhausted.
Qed.

Lemma wait_poll_steps s b s' :
  wait_poll poll_seconds s = (inr b, s') ->
  rtc (step poll_seconds) (Polling, s) ((if b then Polling else Draining), s').
Proof.
  unfold wait_poll. unfold bind at 1.
  destruct (get_completed_tasks s) as [[e|c] s1] eqn:Hlist; [done|].
  unfold bind at 1.
  destruct (get_running_tasks (Some c) s1) as [[e|r] s2] eqn:Hr; [done|].
  unfold bind at 1, self at 1. cbn [fst snd].
  destruct (Z.max 0 (max_simultaneous_tasks s2.1 - Z.of_nat (size r)) =? 0)%Z eqn:Hz.
  - apply Z.eqb_eq in Hz. unfold bind, io, sleep, tell, ret. cbn [fst snd].
    intros [= <- <-]. by eapply rtc_once, step_poll_sleep.
  - apply Z.eqb_neq in Hz. unfold bind at 1, io, logging, tell. cbn [fst snd].
    intros Hall. eapply rtc_l; [by eapply step_poll_submit|].
    by apply submit_all_steps.
Qed.

Lemma drain_steps fuel : forall s s',
  drain fuel poll_seconds s = Some (inr tt, s') ->
  rtc (step poll_seconds) (Draining, s) (Returned, s').
Proof.
  induction fuel as [|fuel IH]; intros s s'; [done|]. cbn [drain].
  destruct (drain_poll poll_seconds s) as [[e|[|]] s1] eqn:Hdrain; [done|..].
  - intros [= <-]. by apply rtc_once, step_drain_return.
  - intros Hrest. eapply rtc_l; [by apply step_drain_sleep|by apply IH].
Qed.

Lemma wait_steps fuel : forall s s',
  wait fuel poll_seconds s = Some (inr tt, s') ->
  rtc (step poll_seconds) (Polling, s) (Returned, s').
Proof.
  induction fuel as [|fuel IH]; intros s s'; [done|]. cbn [wait].
  destruct (wait_poll poll_seconds s) as [[e|[|]] s1] eqn:Hpoll; [done|..].
  - intros Hrest. etransitivity; [by apply (wait_poll_steps s true s1)|by apply IH].
  - intros Hrest. etransitivity; [by apply (wait_poll_steps s false s1)|].
    by eapply drain_steps.
Qed.

End run.

(** What one pass of the outer loop does. *)
Lemma wait_poll_run poll_seconds (j : Job Task) w bucket file_name_prefix :
  result_listing j = Some (bucket, file_name_prefix) ->
  wait_poll poll_seconds (j, w) =
  let tasks_to_submit :=
    Z.max 0 (max_simultaneous_tasks j - Z.of_nat (size (running_now j w))) in
  let w1 := emit (EvRequest (ReqList bucket file_name_prefix)) w in
  if (tasks_to_submit =? 0)%Z
  then (inr true, (j, emit (EvSleep poll_seconds) w1))
  else submit_all (Z.to_nat tasks_to_submit) (completed_now j w)
         (j, emit (EvLog (LogSubmitting tasks_to_submit)) w1).
Proof.
  intros Hl. unfold wait_poll.
  rewrite (bind_inr _ _ _ _ _ (get_completed_tasks_run j w _ _ Hl)).
  rewrite (bind_inr _ _ _ _ _ (get_running_tasks_given _ _ _)).
  unfold bind at 1, self at 1. cbn [fst snd]. cbv zeta.
  change (list_to_set (submitted_tasks j) ∖ completed_now j w) with (running_now j w).
  by destruct (_ =? 0)%Z.
Qed.

Lemma submit_all_batch n c : forall (j : Job Task) w r j' w',
  submit_all n c (j, w) = (r, (j', w')) ->
  exists batch,
    submitted_tasks j' = (submitted_tasks j ++ batch)%list /\
    (length batch <= n)%nat.
Proof.
  induction n as [|n IH]; intros j w r j' w'.
  - intros [= <- <- <-]. exists []. by rewrite app_nil_r.
  - cbn [submit_all]. unfold bind at 1.
    destruct (submit_one_task (Some c) (j, w)) as [r1 [j1 w1]] eqn:Hone.
    apply submit_one_task_spec in Hone.
    destruct (tasks_iter j) as [|task rest].
    + destruct Hone as (-> & -> & ->). intros [= <- <- <-].
      exists []. rewrite app_nil_r. split; [done|cbn; lia].
    + cbv zeta in Hone. destruct r1 as [e|b].
      * subst j1. intros [= <- <- <-]. exists []. rewrite app_nil_r.
        split; [done|cbn; lia].
      * destruct Hone as [-> Hj1]. intros Hrest.
        destruct (IH _ _ _ _ _ Hrest) as (batch & Hsub & Hlen).
        exists (make_task_name (cache_key j) (length (submitted_tasks j)) :: batch).
        split; [|cbn; lia].
        rewrite Hsub. destruct Hj1 as [-> | ->]; cbn [submitted_tasks append_submitted];
          by rewrite <- app_assoc.
Qed.

Lemma wait_poll_batch poll_seconds (j : Job Task) w r j' w' :
  wait_poll poll_seconds (j, w) = (r, (j', w')) ->
  exists batch,
    submitted_tasks j' = (submitted_tasks j ++ batch)%list /\
    (Z.of_nat (length batch)
     <= Z.max 0 (max_simultaneous_tasks j - Z.of_nat (size (running_now j w))))%Z.
Proof.
  destruct (result_listing j) as [[b p]|] eqn:Hl.
  - rewrite (wait_poll_run poll_seconds j w b p Hl). cbv zeta.
    destruct (_ =? 0)%Z eqn:Hz.
    + intros [= <- <- <-]. exists []. rewrite app_nil_r. split; [done|cbn; lia].
    + intros Hall. apply submit_all_batch in Hall as (batch & Hsub & Hlen).
      exists batch. split; [done|]. lia.
  - unfold wait_poll. unfold bind at 1.
    pose proof (keeps_job_get_completed_tasks j w) as Hjob.
    destruct (get_completed_tasks (j, w)) as [[e|c] [j1 w1]] eqn:Hlist.
    + cbn [fst snd] in Hjob. subst j1. intros [= <- <- <-].
      exists []. rewrite app_nil_r. split; [done|cbn; lia].
    + apply get_completed_tasks_inr in Hlist as (_ & _ & _ & [? Hsome]).
      congruence.
Qed.

(** C8 (amended). At each pass of its outer loop [wait] lists the store
    afresh and computes [max(0, max_simultaneous_tasks - len(running_tasks))];
    when this is zero it only sleeps for the poll interval, and otherwise
    it submits a batch of at most that many tasks. Therefore, in every run
    in which no result object of the job is removed from the store (the
    workers may remove anything else, such as the input of a task), from a
    job with nothing submitted, the number of running tasks as the store
    shows it never exceeds [max_simultaneous_tasks], and so at the next
    poll it exceeds it by no more than the batch submitted since the last
    one. *)
Theorem running_tasks_bounded (poll_seconds : Z) (j0 : Job Task) (w0 : World)
    (Hmax : (0 <= max_simultaneous_tasks j0)%Z)
    (Hfresh : submitted_tasks j0 = [])
    (Hbackend : backend_keeps_results j0) :
  (forall (j : Job Task) w bucket file_name_prefix,
     result_listing j = Some (bucket, file_name_prefix) ->
     let tasks_to_submit :=
       Z.max 0 (max_simultaneous_tasks j - Z.of_nat (size (running_now j w))) in
     let w1 := emit (EvRequest (ReqList bucket file_name_prefix)) w in
     (tasks_to_submit = 0%Z ->
      wait_poll poll_seconds (j, w) = (inr true, (j, emit (EvSleep poll_seconds) w1))) /\
     (tasks_to_submit <> 0%Z ->
      wait_poll poll_seconds (j, w) =
      submit_all (Z.to_nat tasks_to_submit) (completed_now j w)
        (j, emit (EvLog (LogSubmitting tasks_to_submit)) w1)) /\
     (forall r j' w',
        wait_poll poll_seconds (j, w) = (r, (j', w')) ->
        exists batch,
          submitted_tasks j' = (submitted_tasks j ++ batch)%list /\
          (Z.of_nat (length batch) <= tasks_to_submit)%Z)) /\
  (forall ph j w,
     rtc (step poll_seconds) (Polling, (j0, w0)) (ph, (j, w)) ->
     (Z.of_nat (size (running_now j w)) <= max_simultaneous_tasks j0)%Z /\
     (ph = Polling ->
      forall j' w' w'' batch,
        wait_poll poll_seconds (j, w) = (inr true, (j', w')) ->
        submitted_tasks j' = (submitted_tasks j ++ batch)%list ->
        results_kept j' w' w'' ->
        (Z.of_nat (size (running_now j' w''))
         <= max_simultaneous_tasks j0 + Z.of_nat (length batch))%Z)).
Proof.
  split.
  - intros j w b p Hl tasks_to_submit w1.
    pose proof (wait_poll_run poll_seconds j w b p Hl) as Hrun. cbv zeta in Hrun.
    fold tasks_to_submit w1 in Hrun. split_and!.
    + intros Hz. by rewrite Hrun, Hz.
    + intros Hz. rewrite Hrun. by apply Z.eqb_neq in Hz as ->.
    + intros r j' w'. apply wait_poll_batch.
  - intros ph j w Hrtc.
    pose proof (bounded_rtc poll_seconds j0 Hbackend _ _
                  (bounded_init j0 w0 Hmax Hfresh) Hrtc) as Hb.
    split; [exact (bounded_running j0 _ Hb)|].
    intros -> j' w' w'' batch Hpoll Hsub Hkept.
    apply wait_poll_steps in Hpoll.
    pose proof (bounded_rtc poll_seconds j0 Hbackend _ _ Hb Hpoll) as Hb1.
    pose proof (bounded_step poll_seconds j0 Hbackend _ _ Hb1
                  (step_workers poll_seconds Polling j' w' w'' Hkept)) as Hb'.
    pose proof (bounded_running j0 _ Hb') as Hle. cbn [fst snd] in Hle. lia.
Qed.
End run_facts.

Lemma keeps_objects_get url : keeps_objects (storage.get url).
Proof.
  apply keeps_objects_robustify. unfold get_body.
  apply keeps_objects_bind; [apply keeps_objects_split|intros xs].
  apply keeps_objects_bind; [apply keeps_objects_unpack2|intros [b n]].
  unfold service.objects_get_media.
  apply keeps_objects_bind; [apply keeps_objects_tell|intros _].
  intros w. destruct (objects w !! (b, n)); apply objects_kept_refl.
Qed.

(** A retried call keeps what each attempt keeps. *)
Lemma robust_loop_frame {A} name (f : M A) (P : World -> World -> Prop) (m : nat) :
  (forall w, P w w) ->
  (forall w1 w2 w3, P w1 w2 -> P w2 w3 -> P w1 w3) ->
  (forall e w, P w (emit e w)) ->
  (forall w, P w (f w).2) ->
  forall error_num w,
  Z.to_nat (RETRIES_BEFORE_FAILURE + 1 - error_num) = m ->
  P w (robust_loop name f error_num w).2.
Proof.
  intros Hrefl Htrans Hemit Hf. induction m as [|m IH]; intros error_num w Hm;
    rewrite (robust_loop_eq name f error_num w); pose proof (Hf w) as Hfw;
    destruct (f w) as [[e|v] w1]; cbn [snd] in *; try done; cbv zeta.
  - replace (error_num + 1 >? RETRIES_BEFORE_FAILURE)%Z with true
      by (symmetry; apply Z.gtb_gt; lia).
    eapply Htrans; [exact Hfw|apply Hemit].
  - destruct (error_num + 1 >? RETRIES_BEFORE_FAILURE)%Z eqn:Hgt.
    + eapply Htrans; [exact Hfw|apply Hemit].
    + eapply Htrans; [exact Hfw|].
      eapply Htrans; [|apply IH].
      * do 2 (eapply Htrans; [apply Hemit|]). apply Hemit.
      * rewrite Z.gtb_ltb in Hgt. apply Z.ltb_ge in Hgt. lia.
Qed.

(** [delete] removes at most the object that its path names. *)
Lemma delete_keeps_others bucket name w k :
  partition "/" bucket = None -> k <> (bucket, name) ->
  is_Some (objects w !! k) ->
  is_Some (objects (storage.delete ("gs://" ++ bucket ++ "/" ++ name) w).2 !! k).
Proof.
  intros Hbucket Hk.
  refine (robust_loop_frame "delete"
            (delete_body ("gs://" ++ bucket ++ "/" ++ name))
            (fun w w' => is_Some (objects w !! k) -> is_Some (objects w' !! k))
            (Z.to_nat (RETRIES_BEFORE_FAILURE + 1 - 0)) _ _ _ _ 0 w eq_refl);
    try done.
  - intros w1 w2 w3 H1 H2 H. auto.
  - intros w0. unfold delete_body. rewrite (with_bucket_and_name bucket name Hbucket).
    unfold service.objects_delete, bind, tell. cbn [objects emit fst snd].
    destruct (objects w0 !! (bucket, name)); cbn [snd objects set_objects]; [|done].
    by rewrite lookup_delete_ne.
Qed.

(** The worker that deletes its input removes no result object of the
    example job. *)
Lemma consuming_backend_keeps_results :
  backend_keeps_results (N := example_naming) (example_job consuming_backend).
Proof.
  intros i w task_name b p x Hl Hp Hx.
  injection Hl as <- <-.
  cbn [submit_task consuming_backend job.backend example_job job.init
       consuming_submit_task].
  set (input := task_input_name (Naming := example_naming) task_name).
  set (output := task_result_name (Naming := example_naming) task_name).
  change (job.storage_path _ input) with ("gs://" ++ "bucket" ++ "/" ++ input).
  change (job.storage_path _ output) with ("gs://" ++ "bucket" ++ "/" ++ output).
  unfold bind at 1.
  pose proof (keeps_objects_get ("gs://" ++ "bucket" ++ "/" ++ input) w) as Hget.
  destruct (storage.get _ w) as [[e|data] w1]; cbn [snd] in *; [by apply Hget|].
  unfold bind at 1.
  pose proof (keeps_objects_put ("gs://" ++ "bucket" ++ "/" ++ output)
                (data ++ data)%list w1) as Hput.
  destruct (storage.put _ _ w1) as [[e|body] w2]; cbn [snd] in *;
    [by apply Hput, Hget|].
  unfold bind at 1.
  assert (Hx2 : is_Some (objects w2 !! ("bucket", x))) by by apply Hput, Hget.
  assert (Hne : ("bucket", x) <> ("bucket", input)).
  { intros [= ->]. subst input task_name. cbn in Hp. discriminate. }
  pose proof (delete_keeps_others "bucket" input w2 ("bucket", x) eq_refl Hne Hx2)
    as Hdel.
  by destruct (storage.delete _ w2) as [[e|[]] w3].
Qed.

Lemma running_tasks_bounded_witness :
  let j0 := example_job consuming_backend in
  (forall (j : job.Job nat) w bucket file_name_prefix,
     result_listing (N := example_naming) j = Some (bucket, file_name_prefix) ->
     let tasks_to_submit :=
       Z.max 0 (job.max_simultaneous_tasks j
                - Z.of_nat (size (running_now (N := example_naming) j w))) in
     let w1 := emit (EvRequest (ReqList bucket file_name_prefix)) w in
     (tasks_to_submit = 0%Z ->
      job.wait_poll (N := example_naming) (Ser := example_serialization) 5 (j, w) =
      (inr true, (j, emit (EvSleep 5) w1))) /\
     (tasks_to_submit <> 0%Z ->
      job.wait_poll (N := example_naming) (Ser := example_serialization) 5 (j, w) =
      job.submit_all (N := example_naming) (Ser := example_serialization)
        (Z.to_nat tasks_to_submit) (completed_now (N := example_naming) j w)
        (j, emit (EvLog (LogSubmitting tasks_to_submit)) w1)) /\
     (forall r j' w',
        job.wait_poll (N := example_naming) (Ser := example_serialization) 5 (j, w) =
        (r, (j', w')) ->
        exists batch,
          job.submitted_tasks j' = (job.submitted_tasks j ++ batch)%list /\
          (Z.of_nat (length batch) <= tasks_to_submit)%Z)) /\
  (forall ph j w,
     rtc (step (N := example_naming) (Ser := example_serialization) 5)
       (Polling, (j0, empty_world)) (ph, (j, w)) ->
     (Z.of_nat (size (running_now (N := example_naming) j w))
      <= job.max_simultaneous_tasks j0)%Z /\
     (ph = Polling ->
      forall j' w' w'' batch,
        job.wait_poll (N := example_naming) (Ser := example_serialization) 5 (j, w) =
        (inr true, (j', w')) ->
        job.submitted_tasks j' = (job.submitted_tasks j ++ batch)%list ->
        results_kept (N := example_naming) j' w' w'' ->
        (Z.of_nat (size (running_now (N := example_naming) j' w''))
         <= job.max_simultaneous_tasks j0 + Z.of_nat (length batch))%Z)).
Proof.
  apply (running_tasks_bounded (N := example_naming) (Ser := example_serialization)
           5 (example_job consuming_backend) empty_world).
  - vm_compute. discriminate.
  - reflexivity.
  - apply consuming_backend_keeps_results.
Defined.

(** C8 (as claimed) fails when result objects are removed during the
    run. A job with two slots has submitted six tasks in three batches of
    two, all completed. A second instance with the same cache key reuses
    the six results, returns from [wait] and reads its results with
    [cleanup], which deletes them. At its next poll the first job finds six
    running tasks: four more than its limit, two more than the limit and a
    batch; it submits nothing and sleeps. *)
Lemma running_tasks_exceed_bound :
  let first := long_job_polled in
  length (job.submitted_tasks first.1) = 6%nat /\
  size (running_now (N := example_naming) first.1 first.2) = 0%nat /\
  match job.wait (N := example_naming) (Ser := example_serialization) 5 5
          (short_job, first.2) with
  | Some (returned, second) =>
      returned = inr tt /\
      let read := job.results (N := example_naming) (Ser := example_serialization)
                    second in
      read.1 = inr [0; 2; 4; 6; 8; 10]%nat /\
      let poll := job.wait_poll (N := example_naming) (Ser := example_serialization)
                    5 (first.1, read.2.2) in
      size (running_now (N := example_naming) first.1 read.2.2) = 6%nat /\
      job.max_simultaneous_tasks first.1 = 2 /\
      poll.1 = inr true /\
      job.submitted_tasks poll.2.1 = job.submitted_tasks first.1 /\
      sleeps (trace poll.2.2) = [5]
  | None => False
  end.
Proof. vm_compute. split_and!; reflexivity. Qed.

(** * Further properties

    ** Storage paths *)

Lemma partition_Some sep s a b :
  partition sep s = Some (a, b) -> s = a ++ String sep b /\ partition sep a = None.
Proof.
  revert a. induction s as [|c s IH]; intros a; [done|]. cbn [partition].
  destruct (Ascii.eqb c sep) eqn:Hc.
  - apply Ascii.eqb_eq in Hc as ->. by intros [= <- <-].
  - destruct (partition sep s) as [[a' b']|] eqn:Hs; [|done].
    intros [= <- <-]. destruct (IH a' eq_refl) as [-> Ha'].
    split; [done|]. cbn [partition]. by rewrite Hc, Ha'.
Qed.

(** X1. [split_bucket_and_name] neither fails nor acts on the world for a
    [gs://] path and is the inverse of joining: it returns the two parts
    [bucket; name] exactly for the path [gs://bucket/name] in which
    [bucket] has no slash (the name may contain slashes: the split is at
    the first one), the single part [bucket] exactly for [gs://bucket],
    and raises the [ValueError] exactly when the scheme is missing. *)
Theorem split_bucket_and_name_round_trip (url : string) (w : World) :
  (forall bucket name,
     split_bucket_and_name url w = (inr [bucket; name], w) <->
     url = "gs://" ++ bucket ++ "/" ++ name /\ partition "/" bucket = None) /\
  (forall bucket,
     split_bucket_and_name url w = (inr [bucket], w) <->
     url = "gs://" ++ bucket /\ partition "/" bucket = None) /\
  ((split_bucket_and_name url w).1 = inl (ValueError ("Not a gs:// url: " ++ url)) <->
   startswith url "gs://" = false).
Proof.
  split_and!.
  - intros bucket name. split.
    + unfold split_bucket_and_name. destruct (startswith url "gs://") eqn:Hgs; [|done].
      pose proof (startswith_drop "gs://" url Hgs) as Hu.
      set (rest := string_drop (String.length "gs://") url) in *.
      cbn [negb]. unfold ret, split1. intros [= Hsplit].
      destruct (partition "/" rest) as [[a b]|] eqn:Hp; [|done].
      injection Hsplit as -> ->. apply partition_Some in Hp as [Hurl Hb].
      split; [|done]. by rewrite <- Hu, Hurl.
    + intros [-> Hb]. by apply split_bucket_and_name_path.
  - intros bucket. split.
    + unfold split_bucket_and_name. destruct (startswith url "gs://") eqn:Hgs; [|done].
      pose proof (startswith_drop "gs://" url Hgs) as Hu.
      set (rest := string_drop (String.length "gs://") url) in *.
      cbn [negb]. unfold ret, split1. intros [= Hsplit].
      destruct (partition "/" rest) as [[a b]|] eqn:Hp; [done|].
      injection Hsplit as <-. by split.
    + intros [-> Hb]. by apply split_bucket_and_name_bucket.
  - unfold split_bucket_and_name. destruct (startswith url "gs://"); cbn [negb]; split; done.
Qed.

(** ** The retry wrapper, whatever the call does *)

Section robustify_more.
Context {A : Type} (name : string) (f : M A).

Lemma robust_loop_recovers (n : nat) : forall (k : Z) w v w',
  0 <= k -> k + Z.of_nat n <= RETRIES_BEFORE_FAILURE ->
  (forall i, (i < n)%nat -> exists e w1, f (retries name f i (k + 1) w) = (inl e, w1)) ->
  f (retries name f n (k + 1) w) = (inr v, w') ->
  robust_loop name f k w = (inr v, w').
Proof.
  induction n as [|n IH]; intros k w v w' Hk Hsum Hfail Hok.
  - cbn [retries] in Hok. by rewrite robust_loop_eq, Hok.
  - rewrite robust_loop_eq.
    destruct (Hfail 0%nat) as (e & w1 & Hf); [lia|]. cbn [retries] in Hf.
    rewrite Hf. cbv zeta.
    replace (k + 1 >? RETRIES_BEFORE_FAILURE) with false
      by (symmetry; rewrite Z.gtb_ltb; apply Z.ltb_ge; lia).
    cbn [retries] in Hok. unfold back_off at 1 in Hok. rewrite Hf in Hok.
    apply IH; [lia|lia| |exact Hok].
    intros i Hi. destruct (Hfail (S i)) as (e' & w2 & Hf'); [lia|].
    cbn [retries] in Hf'. unfold back_off at 1 in Hf'. rewrite Hf in Hf'. eauto.
Qed.

Lemma robust_loop_bounded (Hquiet : quiet f) (m : nat) : forall (e : Z) w,
  0 <= e -> e + Z.of_nat m = RETRIES_BEFORE_FAILURE ->
  exists k, (k <= m)%nat /\
    sleeps (trace (robust_loop name f e w).2) =
      (sleeps (trace w) ++
       map (fun i => FIRST_RETRY_SLEEP ^ (e + 1 + Z.of_nat i)) (seq 0 k))%list /\
    match (robust_loop name f e w).1 with
    | inr _ =>
        failed_attempts (trace (robust_loop name f e w).2) =
        (failed_attempts (trace w) + k)%nat
    | inl _ =>
        k = m /\
        failed_attempts (trace (robust_loop name f e w).2) =
        (failed_attempts (trace w) + S k)%nat
    end.
Proof.
  induction m as [|m IH]; intros e w He Hsum; rewrite robust_loop_eq;
    destruct (Hquiet w) as [Hqs Hqf];
    destruct (f w) as [[x|v] w1]; cbn [fst snd] in Hqs, Hqf; cbv zeta.
  - replace (e + 1 >? RETRIES_BEFORE_FAILURE) with true
      by (symmetry; apply Z.gtb_gt; lia).
    exists 0%nat. cbn [fst snd seq map].
    rewrite sleeps_emit, failed_attempts_emit, Hqs, Hqf, !app_nil_r.
    cbn [is_call_failed]. split_and!; [lia|done|done|lia].
  - exists 0%nat. cbn [fst snd seq map]. rewrite Hqs, Hqf, app_nil_r.
    split_and!; [lia|done|lia].
  - replace (e + 1 >? RETRIES_BEFORE_FAILURE) with false
      by (symmetry; rewrite Z.gtb_ltb; apply Z.ltb_ge; lia).
    set (w2 := emit (EvSleep _) _).
    destruct (IH (e + 1) w2) as (k & Hk & Hs & Hr); [lia|lia|].
    assert (Hs2 : sleeps (trace w2) =
                  (sleeps (trace w) ++ [FIRST_RETRY_SLEEP ^ (e + 1)])%list).
    { subst w2. rewrite !sleeps_emit, Hqs. by rewrite !app_nil_r. }
    assert (Hf2 : failed_attempts (trace w2) = S (failed_attempts (trace w))).
    { subst w2. rewrite !failed_attempts_emit, Hqf. cbn [is_call_failed]. lia. }
    exists (S k). split; [lia|]. split.
    + rewrite Hs, Hs2, <- app_assoc. f_equal. cbn [seq map app].
      f_equal; [f_equal; lia|]. rewrite <- seq_shift, map_map.
      apply map_ext. intros i. f_equal. lia.
    + destruct (robust_loop name f (e + 1) w2).1.
      * destruct Hr as [-> Hr]. split; [done|]. rewrite Hr, Hf2. lia.
      * rewrite Hr, Hf2. lia.
  - exists 0%nat. cbn [fst snd seq map]. rewrite Hqs, Hqf, app_nil_r.
    split_and!; [lia|done|lia].
Qed.

(** A call that, while [I] holds, sends one request and fails. *)
Lemma robust_loop_request_fails (I : World -> Prop) (x : Exn) (req : Request)
    (Hfail : forall w, I w -> f w = (inl x, emit (EvRequest req) w))
    (Hemit : forall ev w, I w -> I (emit ev w)) (m : nat) : forall (e : Z) w,
  I w -> 0 <= e -> e + Z.of_nat m = RETRIES_BEFORE_FAILURE ->
  (robust_loop name f e w).1 = inl x /\
  objects (robust_loop name f e w).2 = objects w /\
  requests (trace (robust_loop name f e w).2) =
    (requests (trace w) ++ replicate (S m) req)%list /\
  sleeps (trace (robust_loop name f e w).2) =
    (sleeps (trace w) ++
     map (fun i => FIRST_RETRY_SLEEP ^ (e + 1 + Z.of_nat i)) (seq 0 m))%list.
Proof.
  induction m as [|m IH]; intros e w HI He Hsum; rewrite robust_loop_eq, (Hfail w HI);
    cbv zeta.
  - replace (e + 1 >? RETRIES_BEFORE_FAILURE) with true
      by (symmetry; apply Z.gtb_gt; lia).
    cbn [fst snd seq map]. rewrite !requests_emit, !sleeps_emit, !app_nil_r. done.
  - replace (e + 1 >? RETRIES_BEFORE_FAILURE) with false
      by (symmetry; rewrite Z.gtb_ltb; apply Z.ltb_ge; lia).
    set (w2 := emit (EvSleep _) _).
    destruct (IH (e + 1) w2) as (Hr & Ho & Hq & Hs); [|lia|lia|].
    { subst w2. by do 4 apply Hemit. }
    rewrite Hr, Ho, Hq, Hs. subst w2.
    rewrite !requests_emit, !sleeps_emit, !app_nil_r, <- !app_assoc.
    split_and!; try done. f_equal. cbn [seq map app].
    f_equal; [f_equal; lia|]. rewrite <- seq_shift, map_map.
    apply map_ext. intros i. f_equal. lia.
Qed.

End robustify_more.

(** X2. A wrapped call that fails [n] times in a row, with [n] at most
    [RETRIES_BEFORE_FAILURE], and then succeeds returns the value of the
    successful attempt, from the world that the [n] failures, their log
    records and their sleeps have left: the wrapper gives up on no call
    that succeeds within thirteen attempts. *)
Theorem robustify_recovers {A} (name : string) (f : M A) (w : World) (n : nat)
    (v : A) (w' : World)
    (Hn : (n <= Z.to_nat RETRIES_BEFORE_FAILURE)%nat)
    (Hfail : forall i, (i < n)%nat ->
       exists e w1, f (retries name f i 1 w) = (inl e, w1))
    (Hok : f (retries name f n 1 w) = (inr v, w')) :
  robustify name f w = (inr v, w').
Proof.
  unfold robustify. apply (robust_loop_recovers name f n 0 w v w'); try done.
  unfold RETRIES_BEFORE_FAILURE in *. lia.
Qed.

Lemma robustify_recovers_witness :
  robustify "delete" (flaky 3) empty_world =
  (inr tt,
   emit (EvRequest (ReqDelete "bucket" "key"))
     (retries "delete" (flaky 3) 3 1 empty_world)).
Proof.
  apply (robustify_recovers "delete" (flaky 3) empty_world 3).
  - vm_compute. lia.
  - intros i Hi. destruct i as [|[|[|i]]]; [eexists _, _; reflexivity..|lia].
  - reflexivity.
Defined.

(** X3. Whatever the wrapped call does, as long as it does not sleep or log
    a failure itself, the wrapper sleeps a prefix of the schedule
    2, 4, ..., 4096 and nothing else: at most twelve sleeps, one per failed
    attempt when the call ends up succeeding, and all twelve with thirteen
    logged failures when it ends up raising. *)
Theorem robustify_is_bounded {A} (name : string) (f : M A) (w : World)
    (Hquiet : quiet f) :
  exists k, (k <= Z.to_nat RETRIES_BEFORE_FAILURE)%nat /\
    sleeps (trace (robustify name f w).2) =
      (sleeps (trace w) ++ take k backoff_sleeps)%list /\
    match (robustify name f w).1 with
    | inr _ =>
        failed_attempts (trace (robustify name f w).2) =
        (failed_attempts (trace w) + k)%nat
    | inl _ =>
        k = Z.to_nat RETRIES_BEFORE_FAILURE /\
        failed_attempts (trace (robustify name f w).2) =
        (failed_attempts (trace w) + Z.to_nat (RETRIES_BEFORE_FAILURE + 1))%nat
    end.
Proof.
  unfold robustify.
  destruct (robust_loop_bounded name f Hquiet (Z.to_nat RETRIES_BEFORE_FAILURE) 0 w)
    as (k & Hk & Hs & Hr); [lia|vm_compute; congruence|].
  exists k. split; [done|]. split.
  - rewrite Hs. f_equal. clear -Hk. change (Z.to_nat RETRIES_BEFORE_FAILURE) with 12%nat in Hk.
    do 13 (destruct k as [|k]; [reflexivity|]). lia.
  - destruct (robust_loop name f 0 w).1; [|done].
    destruct Hr as [-> Hr]. split; [done|]. rewrite Hr. vm_compute Z.to_nat. lia.
Qed.

Lemma robustify_is_bounded_witness :
  exists k, (k <= Z.to_nat RETRIES_BEFORE_FAILURE)%nat /\
    sleeps (trace (robustify "delete" (flaky 3) empty_world).2) =
      (sleeps (trace empty_world) ++ take k backoff_sleeps)%list /\
    match (robustify "delete" (flaky 3) empty_world).1 with
    | inr _ =>
        failed_attempts (trace (robustify "delete" (flaky 3) empty_world).2) =
        (failed_attempts (trace empty_world) + k)%nat
    | inl _ =>
        k = Z.to_nat RETRIES_BEFORE_FAILURE /\
        failed_attempts (trace (robustify "delete" (flaky 3) empty_world).2) =
        (failed_attempts (trace empty_world) + Z.to_nat (RETRIES_BEFORE_FAILURE + 1))%nat
    end.
Proof.
  apply (robustify_is_bounded "delete" (flaky 3) empty_world).
  intros w. unfold flaky.
  destruct (length (sleeps (trace w)) <? 3)%nat; cbn [fst snd];
    rewrite sleeps_emit, failed_attempts_emit, app_nil_r; cbn [is_call_failed];
    (split; [done|lia]).
Defined.

Lemma robustify_request_fails {A} name (f : M A) (I : World -> Prop) x req w :
  (forall w, I w -> f w = (inl x, emit (EvRequest req) w)) ->
  (forall ev w, I w -> I (emit ev w)) ->
  I w ->
  refused_to_the_end (robustify name f w) w x req.
Proof.
  intros Hfail Hemit HI. unfold robustify.
  destruct (robust_loop_request_fails name f I x req Hfail Hemit
              (Z.to_nat RETRIES_BEFORE_FAILURE) 0 w HI)
    as (Hr & Ho & Hq & Hs); [lia|vm_compute; congruence|].
  split_and!; done.
Qed.

(** ** Objects that are there, and objects that are not *)

Lemma NoDup_names_in o bucket file_name_prefix :
  NoDup (service.names_in o bucket file_name_prefix).
Proof.
  unfold service.names_in.
  pose proof (NoDup_fst_map_to_list o) as Hnd.
  induction (map_to_list o) as [|[[b n] v] l IH]; [constructor|].
  cbn [fmap list_fmap fst] in Hnd. apply NoDup_cons in Hnd as [Hnotin Hnd].
  cbn [omap list_omap fst snd].
  destruct (decide (b = bucket)) as [->|]; [|by apply IH].
  destruct (startswith n file_name_prefix); [|by apply IH].
  cbn. apply NoDup_cons. split; [|by apply IH].
  intros ([[b' n'] v'] & Hin & Hsome)%list_elem_of_omap. cbn [fst snd] in Hsome.
  destruct (decide (b' = bucket)) as [->|]; [|done].
  destruct (startswith n' file_name_prefix); [|done].
  injection Hsome as ->. apply Hnotin.
  apply list_elem_of_fmap. by exists (bucket, n, v').
Qed.

Lemma list_pages_eq page bucket file_name_prefix pageToken all_objects w :
  list_pages page bucket file_name_prefix pageToken all_objects w =
  let w1 := emit (EvRequest (ReqList bucket file_name_prefix)) w in
  let rest := drop pageToken (service.names_in (objects w) bucket file_name_prefix) in
  if (S page <? length rest)%nat
  then list_pages page bucket file_name_prefix (pageToken + S page)
         (all_objects ++ take (S page) rest)%list w1
  else (inr (all_objects ++ take (S page) rest)%list, w1).
Proof.
  simp list_pages.
  destruct (inspect (service.objects_list_page (S page) bucket file_name_prefix pageToken w))
    as [[[e|[items [next|]]] w1] Heq]; simpl;
    unfold service.objects_list_page, bind, tell in Heq; cbn [fst snd objects emit] in Heq;
    [discriminate Heq| |];
    injection Heq as <- Hnext <-; cbv zeta;
    destruct (S page <? _)%nat; try discriminate Hnext; [|reflexivity].
  injection Hnext as <-. reflexivity.
Qed.

Lemma pages_step (p r : nat) :
  (S p < r)%nat -> S ((r - 1) / S p) = S (S ((r - S p - 1) / S p)).
Proof.
  intros Hlt. f_equal.
  replace (r - 1)%nat with ((r - S p - 1) + 1 * S p)%nat by lia.
  rewrite Nat.div_add by lia. lia.
Qed.

Lemma iter_emit_objects e k w : objects (Nat.iter k (emit e) w) = objects w.
Proof. induction k as [|k IH]; [done|]. exact IH. Qed.

Lemma iter_emit_shift e k w : Nat.iter k (emit e) (emit e w) = Nat.iter (S k) (emit e) w.
Proof. apply Nat.iter_swap. Qed.

Lemma list_pages_run page bucket file_name_prefix (m : nat) :
  forall pageToken all_objects w,
  (length (drop pageToken (service.names_in (objects w) bucket file_name_prefix)) <= m)%nat ->
  list_pages page bucket file_name_prefix pageToken all_objects w =
  (inr (all_objects
        ++ drop pageToken (service.names_in (objects w) bucket file_name_prefix))%list,
   Nat.iter
     (S ((length (drop pageToken
                    (service.names_in (objects w) bucket file_name_prefix)) - 1)
         / S page))
     (emit (EvRequest (ReqList bucket file_name_prefix))) w).
Proof.
  induction m as [m IH] using lt_wf_ind. intros pageToken all_objects w Hm.
  rewrite list_pages_eq. cbv zeta.
  set (names := service.names_in (objects w) bucket file_name_prefix) in *.
  destruct (S page <? length (drop pageToken names))%nat eqn:Hlt.
  - apply Nat.ltb_lt in Hlt.
    rewrite (IH (length (drop pageToken names) - S page)%nat); cbn [objects emit];
      fold names.
    + rewrite <- app_assoc, <- (drop_drop names), take_drop.
      rewrite iter_emit_shift. f_equal. f_equal.
      rewrite (pages_step page _ Hlt). by rewrite (length_drop (drop pageToken names)).
    + lia.
    + rewrite !length_drop in *. lia.
  - apply Nat.ltb_ge in Hlt. rewrite take_ge by done.
    rewrite Nat.div_small by lia. reflexivity.
Qed.

(** X4. [list_contents] follows the pages of a listing. Whatever the
    number of names that the store returns per page (at least one), it
    executes one request per page, that is [ceil(n / size)] requests for
    [n] names and one when there is none, and returns exactly the names of
    the objects of the bucket that start with the prefix, each once,
    relative to the bucket. Neither the names nor the store depend on the
    page size, and a listing that fits one page is the single request that
    [list_contents_body] makes. *)
Theorem list_contents_follows_pages (page : nat) (bucket file_name_prefix : string)
    (w : World) (Hbucket : partition "/" bucket = None) :
  let url := "gs://" ++ bucket ++ "/" ++ file_name_prefix in
  let names := service.names_in (objects w) bucket file_name_prefix in
  list_contents_paged page url w =
    (inr names,
     Nat.iter (S ((length names - 1) / S page))
       (emit (EvRequest (ReqList bucket file_name_prefix))) w) /\
  NoDup names /\
  (forall n, n ∈ names <->
     is_Some (objects w !! (bucket, n)) /\ startswith n file_name_prefix = true) /\
  (list_contents_paged page url w).1 = (list_contents url w).1 /\
  objects (list_contents_paged page url w).2 = objects (list_contents url w).2 /\
  ((length names <= S page)%nat -> list_contents_paged page url w = list_contents url w).
Proof.
  intros url names. subst url.
  assert (Hrun : list_contents_paged page
                   ("gs://" ++ bucket ++ "/" ++ file_name_prefix) w =
    (inr names,
     Nat.iter (S ((length names - 1) / S page))
       (emit (EvRequest (ReqList bucket file_name_prefix))) w)).
  { apply robustify_ok. unfold list_contents_paged_body.
    rewrite (bind_inr _ _ _ _ _
               (split_bucket_and_name_path bucket file_name_prefix w Hbucket)).
    cbn [length Nat.eqb]. rewrite bind_ret_l || unfold unpack2; cbn.
    rewrite (list_pages_run page bucket file_name_prefix _ 0 [] w (le_n _)).
    reflexivity. }
  split_and!.
  - exact Hrun.
  - apply NoDup_names_in.
  - intros n. apply elem_of_names_in.
  - by rewrite Hrun, (list_contents_path bucket file_name_prefix Hbucket).
  - rewrite Hrun, (list_contents_path bucket file_name_prefix Hbucket).
    cbn [snd]. by rewrite iter_emit_objects.
  - intros Hfits.
    rewrite Hrun, (list_contents_path bucket file_name_prefix Hbucket).
    rewrite Nat.div_small by lia. reflexivity.
Qed.

Lemma list_contents_follows_pages_witness :
  let url := "gs://" ++ "bucket" ++ "/" ++ "result::key" in
  let names := service.names_in (objects five_results) "bucket" "result::key" in
  list_contents_paged 1 url five_results =
    (inr names,
     Nat.iter (S ((length names - 1) / 2))
       (emit (EvRequest (ReqList "bucket" "result::key"))) five_results) /\
  NoDup names /\
  (forall n, n ∈ names <->
     is_Some (objects five_results !! ("bucket", n)) /\
     startswith n "result::key" = true) /\
  (list_contents_paged 1 url five_results).1 = (list_contents url five_results).1 /\
  objects (list_contents_paged 1 url five_results).2 =
    objects (list_contents url five_results).2 /\
  ((length names <= 2)%nat ->
   list_contents_paged 1 url five_results = list_contents url five_results).
Proof.
  apply (list_contents_follows_pages 1 "bucket" "result::key" five_results).
  reflexivity.
Defined.

Lemma put_with_path bucket name data readers owners mime_type w :
  partition "/" bucket = None ->
  put_with ("gs://" ++ bucket ++ "/" ++ name) data readers owners mime_type w =
  service.objects_insert bucket
    {| body_name := name;
       body_acl := match readers, owners with
                   | [], [] => None
                   | _, _ => Some (map reader_entry readers ++ map owner_entry owners)%list
                   end |} data mime_type w.
Proof.
  intros Hb. apply robustify_ok. unfold put_body.
  by rewrite (with_bucket_and_name bucket name Hb).
Qed.

(** X5. What [put] stores at a well-formed path is what [get] returns from
    it, and the object is listed under every prefix of its name. The
    access-control list is present exactly when a reader or an owner is
    given, readers before owners; no other object is touched. *)
Theorem put_get_round_trip (bucket name : string) (data : list Byte.byte)
    (readers owners : list string) (mime_type : string) (w : World)
    (Hbucket : partition "/" bucket = None) :
  let path := "gs://" ++ bucket ++ "/" ++ name in
  let r := put_with path data readers owners mime_type w in
  (exists body, r.1 = inr body) /\
  get path r.2 = (inr data, emit (EvRequest (ReqGetMedia bucket name)) r.2) /\
  (forall p, startswith name p = true ->
     exists names,
       (list_contents ("gs://" ++ bucket ++ "/" ++ p) r.2).1 = inr names /\
       name ∈ names) /\
  (exists acl,
     objects r.2 !! (bucket, name) = Some {| obj_data := data; obj_acl := acl |} /\
     (acl = None <-> readers = [] /\ owners = []) /\
     (forall l, acl = Some l ->
        l = (map reader_entry readers ++ map owner_entry owners)%list)) /\
  (forall k, k <> (bucket, name) -> objects r.2 !! k = objects w !! k).
Proof.
  intros path r. subst path r. rewrite (put_with_path _ _ _ _ _ _ _ Hbucket).
  unfold service.objects_insert, bind, tell. cbn [fst snd body_name body_acl].
  set (acl := match readers, owners with [], [] => None | _, _ => _ end).
  set (w1 := set_objects _ _).
  assert (Hnew : objects w1 !! (bucket, name) = Some (mkObject data acl)).
  { subst w1. cbn [objects set_objects emit]. apply lookup_insert_eq. }
  split_and!.
  - eauto.
  - by rewrite (get_present bucket name Hbucket w1 _ Hnew).
  - intros p Hp. eexists. rewrite (list_contents_path bucket p Hbucket w1).
    split; [done|]. apply elem_of_names_in. by rewrite Hnew.
  - exists acl. split; [done|]. subst acl. split.
    + destruct readers, owners; (split; [done|by intros [? ?]]).
    + intros l. destruct readers, owners; intros [= <-]; done.
  - intros k Hk. subst w1. cbn [objects set_objects emit].
    by rewrite lookup_insert_ne.
Qed.

Lemma put_get_round_trip_witness :
  let path := "gs://" ++ "a" ++ "/" ++ "y" in
  let r := put_with path hello ["r@x"] [] "text/plain" world_a_x in
  (exists body, r.1 = inr body) /\
  get path r.2 = (inr hello, emit (EvRequest (ReqGetMedia "a" "y")) r.2) /\
  (forall p, startswith "y" p = true ->
     exists names,
       (list_contents ("gs://" ++ "a" ++ "/" ++ p) r.2).1 = inr names /\
       "y" ∈ names) /\
  (exists acl,
     objects r.2 !! ("a", "y") = Some {| obj_data := hello; obj_acl := acl |} /\
     (acl = None <-> ["r@x"] = [] /\ @nil string = []) /\
     (forall l, acl = Some l ->
        l = (map reader_entry ["r@x"] ++ map owner_entry [])%list)) /\
  (forall k, k <> ("a", "y") -> objects r.2 !! k = objects world_a_x !! k).
Proof.
  apply (put_get_round_trip "a" "y" hello ["r@x"] [] "text/plain" world_a_x).
  reflexivity.
Defined.

Lemma get_absent bucket name w :
  partition "/" bucket = None ->
  objects w !! (bucket, name) = None ->
  refused_to_the_end (get ("gs://" ++ bucket ++ "/" ++ name) w) w
    (HttpError 404) (ReqGetMedia bucket name).
Proof.
  intros Hb Hnone.
  apply (robustify_request_fails "get" _
           (fun w => objects w !! (bucket, name) = None)); [|done|done].
  intros w' Hw'. unfold get_body. rewrite (with_bucket_and_name bucket name Hb).
  unfold service.objects_get_media, bind, tell. cbn [objects emit]. by rewrite Hw'.
Qed.

Lemma delete_absent bucket name w :
  partition "/" bucket = None ->
  objects w !! (bucket, name) = None ->
  refused_to_the_end (delete ("gs://" ++ bucket ++ "/" ++ name) w) w
    (HttpError 404) (ReqDelete bucket name).
Proof.
  intros Hb Hnone.
  apply (robustify_request_fails "delete" _
           (fun w => objects w !! (bucket, name) = None)); [|done|done].
  intros w' Hw'. unfold delete_body. rewrite (with_bucket_and_name bucket name Hb).
  unfold service.objects_delete, bind, tell. cbn [objects emit]. by rewrite Hw'.
Qed.

Lemma move_body_path bucket name bucket2 name2 w :
  partition "/" bucket = None -> partition "/" bucket2 = None ->
  move_body ("gs://" ++ bucket ++ "/" ++ name) ("gs://" ++ bucket2 ++ "/" ++ name2) w =
  (service.objects_rewrite bucket name bucket name2 ;;;
   service.objects_delete bucket name) w.
Proof.
  intros Hb Hb2. unfold move_body. rewrite (with_bucket_and_name bucket name Hb).
  rewrite (bind_inr _ _ _ _ _ (split_bucket_and_name_path bucket2 name2 w Hb2)).
  cbn [unpack2]. by rewrite bind_ret_l.
Qed.

Lemma move_absent bucket name bucket2 name2 w :
  partition "/" bucket = None -> partition "/" bucket2 = None ->
  objects w !! (bucket, name) = None ->
  refused_to_the_end
    (move ("gs://" ++ bucket ++ "/" ++ name) ("gs://" ++ bucket2 ++ "/" ++ name2) w) w
    (HttpError 404) (ReqRewrite bucket name bucket name2).
Proof.
  intros Hb Hb2 Hnone.
  apply (robustify_request_fails "move" _
           (fun w => objects w !! (bucket, name) = None)); [|done|done].
  intros w' Hw'. rewrite (move_body_path _ _ _ _ _ Hb Hb2).
  unfold service.objects_rewrite, bind, tell. cbn [objects emit]. by rewrite Hw'.
Qed.

(** X6. [get], [delete] and [move] of an object that is absent do not fail
    at once: the 404 of the store is retried like any other exception, so
    the same request is sent thirteen times, the whole back-off schedule is
    slept, and the store is left as it was. [move] asks for a destination
    in the source bucket whatever bucket the destination path names. *)
Theorem missing_object_is_refused (bucket name : string) (w : World)
    (Hbucket : partition "/" bucket = None)
    (Hmissing : objects w !! (bucket, name) = None) :
  let path := "gs://" ++ bucket ++ "/" ++ name in
  refused_to_the_end (get path w) w (HttpError 404) (ReqGetMedia bucket name) /\
  refused_to_the_end (delete path w) w (HttpError 404) (ReqDelete bucket name) /\
  (forall bucket2 name2, partition "/" bucket2 = None ->
     refused_to_the_end (move path ("gs://" ++ bucket2 ++ "/" ++ name2) w) w
       (HttpError 404) (ReqRewrite bucket name bucket name2)).
Proof.
  split_and!.
  - by apply get_absent.
  - by apply delete_absent.
  - intros bucket2 name2 Hb2. by apply move_absent.
Qed.

Lemma missing_object_is_refused_witness :
  let path := "gs://" ++ "a" ++ "/" ++ "y" in
  refused_to_the_end (get path world_a_x) world_a_x (HttpError 404)
    (ReqGetMedia "a" "y") /\
  refused_to_the_end (delete path world_a_x) world_a_x (HttpError 404)
    (ReqDelete "a" "y") /\
  (forall bucket2 name2, partition "/" bucket2 = None ->
     refused_to_the_end (move path ("gs://" ++ bucket2 ++ "/" ++ name2) world_a_x)
       world_a_x (HttpError 404) (ReqRewrite "a" "y" "a" name2)).
Proof.
  apply (missing_object_is_refused "a" "y" world_a_x); reflexivity.
Defined.

(** X7. [delete] of a stored object succeeds with one request and removes
    that object only; afterwards no listing of the bucket contains the
    name, and a second [delete] or a [get] of the path ends in the 404 of
    the store. *)
Theorem delete_removes_object (bucket name : string) (w : World) (o : StoredObject)
    (Hbucket : partition "/" bucket = None)
    (Hstored : objects w !! (bucket, name) = Some o) :
  let path := "gs://" ++ bucket ++ "/" ++ name in
  let r := delete path w in
  r.1 = inr tt /\
  objects r.2 = base.delete (bucket, name) (objects w) /\
  requests (trace r.2) = (requests (trace w) ++ [ReqDelete bucket name])%list /\
  (forall p names,
     (list_contents ("gs://" ++ bucket ++ "/" ++ p) r.2).1 = inr names ->
     name ∉ names) /\
  (get path r.2).1 = inl (HttpError 404) /\
  (delete path r.2).1 = inl (HttpError 404).
Proof.
  intros path r. subst path r. rewrite (delete_present bucket name Hbucket w o Hstored).
  cbn [fst snd]. set (w1 := set_objects _ _).
  assert (Hgone : objects w1 !! (bucket, name) = None).
  { subst w1. cbn [objects set_objects]. apply lookup_delete_eq. }
  split_and!; try done.
  - subst w1. cbn [trace set_objects]. by rewrite requests_emit.
  - intros p names. rewrite (list_contents_path bucket p Hbucket w1). cbn [fst].
    intros [= <-]. intros [[? Hin] _]%elem_of_names_in.
    by rewrite lookup_delete_eq in Hin.
  - apply (get_absent bucket name w1 Hbucket Hgone).
  - apply (delete_absent bucket name w1 Hbucket Hgone).
Qed.

Lemma delete_removes_object_witness :
  let path := "gs://" ++ "a" ++ "/" ++ "x" in
  let r := delete path world_a_x in
  r.1 = inr tt /\
  objects r.2 = base.delete ("a", "x") (objects world_a_x) /\
  requests (trace r.2) = (requests (trace world_a_x) ++ [ReqDelete "a" "x"])%list /\
  (forall p names,
     (list_contents ("gs://" ++ "a" ++ "/" ++ p) r.2).1 = inr names ->
     "x" ∉ names) /\
  (get path r.2).1 = inl (HttpError 404) /\
  (delete path r.2).1 = inl (HttpError 404).
Proof.
  apply (delete_removes_object "a" "x" world_a_x (object_of hello)); reflexivity.
Defined.

Lemma move_run bucket name bucket2 name2 w o :
  partition "/" bucket = None -> partition "/" bucket2 = None ->
  objects w !! (bucket, name) = Some o ->
  move ("gs://" ++ bucket ++ "/" ++ name) ("gs://" ++ bucket2 ++ "/" ++ name2) w =
  (inr tt,
   set_objects (base.delete (bucket, name) (<[(bucket, name2) := o]> (objects w)))
     (emit (EvRequest (ReqDelete bucket name))
        (emit (EvRequest (ReqRewrite bucket name bucket name2)) w))).
Proof.
  intros Hbucket Hbucket2 Hstored.
  apply robustify_ok. rewrite (move_body_path _ _ _ _ _ Hbucket Hbucket2).
  unfold service.objects_rewrite, service.objects_delete, bind, tell.
  cbn [objects emit set_objects]. rewrite Hstored. cbn [objects emit set_objects].
  destruct (decide (name = name2)) as [<-|Hne].
  - by rewrite lookup_insert_eq.
  - rewrite lookup_insert_ne by congruence. by rewrite Hstored.
Qed.

(** X8. [move] of a stored object sends one rewrite and one delete request,
    both for the source bucket: the object ends up under the destination
    name in the source bucket, the source name is gone, and when the
    destination path names another bucket that bucket is left untouched. *)
Theorem move_stays_in_source_bucket (bucket name bucket2 name2 : string) (w : World)
    (o : StoredObject)
    (Hbucket : partition "/" bucket = None)
    (Hbucket2 : partition "/" bucket2 = None)
    (Hstored : objects w !! (bucket, name) = Some o) :
  let r := move ("gs://" ++ bucket ++ "/" ++ name)
                ("gs://" ++ bucket2 ++ "/" ++ name2) w in
  r.1 = inr tt /\
  objects r.2 = base.delete (bucket, name) (<[(bucket, name2) := o]> (objects w)) /\
  requests (trace r.2) =
    (requests (trace w) ++
     [ReqRewrite bucket name bucket name2; ReqDelete bucket name])%list /\
  objects r.2 !! (bucket, name) = None /\
  (name2 <> name -> objects r.2 !! (bucket, name2) = Some o) /\
  (bucket2 <> bucket -> objects r.2 !! (bucket2, name2) = objects w !! (bucket2, name2)).
Proof.
  intros r. subst r.
  rewrite (move_run _ _ _ _ _ _ Hbucket Hbucket2 Hstored).
  cbn [fst snd objects set_objects trace].
  split_and!; try done.
  - rewrite !requests_emit, <- app_assoc. done.
  - apply lookup_delete_eq.
  - intros Hne. rewrite lookup_delete_ne by congruence. apply lookup_insert_eq.
  - intros Hne. rewrite lookup_delete_ne by congruence.
    rewrite lookup_insert_ne by congruence. done.
Qed.

Lemma move_stays_in_source_bucket_witness :
  let r := move ("gs://" ++ "a" ++ "/" ++ "x") ("gs://" ++ "b" ++ "/" ++ "y")
             world_a_x in
  r.1 = inr tt /\
  objects r.2 =
    base.delete ("a", "x") (<[("a", "y") := object_of hello]> (objects world_a_x)) /\
  requests (trace r.2) =
    (requests (trace world_a_x) ++
     [ReqRewrite "a" "x" "a" "y"; ReqDelete "a" "x"])%list /\
  objects r.2 !! ("a", "x") = None /\
  ("y" <> "x" -> objects r.2 !! ("a", "y") = Some (object_of hello)) /\
  ("b" <> "a" -> objects r.2 !! ("b", "y") = objects world_a_x !! ("b", "y")).
Proof.
  apply (move_stays_in_source_bucket "a" "x" "b" "y" world_a_x (object_of hello));
    reflexivity.
Defined.

(** X9. [move] of a stored object onto its own path succeeds and deletes
    the object: the rewrite is followed by the deletion of the source,
    which is then also the destination. *)
Theorem move_onto_itself_deletes (bucket name : string) (w : World) (o : StoredObject)
    (Hbucket : partition "/" bucket = None)
    (Hstored : objects w !! (bucket, name) = Some o) :
  let path := "gs://" ++ bucket ++ "/" ++ name in
  let r := move path path w in
  r.1 = inr tt /\
  objects r.2 = base.delete (bucket, name) (objects w) /\
  (get path r.2).1 = inl (HttpError 404).
Proof.
  intros path r. subst path r.
  rewrite (move_run _ _ _ _ _ _ Hbucket Hbucket Hstored). cbn [fst snd].
  set (w1 := set_objects _ _).
  assert (Ho : objects w1 = base.delete (bucket, name) (objects w)).
  { subst w1. cbn [objects set_objects]. apply map_eq. intros k.
    destruct (decide (k = (bucket, name))) as [->|Hne].
    - by rewrite !lookup_delete_eq.
    - rewrite !lookup_delete_ne by done. by rewrite lookup_insert_ne. }
  split_and!; [done|done|].
  apply get_absent; [done|]. rewrite Ho. apply lookup_delete_eq.
Qed.

Lemma move_onto_itself_deletes_witness :
  let path := "gs://" ++ "a" ++ "/" ++ "x" in
  let r := move path path world_a_x in
  r.1 = inr tt /\
  objects r.2 = base.delete ("a", "x") (objects world_a_x) /\
  (get path r.2).1 = inl (HttpError 404).
Proof.
  apply (move_onto_itself_deletes "a" "x" world_a_x (object_of hello)); reflexivity.
Defined.

Lemma access_info_malformed name :
  well_formed_path name = false ->
  exists msg, forall w, access_info name w = (inl (ValueError msg), w).
Proof. intros H. exact (with_bucket_and_name_malformed name _ H). Qed.

Lemma access_info_well_formed name :
  well_formed_path name = true ->
  exists bucket file_name, forall w,
    access_info name w =
    (inr ("https://storage.cloud.google.com/" ++ bucket ++ "/" ++ file_name
          ++ String (ascii_of_nat 9) "[ " ++ name ++ " ]"), w).
Proof. intros H. exact (with_bucket_and_name_well_formed name _ H). Qed.

(** X10. [access_info] is not wrapped by the retry decorator: it never
    changes the world, so a bad path is refused at once, without sleeping.
    A path with a bucket and a name gives the browser URL of the object,
    followed by a tab and the path in brackets; any other path ends in a
    [ValueError]. *)
Theorem access_info_raises_at_once (name : string) (w : World) :
  (access_info name w).2 = w /\
  (forall bucket file_name,
     name = "gs://" ++ bucket ++ "/" ++ file_name -> partition "/" bucket = None ->
     (access_info name w).1 =
     inr ("https://storage.cloud.google.com/" ++ bucket ++ "/" ++ file_name
          ++ String (ascii_of_nat 9) "[ " ++ name ++ " ]")) /\
  (well_formed_path name = false ->
   exists msg, (access_info name w).1 = inl (ValueError msg)) /\
  (well_formed_path name = true -> exists info, (access_info name w).1 = inr info).
Proof.
  split_and!.
  - destruct (well_formed_path name) eqn:Hwf.
    + destruct (access_info_well_formed name Hwf) as (b & n & Hok). by rewrite Hok.
    + destruct (access_info_malformed name Hwf) as (msg & Hbad). by rewrite Hbad.
  - intros bucket file_name -> Hb. unfold access_info.
    by rewrite (with_bucket_and_name bucket file_name Hb).
  - intros Hwf. destruct (access_info_malformed name Hwf) as (msg & Hbad).
    exists msg. by rewrite Hbad.
  - intros Hwf. destruct (access_info_well_formed name Hwf) as (b & n & Hok).
    eexists. by rewrite Hok.
Qed.

(** ** The arguments of the local process backend *)

Lemma namespace_lookup_None (parser : list Argument) (argv : list string)
    attribute :
  (forall a, a ∈ parser -> arg_dest a <> attribute) ->
  foldl (fun namespace a =>
           <[arg_dest a :=
               if bool_decide (arg_flag a ∈ argv)
               then argparse.stored (arg_action a)
               else arg_default a]> namespace)
        (∅ : gmap string ArgValue) parser !! attribute = None.
Proof.
  induction parser as [|a parser IH] using rev_ind; intros Hfree; [done|].
  rewrite foldl_app. cbn [foldl].
  rewrite lookup_insert_ne.
  - apply IH. intros a' Ha'. apply Hfree, elem_of_app. by left.
  - apply Hfree, elem_of_app. right. by apply list_elem_of_singleton.
Qed.

(** X11. The option that [add_args] declares is stored under
    [local_process_delete_input], while [from_args] reads
    [local_process_keep_input]: on the namespace parsed from a command line
    of full flags, by a parser that declares no option with the second
    destination, [from_args] raises [AttributeError] whatever the command
    line is. The attribute that is stored holds [False] when the flag is
    given and the string ["true"] otherwise. *)
Theorem from_args_after_add_args (parser : list Argument) (argv : list string)
    (args : gmap string ArgValue)
    (Hparsed : argparse.parse_args (local_process_backend.add_args parser) argv
               = Some args)
    (Hfree : forall a, a ∈ parser -> arg_dest a <> "local_process_keep_input") :
  local_process_backend.from_args args =
    inl (mkAttributeError "local_process_keep_input") /\
  argparse.getattr args "local_process_delete_input" =
    inr (if bool_decide ("--local-process-keep-input" ∈ argv)
         then ArgBool false else ArgStr "true").
Proof.
  unfold argparse.parse_args in Hparsed.
  destruct (bool_decide _); [|done]. injection Hparsed as <-. split.
  - unfold local_process_backend.from_args, argparse.getattr.
    rewrite namespace_lookup_None; [done|].
    unfold local_process_backend.add_args, argparse.add_argument.
    intros a [Ha|Ha%list_elem_of_singleton]%elem_of_app;
      [by apply Hfree|by subst a].
  - unfold argparse.getattr, local_process_backend.add_args, argparse.add_argument.
    rewrite foldl_app. cbn [foldl arg_dest arg_flag arg_action arg_default].
    rewrite lookup_insert_eq. by case_bool_decide.
Qed.

Lemma from_args_after_add_args_witness :
  local_process_backend.from_args
    {[ "local_process_delete_input" := ArgBool false ]} =
    inl (mkAttributeError "local_process_keep_input") /\
  argparse.getattr
    ({[ "local_process_delete_input" := ArgBool false ]} : gmap string ArgValue)
    "local_process_delete_input" =
    inr (if bool_decide ("--local-process-keep-input" ∈ ["--local-process-keep-input"])
         then ArgBool false else ArgStr "true").
Proof.
  apply (from_args_after_add_args [] ["--local-process-keep-input"]).
  - vm_compute. reflexivity.
  - intros a Ha. by apply elem_of_nil in Ha.
Defined.

(** X12. [LocalProcessBackend.submit_task] never touches the store, sends no
    request and does not sleep. Called with an input and an output path it
    starts exactly one process, [_kubeface-run-task input output] followed
    by [--delete-input] exactly when the backend deletes inputs, and
    returns its handle without waiting for it; called with any other number
    of arguments it raises [TypeError] and does nothing. *)
Theorem local_submit_task_starts_one_process (delete_input : bool)
    (positional : list string) (w : World) :
  let r := submit_task (local_process_backend.LocalProcessBackend delete_input)
             positional w in
  objects r.2 = objects w /\
  requests (trace r.2) = requests (trace w) /\
  sleeps (trace r.2) = sleeps (trace w) /\
  (forall task_input task_output, positional = [task_input; task_output] ->
     let args := ("_kubeface-run-task" :: task_input :: task_output
                  :: (if delete_input then ["--delete-input"] else []))%list in
     r.1 = inr (PopenHandle args) /\
     popens (trace r.2) = (popens (trace w) ++ [args])%list) /\
  (length positional <> 2%nat ->
   (exists msg, r.1 = inl (TypeError msg)) /\ r.2 = w).
Proof.
  cbn [submit_task local_process_backend.LocalProcessBackend].
  destruct positional as [|a [|c [|d rest]]]; cbv zeta.
  - split_and!; try done. split; [by eexists|done].
  - split_and!; try done. split; [by eexists|done].
  - cbn [local_process_backend.LocalProcessBackend_submit_task].
    unfold local_process_backend.Popen, logging, tell, bind, ret. cbn [fst snd].
    split_and!.
    + done.
    + unfold requests, emit. cbn [trace]. rewrite !omap_app. cbn [omap].
      by rewrite !app_nil_r.
    + unfold sleeps, emit. cbn [trace]. rewrite !omap_app. cbn [omap].
      by rewrite !app_nil_r.
    + intros task_input task_output [= -> ->]. split; [done|].
      unfold popens, emit. cbn [trace]. rewrite !omap_app. cbn [omap].
      by rewrite app_nil_r.
    + done.
  - split_and!; try done. split; [by eexists|done].
Qed.

Section more_job_facts.
Context {Task Value : Type} {N : Naming} {Ser : Serialization Task Value}.
Import job.

(** X13. For a job whose storage prefix is the root of a bucket
    ([gs://bucket]) and a naming that satisfies the laws:
    [get_completed_tasks] lists the result prefix of the job and changes
    nothing in the store. A task of the job is in the set it returns
    exactly when the result object of that task is stored, and every name
    in the set has a stored result object. *)
Theorem completed_iff_result_stored `{!NamingLaws N} (j : Job Task) (w : World)
    (bucket : string) (Hbucket : in_bucket j bucket) :
  exists completed_tasks,
    get_completed_tasks (j, w) =
      (inr completed_tasks,
       (j, emit (EvRequest (ReqList bucket (task_result_prefix (cache_key j)))) w)) /\
    (forall i,
       make_task_name (cache_key j) i ∈ completed_tasks <->
       is_Some (objects w !! (bucket,
                  task_result_name (make_task_name (cache_key j) i)))) /\
    (forall t, t ∈ completed_tasks ->
       is_Some (objects w !! (bucket, task_result_name t))).
Proof.
  exists (completed_now j w). split_and!.
  - apply get_completed_tasks_run, result_listing_bucket, Hbucket.
  - intros i. split.
    + by apply completed_now_stored.
    + by apply completed_now_present.
  - intros t. by apply completed_now_stored.
Qed.

Lemma pulled_reused n (s s' : Job Task * World) :
  pulled n s s' ->
  exists submitted reused,
    submitted_tasks s'.1 = (submitted_tasks s.1 ++ submitted)%list /\
    reused_tasks s'.1 = (reused_tasks s.1 ++ reused)%list /\
    reused `sublist_of` submitted.
Proof.
  induction 1 as [s|n s s1 c w [j2 w2] _ IH Hcall].
  - exists [], []. by rewrite !app_nil_r.
  - destruct IH as (sub & reu & Hsub & Hreu & Hsl).
    apply submit_one_task_spec in Hcall. cbn [fst snd].
    destruct (tasks_iter s1.1) as [|task rest]; [by destruct Hcall|].
    cbv zeta in Hcall. destruct Hcall as [_ [-> | ->]].
    + eexists (sub ++ [_])%list, (reu ++ [_])%list.
      cbn [submitted_tasks reused_tasks append_submitted append_reused set_tasks_iter].
      rewrite Hsub, Hreu, <- !app_assoc. split_and!; [done..|].
      by apply sublist_app.
    + eexists (sub ++ [_])%list, reu.
      cbn [submitted_tasks reused_tasks append_submitted set_tasks_iter].
      rewrite Hsub, Hreu, <- !app_assoc. split_and!; [done..|].
      by apply sublist_inserts_r.
Qed.

(** X14. After any number of calls of [submit_one_task] on a fresh job, the
    reused tasks are a subsequence of the submitted tasks: a task is
    recorded as reused only if it is also recorded as submitted, in the
    same order, never twice, and there are at most as many submitted tasks
    as calls. *)
Theorem reused_tasks_are_submitted (n : nat) (s s' : Job Task * World)
    (Hfresh : submitted_tasks s.1 = [] /\ reused_tasks s.1 = [])
    (Hrun : pulled n s s') :
  reused_tasks s'.1 `sublist_of` submitted_tasks s'.1 /\
  (length (reused_tasks s'.1) <= length (submitted_tasks s'.1) <= n)%nat /\
  (NamingLaws N -> NoDup (reused_tasks s'.1)).
Proof.
  destruct Hfresh as [Hs Hr].
  destruct (pulled_reused n s s' Hrun) as (sub & reu & Hsub & Hreu & Hsl).
  destruct (pulled_invariant n s s' Hrun) as (_ & Hsub' & _).
  rewrite Hs in Hsub, Hsub'. rewrite Hr in Hreu. cbn [app] in *.
  rewrite Hsub, Hreu. split_and!.
  - done.
  - by apply sublist_length.
  - rewrite <- Hsub, Hsub', length_map, length_seq. done.
  - intros Hlaws. eapply sublist_NoDup; [|exact Hsl].
    rewrite <- Hsub, Hsub'. apply NoDup_fmap_2; [|apply NoDup_seq].
    intros a b. cbn [length Nat.add]. apply make_task_name_inj.
Qed.

(** X15. When [submit_one_task] raises, a task has been taken from the
    iterator and is lost: it is neither in [submitted_tasks] nor in
    [reused_tasks], so a later call goes on with the next task under the
    index that the lost one would have had. *)
Theorem failed_submission_consumes_task (completed_tasks : option (gset string))
    (j : Job Task) (w : World) (e : Exn) (j' : Job Task) (w' : World)
    (Hraised : submit_one_task completed_tasks (j, w) = (inl e, (j', w'))) :
  exists task rest,
    tasks_iter j = task :: rest /\
    tasks_iter j' = rest /\
    submitted_tasks j' = submitted_tasks j /\
    reused_tasks j' = reused_tasks j.
Proof.
  apply submit_one_task_spec in Hraised.
  destruct (tasks_iter j) as [|task rest]; [by destruct Hraised|].
  cbv zeta in Hraised. subst j'. by exists task, rest.
Qed.

End more_job_facts.

Lemma reused_tasks_are_submitted_witness :
  job.reused_tasks pulled_twice.1 `sublist_of` job.submitted_tasks pulled_twice.1 /\
  (length (job.reused_tasks pulled_twice.1)
   <= length (job.submitted_tasks pulled_twice.1) <= 2)%nat /\
  (NamingLaws example_naming -> NoDup (job.reused_tasks pulled_twice.1)).
Proof.
  apply (reused_tasks_are_submitted (N := example_naming)
           (Ser := example_serialization) 2
           (example_job doubling_backend, empty_world) pulled_twice).
  - split; reflexivity.
  - apply (pulled_next (N := example_naming) (Ser := example_serialization) 1
             (example_job doubling_backend, empty_world) pulled_once
             (Some {[ "key::1" ]}) empty_world).
    + apply (pulled_next (N := example_naming) (Ser := example_serialization) 0
               (example_job doubling_backend, empty_world)
               (example_job doubling_backend, empty_world) (Some ∅) empty_world).
      * apply pulled_none.
      * reflexivity.
    + reflexivity.
Defined.

Lemma completed_iff_result_stored_witness :
  exists completed_tasks,
    job.get_completed_tasks (N := example_naming) (pulled_twice.1, two_results) =
      (inr completed_tasks,
       (pulled_twice.1,
        emit (EvRequest (ReqList "bucket"
                (task_result_prefix (Naming := example_naming)
                   (job.cache_key pulled_twice.1)))) two_results)) /\
    (forall i,
       make_task_name (Naming := example_naming) (job.cache_key pulled_twice.1) i
         ∈ completed_tasks <->
       is_Some (objects two_results !! ("bucket",
                  task_result_name (Naming := example_naming)
                    (make_task_name (Naming := example_naming)
                       (job.cache_key pulled_twice.1) i)))) /\
    (forall t, t ∈ completed_tasks ->
       is_Some (objects two_results !! ("bucket",
                  task_result_name (Naming := example_naming) t))).
Proof.
  apply (completed_iff_result_stored (N := example_naming)
           (NamingLaws0 := example_naming_laws) pulled_twice.1 two_results "bucket").
  split; reflexivity.
Defined.

Lemma failed_submission_consumes_task_witness :
  exists task rest,
    job.tasks_iter (example_job (local_process_backend.LocalProcessBackend true)) =
      task :: rest /\
    job.tasks_iter refused.2.1 = rest /\
    job.submitted_tasks refused.2.1 =
      job.submitted_tasks (example_job (local_process_backend.LocalProcessBackend true)) /\
    job.reused_tasks refused.2.1 =
      job.reused_tasks (example_job (local_process_backend.LocalProcessBackend true)).
Proof.
  apply (failed_submission_consumes_task (N := example_naming)
           (Ser := example_serialization) None
           (example_job (local_process_backend.LocalProcessBackend true)) empty_world
           (TypeError "submit_task() takes 3 positional arguments but 4 were given")
           refused.2.1 refused.2.2).
  reflexivity.
Defined.

Section loop_facts.
Context {Task Value : Type} {N : Naming} {Ser : Serialization Task Value}.
Import job.

Lemma running_now_same_objects (j : Job Task) w w' :
  objects w' = objects w -> running_now j w' = running_now j w.
Proof. intros H. unfold running_now, completed_now. by rewrite H. Qed.

Lemma status_dict_run (j : Job Task) w bucket file_name_prefix :
  result_listing j = Some (bucket, file_name_prefix) ->
  status_dict (j, w) =
  (inr {| st_backend := backend_str (backend j);
          st_job_name := job_name j;
          st_cache_key := cache_key j;
          st_max_simultaneous_tasks := max_simultaneous_tasks j;
          st_num_tasks := num_tasks j;
          st_submitted_tasks := submitted_tasks j;
          st_completed_tasks := elements (completed_now j w);
          st_running_tasks := elements (running_now j w);
          st_reused_tasks := reused_tasks j |},
   (j, emit (EvRequest (ReqList bucket file_name_prefix)) w)).
Proof.
  intros Hl. unfold status_dict.
  rewrite (bind_inr _ _ _ _ _ (get_completed_tasks_run j w _ _ Hl)).
  rewrite (bind_inr _ _ _ _ _ (get_running_tasks_given _ _ _)).
  reflexivity.
Qed.

Lemma drain_poll_run poll_seconds (j : Job Task) w bucket file_name_prefix :
  result_listing j = Some (bucket, file_name_prefix) ->
  exists w',
    drain_poll poll_seconds (j, w) =
      (inr (bool_decide (running_now j w = ∅)), (j, w')) /\
    objects w' = objects w /\
    sleeps (trace w') =
      (sleeps (trace w) ++
       if bool_decide (running_now j w = ∅) then [] else [poll_seconds])%list.
Proof.
  intros Hl. unfold drain_poll.
  rewrite (bind_inr _ _ _ _ _ (status_dict_run j w _ _ Hl)).
  set (w1 := emit _ w).
  unfold bind at 1, io at 1, status_writer.update, tell. cbn [fst snd].
  set (w2 := emit _ w1).
  rewrite (bind_inr _ _ _ _ _ (get_running_tasks_run j w2 _ _ Hl)).
  set (w3 := emit _ w2).
  assert (Hrun : running_now j w2 = running_now j w) by by apply running_now_same_objects.
  rewrite Hrun.
  assert (Hs3 : sleeps (trace w3) = sleeps (trace w)).
  { subst w3 w2 w1. rewrite !sleeps_emit. by rewrite !app_nil_r. }
  destruct (decide (running_now j w = ∅)) as [Hempty|Hrunning].
  - exists w3. rewrite bool_decide_true by done. rewrite Hs3, app_nil_r. done.
  - eexists. rewrite bool_decide_false by done.
    unfold bind, io, logging, sleep, tell, ret. cbn [fst snd].
    split; [reflexivity|]. split; [done|].
    rewrite !sleeps_emit, Hs3. by rewrite app_nil_r.
Qed.

(** X16. The inner loop of [wait] has no time limit: while a submitted task
    has no result and nothing but the job acts on the store, it goes on
    polling and never returns, however many passes it is given. *)
Theorem drain_waits_for_running_tasks (poll_seconds : Z) (j : Job Task) (w : World)
    (bucket file_name_prefix : string)
    (Hlisting : result_listing j = Some (bucket, file_name_prefix))
    (Hrunning : running_now j w <> ∅) :
  forall fuel, drain fuel poll_seconds (j, w) = None.
Proof.
  intros fuel. revert w Hrunning. induction fuel as [|fuel IH]; intros w Hrunning; [done|].
  cbn [drain].
  destruct (drain_poll_run poll_seconds j w _ _ Hlisting) as (w' & Hpoll & Ho & _).
  rewrite Hpoll, bool_decide_false by done.
  apply IH. by rewrite (running_now_same_objects j w w' Ho).
Qed.

(** X17. With [max_simultaneous_tasks] at zero or below, every pass of
    [wait] lists the results, sleeps [poll_seconds] and starts over without
    pulling a task: [wait] never returns and never submits anything, even
    when the task source is empty. *)
Theorem wait_without_slots_never_returns (poll_seconds : Z) (j : Job Task) (w : World)
    (bucket file_name_prefix : string)
    (Hlisting : result_listing j = Some (bucket, file_name_prefix))
    (Hmax : max_simultaneous_tasks j <= 0) :
  wait_poll poll_seconds (j, w) =
    (inr true,
     (j, emit (EvSleep poll_seconds)
           (emit (EvRequest (ReqList bucket file_name_prefix)) w))) /\
  forall fuel, wait fuel poll_seconds (j, w) = None.
Proof.
  assert (Hpoll : forall w, wait_poll poll_seconds (j, w) =
    (inr true,
     (j, emit (EvSleep poll_seconds)
           (emit (EvRequest (ReqList bucket file_name_prefix)) w)))).
  { intros w0. rewrite (wait_poll_run poll_seconds j w0 _ _ Hlisting). cbv zeta.
    replace (Z.max 0 (max_simultaneous_tasks j - Z.of_nat (size (running_now j w0))))
      with 0 by lia.
    reflexivity. }
  split; [apply Hpoll|].
  intros fuel. revert w. induction fuel as [|fuel IH]; intros w; [done|].
  cbn [wait]. rewrite Hpoll. apply IH.
Qed.

(** X18. On a fresh job without tasks and with at least one slot, [wait]
    returns after one pass of the outer loop and one of the inner loop,
    without sleeping and without changing the store; [results] then yields
    nothing. *)
Theorem wait_on_empty_source (poll_seconds : Z) (j : Job Task) (w : World)
    (bucket file_name_prefix : string)
    (Hlisting : result_listing j = Some (bucket, file_name_prefix))
    (Hmax : 1 <= max_simultaneous_tasks j)
    (Hempty : tasks_iter j = [])
    (Hfresh : submitted_tasks j = []) :
  exists w',
    (forall fuel, (2 <= fuel)%nat ->
       wait fuel poll_seconds (j, w) = Some (inr tt, (j, w'))) /\
    objects w' = objects w /\
    sleeps (trace w') = sleeps (trace w) /\
    results (j, w') =
      (inr [], (j, emit (EvRequest (ReqList bucket file_name_prefix)) w')).
Proof.
  assert (Hnone : forall w0, running_now j w0 = ∅).
  { intros w0. unfold running_now. rewrite Hfresh. cbn [list_to_set].
    apply set_eq. intros t. split; [|by intros ?%not_elem_of_empty].
    by intros [?%not_elem_of_empty _]%elem_of_difference. }
  set (w1 := emit (EvLog (LogSubmitting (max_simultaneous_tasks j)))
               (emit (EvRequest (ReqList bucket file_name_prefix)) w)).
  assert (Hpoll : wait_poll poll_seconds (j, w) = (inr false, (j, w1))).
  { rewrite (wait_poll_run poll_seconds j w _ _ Hlisting). cbv zeta.
    rewrite Hnone, size_empty.
    replace (Z.max 0 (max_simultaneous_tasks j - Z.of_nat 0))
      with (max_simultaneous_tasks j) by lia.
    replace (max_simultaneous_tasks j =? 0)%Z with false
      by (symmetry; apply Z.eqb_neq; lia).
    destruct (Z.to_nat (max_simultaneous_tasks j)) as [|m] eqn:Hm; [lia|].
    cbn [submit_all].
    by rewrite (bind_inr _ _ _ _ _ (submit_one_task_exhausted j _ _ Hempty)). }
  destruct (drain_poll_run poll_seconds j w1 _ _ Hlisting) as (w' & Hdrain & Ho & Hs).
  rewrite bool_decide_true in Hdrain, Hs by done. rewrite app_nil_r in Hs.
  exists w'. split_and!.
  - intros fuel Hfuel. destruct fuel as [|[|fuel]]; [lia..|].
    cbn [wait drain]. by rewrite Hpoll, Hdrain.
  - by rewrite Ho.
  - rewrite Hs. subst w1. rewrite !sleeps_emit. by rewrite !app_nil_r.
  - unfold results.
    rewrite (bind_inr _ _ _ _ _ (get_running_tasks_run j w' _ _ Hlisting)).
    rewrite decide_True by done. unfold bind, self. cbn [fst snd].
    by rewrite Hfresh.
Qed.
End loop_facts.

Section more_results_facts.
Context {Task Value : Type} {N : Naming} {Ser : Serialization Task Value}.
Import job.

(** X19. [status_dict] lists the results once and reports a consistent
    snapshot of that listing: the submitted and reused tasks of the job;
    as completed tasks exactly the task names that the naming reads off
    the listed result names, each once; and as running tasks exactly the
    submitted tasks that are not among the completed ones, each once. *)
Theorem status_snapshot (j : Job Task) (w : World) (bucket file_name_prefix : string)
    (Hlisting : result_listing j = Some (bucket, file_name_prefix)) :
  exists d,
    status_dict (j, w) =
      (inr d, (j, emit (EvRequest (ReqList bucket file_name_prefix)) w)) /\
    st_submitted_tasks d = submitted_tasks j /\
    st_reused_tasks d = reused_tasks j /\
    NoDup (st_completed_tasks d) /\
    (forall t, t ∈ st_completed_tasks d <->
               exists x, is_Some (objects w !! (bucket, x)) /\
                         startswith x file_name_prefix = true /\
                         task_name_from_result_name x = t) /\
    NoDup (st_running_tasks d) /\
    (forall t, t ∈ st_running_tasks d <->
               t ∈ submitted_tasks j /\ t ∉ st_completed_tasks d).
Proof.
  eexists. split; [by apply status_dict_run|].
  cbn [st_submitted_tasks st_reused_tasks st_completed_tasks st_running_tasks].
  split_and!; [done|done|apply NoDup_elements| |apply NoDup_elements|].
  - intros t. rewrite elem_of_elements.
    apply (elem_of_completed_now j w bucket file_name_prefix t Hlisting).
  - intros t. rewrite !elem_of_elements. unfold running_now.
    by rewrite elem_of_difference, elem_of_list_to_set.
Qed.

Lemma results_from_objects `{!NamingLaws N} (j : Job Task) bucket names : forall w,
  in_bucket j bucket -> NoDup names ->
  (forall t, t ∈ names -> is_Some (objects w !! (bucket, task_result_name t))) ->
  exists w',
    results_from names (j, w) =
      (inr (map (fun t => load (stored_result (objects w) bucket t)) names), (j, w')) /\
    (forall t, t ∈ names ->
       objects w' !! (bucket, task_result_name t) =
       if cleanup j then None else objects w !! (bucket, task_result_name t)) /\
    (forall k, (forall t, t ∈ names -> k <> (bucket, task_result_name t)) ->
       objects w' !! k = objects w !! k) /\
    requests (trace w') =
      (requests (trace w) ++ concat (map (result_requests j bucket) names))%list.
Proof.
  induction names as [|t rest IH]; intros w Hb Hnd Hall.
  - exists w. cbn [map concat]. rewrite app_nil_r. split_and!; try done.
    intros t Ht. by apply elem_of_nil in Ht.
  - apply NoDup_cons in Hnd as [Hnotin Hnd].
    destruct (Hall t) as [o Ho]; [by left|].
    cbn [results_from]. unfold bind at 1, self at 1. cbn [fst snd].
    rewrite (storage_path_bucket j bucket _ Hb).
    unfold storage.get, storage.delete.
    rewrite (bind_inr _ _ _ _ _
               (io_inr _ j w _ _ (get_present bucket _ (proj2 Hb) w o Ho))).
    assert (Hstored : stored_result (objects w) bucket t = obj_data o).
    { unfold stored_result. by rewrite Ho. }
    assert (Hdiff : forall t', t' ∈ rest ->
              (bucket, task_result_name t') <> (bucket, task_result_name t)).
    { intros t' Hin [= H]. apply task_result_name_inj in H. by subst. }
    unfold result_requests at 1. cbn [map concat].
    destruct (cleanup j) eqn:Hcleanup.
    + set (w1 := emit (EvRequest (ReqGetMedia bucket (task_result_name t))) w).
      rewrite (bind_inr _ _ _ _ _
                 (io_inr _ j w1 _ _ (delete_present bucket _ (proj2 Hb) w1 o Ho))).
      set (w2 := set_objects _ _).
      assert (Ho2 : forall k, k <> (bucket, task_result_name t) ->
                objects w2 !! k = objects w !! k).
      { intros k Hk. subst w2 w1. cbn [objects set_objects emit].
        by rewrite lookup_delete_ne. }
      destruct (IH w2 Hb Hnd) as (w' & Hrest & Hkeys & Hothers & Hreq).
      { intros t' Hin. rewrite Ho2 by by apply Hdiff. apply Hall. by right. }
      exists w'. rewrite (bind_inr _ _ _ _ _ Hrest). unfold ret. split_and!.
      * cbn [map]. rewrite Hstored. do 3 f_equal.
        apply map_ext_in. intros t' Hin%list_elem_of_In.
        unfold stored_result. by rewrite Ho2 by by apply Hdiff.
      * intros t' [->|Hin]%elem_of_cons.
        -- rewrite Hothers.
           ++ subst w2 w1. cbn [objects set_objects emit]. apply lookup_delete_eq.
           ++ intros t' Hin H. by apply (Hdiff t' Hin).
        -- by apply Hkeys.
      * intros k Hk. rewrite Hothers.
        -- apply Ho2, Hk. by left.
        -- intros t' Hin. apply Hk. by right.
      * rewrite Hreq. subst w2 w1. cbn [trace set_objects].
        rewrite !requests_emit, <- !app_assoc. unfold result_requests. by rewrite Hcleanup.
    + rewrite bind_ret_l.
      set (w1 := emit (EvRequest (ReqGetMedia bucket (task_result_name t))) w).
      destruct (IH w1 Hb Hnd) as (w' & Hrest & Hkeys & Hothers & Hreq).
      { intros t' Hin. apply Hall. by right. }
      exists w'. rewrite (bind_inr _ _ _ _ _ Hrest). unfold ret. split_and!.
      * cbn [map]. by rewrite Hstored.
      * intros t' [->|Hin]%elem_of_cons.
        -- rewrite Hothers; [done|].
           intros t' Hin H. by apply (Hdiff t' Hin).
        -- by apply Hkeys.
      * intros k Hk. rewrite Hothers; [done|].
        intros t' Hin. apply Hk. by right.
      * rewrite Hreq. subst w1. rewrite !requests_emit, <- !app_assoc.
        unfold result_requests. by rewrite Hcleanup.
Qed.

(** X20. For a job whose storage prefix is the root of a bucket
    ([gs://bucket]), under the naming laws, when every submitted task has
    a result: [results] lists the results, as [get_running_tasks] does,
    finds no task running and then, for each task in submission order,
    downloads its result and, when [cleanup] is set, deletes it before it
    goes on to the next task. With [cleanup] the result objects are gone
    afterwards, without it they are kept; no other object is touched.
    After a run with [cleanup] a second call of [results] on the same job
    raises [RuntimeError]: the results can be read only once. *)
Theorem results_clean_up `{!NamingLaws N} (j : Job Task) (w : World)
    (bucket : string) (n : nat) (Hbucket : in_bucket j bucket)
    (Hsubmitted : submitted_tasks j = map (make_task_name (cache_key j)) (seq 0 n))
    (Hdone : forall i, (i < n)%nat ->
       is_Some (objects w !! (bucket, task_result_name (make_task_name (cache_key j) i)))) :
  exists values w1 w',
    get_running_tasks None (j, w) = (inr ∅, (j, w1)) /\
    results (j, w) = (inr values, (j, w')) /\
    requests (trace w') =
      (requests (trace w1)
       ++ concat (map (result_requests j bucket) (submitted_tasks j)))%list /\
    (forall k, (forall t, t ∈ submitted_tasks j -> k <> (bucket, task_result_name t)) ->
       objects w' !! k = objects w !! k) /\
    (forall t, t ∈ submitted_tasks j ->
       objects w' !! (bucket, task_result_name t) =
       if cleanup j then None else objects w !! (bucket, task_result_name t)) /\
    (cleanup j = true -> (0 < n)%nat ->
     (results (j, w')).1 = inl (RuntimeError "Not all tasks have completed")).
Proof.
  pose proof (result_listing_bucket j bucket Hbucket) as Hl.
  assert (Hall : forall t, t ∈ submitted_tasks j ->
            is_Some (objects w !! (bucket, task_result_name t))).
  { intros t. rewrite Hsubmitted, list_elem_of_fmap.
    intros (i & -> & Hi%elem_of_seq). apply Hdone. lia. }
  assert (Hempty : running_now j w = ∅).
  { apply set_eq. intros t. split; [|by intros ?%not_elem_of_empty].
    unfold running_now. intros [Hin Hnot]%elem_of_difference. destruct Hnot.
    apply elem_of_list_to_set in Hin. pose proof (Hall t Hin) as Hsome.
    rewrite Hsubmitted in Hin. apply list_elem_of_fmap in Hin as (i & -> & _).
    by apply (completed_now_present j w bucket i Hbucket). }
  unfold results at 1.
  rewrite (bind_inr _ _ _ _ _ (get_running_tasks_run j w _ _ Hl)).
  rewrite decide_True by done. unfold bind at 1, self at 1. cbn [fst snd].
  set (w1 := emit _ w).
  destruct (results_from_objects j bucket (submitted_tasks j) w1 Hbucket)
    as (w' & Hrun & Hkeys & Hothers & Hreq).
  { rewrite Hsubmitted. apply NoDup_fmap_2; [|apply NoDup_seq].
    intros a b. apply make_task_name_inj. }
  { exact Hall. }
  eexists _, w1, w'. split_and!.
  - by rewrite (get_running_tasks_run j w _ _ Hl), Hempty.
  - exact Hrun.
  - exact Hreq.
  - exact Hothers.
  - exact Hkeys.
  - intros Hcleanup Hn. unfold results.
    rewrite (bind_inr _ _ _ _ _ (get_running_tasks_run j w' _ _ Hl)).
    rewrite decide_False; [done|].
    intros Hnone.
    assert (Hin : make_task_name (cache_key j) 0 ∈ submitted_tasks j).
    { rewrite Hsubmitted. apply list_elem_of_fmap. exists 0%nat. split; [done|].
      apply elem_of_seq. lia. }
    assert (Hrunning : make_task_name (cache_key j) 0 ∈ running_now j w').
    { apply elem_of_difference. split; [by apply elem_of_list_to_set|].
      intros Hc. apply (completed_now_stored j w' bucket _ Hbucket) in Hc.
      rewrite (Hkeys _ Hin), Hcleanup in Hc. by destruct Hc. }
    rewrite Hnone in Hrunning. by apply not_elem_of_empty in Hrunning.
Qed.

End more_results_facts.

Section submission_facts.
Context {Task Value : Type} {N : Naming} {Ser : Serialization Task Value}.
Import job.

Lemma submit_one_task_new (j : Job Task) w c bucket task rest :
  in_bucket j bucket ->
  tasks_iter j = task :: rest ->
  make_task_name (cache_key j) (length (submitted_tasks j)) ∉ c ->
  match submit_task (backend j) (submission j) (uploaded j bucket task w) with
  | (inl e, w2) =>
      submit_one_task (Some c) (j, w) = (inl e, (set_tasks_iter rest j, w2))
  | (inr _, w2) =>
      exists d,
        submit_one_task (Some c) (j, w) =
        (inr true,
         (append_submitted (make_task_name (cache_key j) (length (submitted_tasks j)))
            (set_tasks_iter rest j),
          emit (EvStatus d)
            (emit (EvRequest (ReqList bucket (task_result_prefix (cache_key j)))) w2)))
  end.
Proof.
  intros Hb Hiter Hnotin.
  pose proof (result_listing_bucket j bucket Hb) as Hl.
  assert (Hcall : forall k : Handle -> J unit,
    bind (io (logging (LogUploading
                (storage_path j (task_input_name
                   (make_task_name (cache_key j) (length (submitted_tasks j)))))
                (make_task_name (cache_key j) (length (submitted_tasks j)))
                (length (dump task)))))
      (fun _ => bind (io (storage.put
                  (storage_path j (task_input_name
                     (make_task_name (cache_key j) (length (submitted_tasks j)))))
                  (dump task)))
         (fun _ => bind (io (submit_task (backend j) (submission j))) k))
      (set_tasks_iter rest j, w) =
    bind (io (submit_task (backend j) (submission j))) k
      (set_tasks_iter rest j, uploaded j bucket task w)).
  { intros k. unfold bind at 1, io at 1, logging, tell. cbn [fst snd].
    unfold bind at 1, io at 1, storage.put. cbn [fst snd].
    rewrite (storage_path_bucket j bucket _ Hb).
    rewrite (put_path bucket _ (proj2 Hb)).
    rewrite <- (storage_path_bucket j bucket _ Hb). reflexivity. }
  destruct (submit_task (backend j) (submission j) (uploaded j bucket task w))
    as [[e|h] w2] eqn:Hsub; [|eexists];
    unfold submit_one_task, bind at 1, next_task; cbn [fst snd];
    rewrite Hiter; rewrite bind_ret_l; unfold bind at 1, self at 1; cbn [fst snd];
    change (cache_key (set_tasks_iter rest j)) with (cache_key j);
    change (submitted_tasks (set_tasks_iter rest j)) with (submitted_tasks j);
    change (backend (set_tasks_iter rest j)) with (backend j);
    change (storage_path (set_tasks_iter rest j)) with (storage_path j);
    rewrite decide_False by done;
    unfold bind at 1; rewrite Hcall; unfold bind at 1, io at 1; cbn [fst snd];
    rewrite Hsub.
  - reflexivity.
  - rewrite (bind_inr _ _ _ _ _ (status_dict_run (set_tasks_iter rest j) w2 _ _ Hl)).
    reflexivity.
Qed.

(** X21. On a job whose storage prefix is the root of a bucket
    ([gs://bucket]) and that uses the local process backend, under the
    naming laws, [wait] raises [TypeError] in its first pass whenever it
    has a free slot for a task whose result is not stored yet: the input of
    that task has been uploaded and stays in the store, the task is taken
    from the iterator, no process is started and nothing is slept. *)
Theorem wait_fails_on_local_process_backend `{!NamingLaws N} (j : Job Task) (w : World)
    (bucket : string) (task : Task) (rest : list Task) (delete_input : bool)
    (fuel : nat) (poll_seconds : Z)
    (Hbucket : in_bucket j bucket)
    (Hbackend : backend j = local_process_backend.LocalProcessBackend delete_input)
    (Htasks : tasks_iter j = task :: rest)
    (Hslot : Z.of_nat (size (running_now j w)) < max_simultaneous_tasks j)
    (Hnew : objects w !! (bucket, task_result_name
              (make_task_name (cache_key j) (length (submitted_tasks j)))) = None) :
  exists w',
    wait (S fuel) poll_seconds (j, w) =
      Some (inl (TypeError "submit_task() takes 3 positional arguments but 4 were given"),
            (set_tasks_iter rest j, w')) /\
    objects w' =
      <[(bucket, task_input_name
           (make_task_name (cache_key j) (length (submitted_tasks j))))
        := object_of (dump task)]> (objects w) /\
    popens (trace w') = popens (trace w) /\
    sleeps (trace w') = sleeps (trace w).
Proof.
  pose proof (result_listing_bucket j bucket Hbucket) as Hl.
  set (tts := Z.max 0 (max_simultaneous_tasks j - Z.of_nat (size (running_now j w)))).
  set (w1 := emit (EvLog (LogSubmitting tts))
               (emit (EvRequest (ReqList bucket (task_result_prefix (cache_key j)))) w)).
  exists (uploaded j bucket task w1). split_and!.
  - cbn [wait]. rewrite (wait_poll_run poll_seconds j w _ _ Hl). cbv zeta.
    fold tts. fold w1.
    assert (Htts : 0 < tts) by (subst tts; lia).
    destruct (Z.eqb_spec tts 0) as [?|_]; [lia|].
    destruct (Z.to_nat tts) as [|k] eqn:Hk; [lia|].
    cbn [submit_all].
    assert (Hnotin : make_task_name (cache_key j) (length (submitted_tasks j))
                       ∉ completed_now j w).
    { intros Hin. apply (completed_now_stored j w bucket _ Hbucket) in Hin.
      rewrite Hnew in Hin. by destruct Hin. }
    pose proof (submit_one_task_new j w1 (completed_now j w) bucket task rest
                  Hbucket Htasks Hnotin) as Hone.
    rewrite Hbackend in Hone. cbn [submit_task local_process_backend.LocalProcessBackend
      local_process_backend.LocalProcessBackend_submit_task submission raise] in Hone.
    rewrite (bind_inl _ _ _ _ _ Hone). reflexivity.
  - reflexivity.
  - unfold uploaded, w1, emit, set_objects, popens. cbn [trace].
    rewrite !omap_app. cbn [omap]. by rewrite !app_nil_r.
  - unfold uploaded, w1, emit, set_objects, sleeps. cbn [trace].
    rewrite !omap_app. cbn [omap]. by rewrite !app_nil_r.
Qed.

End submission_facts.

Section prompt_backend.
Context {Task Value : Type} {N : Naming} {Ser : Serialization Task Value}.
Context `{!NamingLaws N}.
Import job.

Lemma running_after_submission (j j' : Job Task) w w' bucket i :
  in_bucket j bucket ->
  same_config j j' ->
  submitted_tasks j' = (submitted_tasks j ++ [make_task_name (cache_key j) i])%list ->
  objects_kept w w' ->
  running_now j w = ∅ ->
  is_Some (objects w' !! (bucket, task_result_name (make_task_name (cache_key j) i))) ->
  running_now j' w' = ∅.
Proof.
  intros Hb Hcfg Hsub Hkept Hnone Hstored.
  assert (Hb' : in_bucket j' bucket).
  { destruct Hb as [Hp Hs]. split; [|done]. destruct Hcfg as (_ & _ & -> & _). done. }
  apply set_eq. intros t. split; [|by intros ?%not_elem_of_empty].
  unfold running_now. intros [Hin Hnot]%elem_of_difference. destruct Hnot.
  rewrite Hsub in Hin. apply elem_of_list_to_set, elem_of_app in Hin as [Hin|Hin].
  - apply (completed_now_mono j j' w w' Hcfg Hkept).
    destruct (decide (t ∈ completed_now j w)) as [|Hn]; [done|].
    assert (Hr : t ∈ running_now j w).
    { apply elem_of_difference. split; [by apply elem_of_list_to_set|done]. }
    rewrite Hnone in Hr. by apply not_elem_of_empty in Hr.
  - apply list_elem_of_singleton in Hin as ->.
    destruct Hcfg as (_ & _ & _ & Hkey). rewrite <- Hkey.
    apply (completed_now_present j' w' bucket i Hb'). by rewrite Hkey.
Qed.

Lemma submit_one_prompt (j : Job Task) w c bucket task rest :
  in_bucket j bucket -> prompt (backend j) bucket ->
  tasks_iter j = task :: rest ->
  running_now j w = ∅ -> c ⊆ completed_now j w ->
  exists j' w',
    submit_one_task (Some c) (j, w) = (inr true, (j', w')) /\
    same_config j j' /\
    tasks_iter j' = rest /\
    submitted_tasks j' =
      (submitted_tasks j
       ++ [make_task_name (cache_key j) (length (submitted_tasks j))])%list /\
    objects_kept w w' /\
    running_now j' w' = ∅ /\
    sleeps (trace w') = sleeps (trace w).
Proof.
  intros Hb Hprompt Hiter Hnone Hc.
  set (task_name := make_task_name (cache_key j) (length (submitted_tasks j))).
  destruct (decide (task_name ∈ c)) as [Hin|Hnotin].
  - eexists _, _. split; [exact (submit_one_task_reused j w c task rest Hiter Hin)|].
    assert (Hkept : objects_kept w
              (emit (EvLog (LogUsingExisting
                 (storage_path j (task_result_name task_name)))) w))
      by apply objects_kept_emit.
    split_and!; try done.
    + eapply running_after_submission; [exact Hb|done|done|exact Hkept|exact Hnone|].
      apply (completed_now_stored j w bucket _ Hb), Hc, Hin.
    + rewrite sleeps_emit. apply app_nil_r.
  - pose proof (submit_one_task_new j w c bucket task rest Hb Hiter Hnotin) as Hone.
    unfold submission in Hone. rewrite !(storage_path_bucket j bucket _ Hb) in Hone.
    destruct (Hprompt task_name (task_input_name task_name)
                (task_result_name task_name) (uploaded j bucket task w))
      as (h & w2 & Hcall & Hkept2 & Hstored & Hsleeps).
    { unfold uploaded. cbn [objects set_objects]. by rewrite lookup_insert_eq. }
    fold task_name in Hone. rewrite Hcall in Hone. destruct Hone as [d Hone].
    eexists _, _. split; [exact Hone|].
    assert (Hkept : objects_kept w
              (emit (EvStatus d)
                 (emit (EvRequest (ReqList bucket (task_result_prefix (cache_key j))))
                    w2))).
    { do 2 (eapply objects_kept_trans; [|apply objects_kept_emit]).
      eapply objects_kept_trans; [|exact Hkept2].
      intros k Hk. unfold uploaded. cbn [objects set_objects emit].
      destruct (decide (k = (bucket, task_input_name task_name))) as [->|Hne].
      - by rewrite lookup_insert_eq.
      - by rewrite lookup_insert_ne. }
    split_and!; try done.
    + eapply running_after_submission; [exact Hb|done|done|exact Hkept|exact Hnone|].
      exact Hstored.
    + rewrite !sleeps_emit, !app_nil_r, Hsleeps. unfold uploaded.
      cbn [trace set_objects]. by rewrite !sleeps_emit, !app_nil_r.
Qed.

Lemma same_config_trans (j1 j2 j3 : Job Task) :
  same_config j1 j2 -> same_config j2 j3 -> same_config j1 j3.
Proof.
  intros (H1 & H2 & H3 & H4) (H1' & H2' & H3' & H4').
  repeat split; congruence.
Qed.

Lemma submit_all_prompt n : forall (j : Job Task) w c bucket,
  in_bucket j bucket -> prompt (backend j) bucket ->
  running_now j w = ∅ -> c ⊆ completed_now j w ->
  exists j' w',
    submit_all n c (j, w) =
      (inr (bool_decide (n <= length (tasks_iter j))%nat), (j', w')) /\
    same_config j j' /\
    tasks_iter j' = drop n (tasks_iter j) /\
    submitted_tasks j' =
      (submitted_tasks j
       ++ map (make_task_name (cache_key j))
            (seq (length (submitted_tasks j)) (n `min` length (tasks_iter j))))%list /\
    objects_kept w w' /\
    running_now j' w' = ∅ /\
    sleeps (trace w') = sleeps (trace w).
Proof.
  induction n as [|n IH]; intros j w c bucket Hb Hprompt Hnone Hc.
  - exists j, w. cbn [submit_all]. rewrite bool_decide_eq_true_2 by lia.
    cbn [Nat.min seq map]. rewrite app_nil_r.
    split_and!; try done; first [apply same_config_refl|apply objects_kept_refl].
  - cbn [submit_all]. destruct (tasks_iter j) as [|task rest] eqn:Hiter.
    + exists j, w. rewrite (bind_inr _ _ _ _ _ (submit_one_task_exhausted j w _ Hiter)).
      rewrite bool_decide_eq_false_2 by (cbn [length]; lia).
      rewrite Hiter. cbn [drop length]. rewrite Nat.min_0_r. cbn [seq map].
      rewrite app_nil_r.
      split_and!; try done; first [apply same_config_refl|apply objects_kept_refl].
    + destruct (submit_one_prompt j w c bucket task rest Hb Hprompt Hiter Hnone Hc)
        as (j1 & w1 & Hone & Hcfg & Hiter1 & Hsub1 & Hkept1 & Hnone1 & Hsleeps1).
      rewrite (bind_inr _ _ _ _ _ Hone).
      assert (Hb1 : in_bucket j1 bucket).
      { destruct Hb as [Hp Hs]. split; [|done]. destruct Hcfg as (_ & _ & -> & _). done. }
      assert (Hprompt1 : prompt (backend j1) bucket).
      { destruct Hcfg as (-> & _). done. }
      destruct (IH j1 w1 c bucket Hb1 Hprompt1 Hnone1) as
        (j' & w' & Hall & Hcfg' & Hiter' & Hsub' & Hkept' & Hnone' & Hsleeps').
      { etrans; [exact Hc|]. by apply completed_now_mono. }
      exists j', w'. rewrite Hall, Hiter1. cbn [length drop].
      split_and!.
      * do 2 f_equal. apply bool_decide_ext. lia.
      * by eapply same_config_trans.
      * by rewrite Hiter', Hiter1.
      * rewrite Hsub', Hsub1, Hiter1, length_app. cbn [length].
        destruct Hcfg as (_ & _ & _ & ->).
        rewrite <- app_assoc. f_equal.
        rewrite Nat.add_1_r. rewrite <- Nat.succ_min_distr. reflexivity.
      * by eapply objects_kept_trans.
      * done.
      * by rewrite Hsleeps', Hsleeps1.
Qed.

Lemma wait_prompt (poll_seconds : Z) (m : nat) : forall (j : Job Task) w bucket fuel,
  (length (tasks_iter j) <= m)%nat -> (m + 2 <= fuel)%nat ->
  in_bucket j bucket -> prompt (backend j) bucket ->
  1 <= max_simultaneous_tasks j ->
  running_now j w = ∅ ->
  exists j' w',
    wait fuel poll_seconds (j, w) = Some (inr tt, (j', w')) /\
    same_config j j' /\
    tasks_iter j' = [] /\
    submitted_tasks j' =
      (submitted_tasks j
       ++ map (make_task_name (cache_key j))
            (seq (length (submitted_tasks j)) (length (tasks_iter j))))%list /\
    objects_kept w w' /\
    running_now j' w' = ∅ /\
    sleeps (trace w') = sleeps (trace w).
Proof.
  induction m as [m IH] using lt_wf_ind.
  intros j w bucket fuel Hlen Hfuel Hb Hprompt Hmax Hnone.
  pose proof (result_listing_bucket j bucket Hb) as Hl.
  destruct fuel as [|fuel]; [lia|]. cbn [wait].
  rewrite (wait_poll_run poll_seconds j w _ _ Hl). cbv zeta.
  rewrite Hnone, size_empty. 
  set (tts := Z.max 0 (max_simultaneous_tasks j - Z.of_nat 0)).
  assert (Htts : 1 <= tts) by (subst tts; lia).
  destruct (Z.eqb_spec tts 0) as [?|_]; [lia|].
  set (w1 := emit (EvLog (LogSubmitting tts)) (emit _ w)).
  assert (Hkept1 : objects_kept w w1).
  { subst w1. do 2 (eapply objects_kept_trans; [|apply objects_kept_emit]).
    apply objects_kept_refl. }
  assert (Hnone1 : running_now j w1 = ∅).
  { rewrite <- Hnone. by apply running_now_same_objects. }
  assert (Hsleeps1 : sleeps (trace w1) = sleeps (trace w)).
  { subst w1. by rewrite !sleeps_emit, !app_nil_r. }
  destruct (submit_all_prompt (Z.to_nat tts) j w1 (completed_now j w) bucket
              Hb Hprompt Hnone1)
    as (j2 & w2 & Hall & Hcfg2 & Hiter2 & Hsub2 & Hkept2 & Hnone2 & Hsleeps2).
  { apply completed_now_mono; [apply same_config_refl|done]. }
  rewrite Hall.
  assert (Hb2 : in_bucket j2 bucket).
  { destruct Hb as [Hp Hs]. split; [|done]. destruct Hcfg2 as (_ & _ & -> & _). done. }
  assert (Hprompt2 : prompt (backend j2) bucket).
  { destruct Hcfg2 as (-> & _). done. }
  destruct (bool_decide_reflect (Z.to_nat tts <= length (tasks_iter j))%nat)
    as [Hle|Hgt].
  - destruct (IH (length (tasks_iter j2))) with (j := j2) (w := w2) (bucket := bucket)
      (fuel := fuel) as (j' & w' & Hwait & Hcfg' & Hiter' & Hsub' & Hkept' & Hnone'
                         & Hsleeps'); try done.
    + rewrite Hiter2, length_drop. lia.
    + rewrite Hiter2, length_drop. lia.
    + destruct Hcfg2 as (_ & -> & _). done.
    + exists j', w'. split; [exact Hwait|]. split_and!.
      * by eapply same_config_trans.
      * done.
      * rewrite Hsub', Hsub2, Hiter2, length_drop, length_app, length_map, length_seq.
        destruct Hcfg2 as (_ & _ & _ & ->).
        rewrite Nat.min_l by done. rewrite <- app_assoc. f_equal.
        rewrite <- map_app, <- seq_app. do 2 f_equal. lia.
      * eapply objects_kept_trans; [exact Hkept1|]. by eapply objects_kept_trans.
      * done.
      * by rewrite Hsleeps', Hsleeps2.
  - pose proof (result_listing_bucket j2 bucket Hb2) as Hl2.
    destruct fuel as [|fuel]; [lia|]. cbn [drain].
    destruct (drain_poll_run poll_seconds j2 w2 _ _ Hl2) as (w3 & Hpoll & Hobj & Hs3).
    rewrite Hpoll, bool_decide_eq_true_2 by done.
    rewrite bool_decide_eq_true_2 in Hs3 by done. rewrite app_nil_r in Hs3.
    exists j2, w3. split_and!; try done.
    + rewrite Hiter2. apply drop_ge. lia.
    + rewrite Hsub2. rewrite Nat.min_r by lia. done.
    + eapply objects_kept_trans; [exact Hkept1|].
      eapply objects_kept_trans; [exact Hkept2|]. by apply objects_kept_eq.
    + rewrite <- Hnone2. by apply running_now_same_objects.
    + by rewrite Hs3, Hsleeps2.
Qed.

Lemma drain_more (poll_seconds : Z) (fuel : nat) :
  forall (s : Job Task * World) r fuel',
  drain fuel poll_seconds s = Some r -> (fuel <= fuel')%nat ->
  drain fuel' poll_seconds s = Some r.
Proof.
  induction fuel as [|fuel IH]; intros s r fuel' Hrun Hle; [done|].
  destruct fuel' as [|fuel']; [lia|]. cbn [drain] in *.
  destruct (drain_poll poll_seconds s) as [[e|[|]] s']; try done.
  apply IH; [done|lia].
Qed.

Lemma wait_more (poll_seconds : Z) (fuel : nat) :
  forall (s : Job Task * World) r fuel',
  wait fuel poll_seconds s = Some r -> (fuel <= fuel')%nat ->
  wait fuel' poll_seconds s = Some r.
Proof.
  induction fuel as [|fuel IH]; intros s r fuel' Hrun Hle; [done|].
  destruct fuel' as [|fuel']; [lia|]. cbn [wait] in *.
  destruct (wait_poll poll_seconds s) as [[e|[|]] s']; try done.
  - apply IH; [done|lia].
  - eapply drain_more; [done|lia].
Qed.

(** X22. Take a job whose storage prefix is the root of a bucket
    ([gs://bucket]), the naming laws, and a backend whose [submit_task],
    given a stored input, runs the task to its end during the call: it
    writes the result, removes no object and does not sleep. Then [wait] on
    a fresh job with at least one slot returns within as many passes as
    there are tasks plus two, and never waits for a poll interval: no
    sleep is recorded at all. Every task of the iterator has been submitted
    once, in order, the result of each is stored, the store has lost no
    object, and [results] then yields one value per task. *)
Theorem wait_completes_with_prompt_backend (j : Job Task) (w : World)
    (bucket : string) (poll_seconds : Z)
    (Hbucket : in_bucket j bucket)
    (Hprompt : prompt (backend j) bucket)
    (Hslots : 1 <= max_simultaneous_tasks j)
    (Hfresh : submitted_tasks j = []) :
  exists j' w' values w'',
    (forall fuel, (length (tasks_iter j) + 2 <= fuel)%nat ->
       wait fuel poll_seconds (j, w) = Some (inr tt, (j', w'))) /\
    tasks_iter j' = [] /\
    submitted_tasks j' =
      map (make_task_name (cache_key j)) (seq 0 (length (tasks_iter j))) /\
    (forall i, (i < length (tasks_iter j))%nat ->
       is_Some (objects w' !! (bucket,
                  task_result_name (make_task_name (cache_key j) i)))) /\
    objects_kept w w' /\
    sleeps (trace w') = sleeps (trace w) /\
    results (j', w') = (inr values, (j', w'')) /\
    length values = length (tasks_iter j).
Proof.
  assert (Hnone : running_now j w = ∅).
  { unfold running_now. rewrite Hfresh. cbn [list_to_set].
    apply set_eq. intros t. rewrite elem_of_difference.
    split; [by intros [?%not_elem_of_empty _]|by intros ?%not_elem_of_empty]. }
  destruct (wait_prompt poll_seconds (length (tasks_iter j)) j w bucket
              (length (tasks_iter j) + 2) (le_n _) (le_n _) Hbucket Hprompt Hslots Hnone)
    as (j' & w' & Hwait & Hcfg & Hiter & Hsub & Hkept & Hnone' & Hsleeps).
  rewrite Hfresh in Hsub. cbn [app length] in Hsub.
  assert (Hb' : in_bucket j' bucket).
  { destruct Hbucket as [Hp Hs]. split; [|done]. destruct Hcfg as (_ & _ & -> & _). done. }
  assert (Hkey : cache_key j' = cache_key j) by by destruct Hcfg as (_ & _ & _ & ->).
  assert (Hall : forall t, t ∈ submitted_tasks j' ->
            is_Some (objects w' !! (bucket, task_result_name t))).
  { intros t Hin. apply (completed_now_stored j' w' bucket t Hb').
    destruct (decide (t ∈ completed_now j' w')) as [|Hn]; [done|].
    assert (Hr : t ∈ running_now j' w').
    { apply elem_of_difference. split; [by apply elem_of_list_to_set|done]. }
    rewrite Hnone' in Hr. by apply not_elem_of_empty in Hr. }
  pose proof (result_listing_bucket j' bucket Hb') as Hl.
  destruct (results_from_objects j' bucket (submitted_tasks j')
              (emit (EvRequest (ReqList bucket (task_result_prefix (cache_key j')))) w')
              Hb')
    as (w'' & Hrun & _).
  { rewrite Hsub. apply NoDup_fmap_2; [|apply NoDup_seq].
    intros a b. apply make_task_name_inj. }
  { exact Hall. }
  eexists j', w', _, w''. split_and!.
  - intros fuel Hfuel. by apply (wait_more _ _ _ _ _ Hwait).
  - exact Hiter.
  - exact Hsub.
  - intros i Hi. apply Hall. rewrite Hsub. apply list_elem_of_fmap.
    exists i. split; [done|]. apply elem_of_seq. lia.
  - exact Hkept.
  - exact Hsleeps.
  - unfold results. rewrite (bind_inr _ _ _ _ _ (get_running_tasks_run j' w' _ _ Hl)).
    rewrite decide_True by done. unfold bind at 1, self at 1. cbn [fst snd].
    exact Hrun.
  - by rewrite length_map, Hsub, length_map, length_seq.
Qed.

End prompt_backend.

Lemma doubling_backend_prompt (bucket : string) :
  partition "/" bucket = None -> prompt doubling_backend bucket.
Proof.
  intros Hb task_name input output w [o Ho].
  cbn [submit_task doubling_backend doubling_submit_task].
  unfold storage.get, storage.put.
  rewrite (bind_inr _ _ _ _ _ (get_present bucket input Hb w o Ho)).
  unfold bind at 1. rewrite (put_path bucket output Hb).
  eexists _, _. split; [reflexivity|]. split_and!.
  - intros k Hk. cbn [objects set_objects emit].
    destruct (decide (k = (bucket, output))) as [->|Hne].
    + by rewrite lookup_insert_eq.
    + by rewrite lookup_insert_ne.
  - cbn [objects set_objects]. by rewrite lookup_insert_eq.
  - cbn [trace set_objects]. by rewrite !sleeps_emit, !app_nil_r.
Qed.

Lemma wait_completes_with_prompt_backend_witness :
  let j := example_job doubling_backend in
  exists j' w' values w'',
    (forall fuel, (length (job.tasks_iter j) + 2 <= fuel)%nat ->
       job.wait (N := example_naming) (Ser := example_serialization) fuel 5
         (j, empty_world) = Some (inr tt, (j', w'))) /\
    job.tasks_iter j' = [] /\
    job.submitted_tasks j' =
      map (make_task_name (Naming := example_naming) (job.cache_key j))
        (seq 0 (length (job.tasks_iter j))) /\
    (forall i, (i < length (job.tasks_iter j))%nat ->
       is_Some (objects w' !! ("bucket",
                  task_result_name (Naming := example_naming)
                    (make_task_name (Naming := example_naming) (job.cache_key j) i)))) /\
    objects_kept empty_world w' /\
    sleeps (trace w') = sleeps (trace empty_world) /\
    job.results (N := example_naming) (Ser := example_serialization) (j', w') =
      (inr values, (j', w'')) /\
    length values = length (job.tasks_iter j).
Proof.
  apply (wait_completes_with_prompt_backend (N := example_naming)
           (Ser := example_serialization) (NamingLaws0 := example_naming_laws)
           (example_job doubling_backend) empty_world "bucket" 5).
  - split; reflexivity.
  - apply doubling_backend_prompt. reflexivity.
  - vm_compute. discriminate.
  - reflexivity.
Defined.

Lemma drain_waits_for_running_tasks_witness :
  job.drain (N := example_naming) 1000 5 (waiting.1, waiting.2) = None.
Proof.
  apply (drain_waits_for_running_tasks (N := example_naming) 5 waiting.1 waiting.2
           "bucket" "result::key").
  - reflexivity.
  - intros Hnone.
    assert (Hin : "key::0" ∈ running_now (N := example_naming) waiting.1 waiting.2).
    { apply elem_of_difference. split.
      - apply elem_of_list_to_set, list_elem_of_In. vm_compute. left. reflexivity.
      - intros Hc.
        apply (completed_now_stored (N := example_naming)
                 (NamingLaws0 := example_naming_laws) waiting.1 waiting.2 "bucket"
                 "key::0" (conj eq_refl eq_refl)) in Hc.
        vm_compute in Hc. by destruct Hc. }
    rewrite Hnone in Hin. by apply not_elem_of_empty in Hin.
Defined.

Lemma wait_without_slots_never_returns_witness :
  job.wait_poll (N := example_naming) (Ser := example_serialization) 5
    (stalled_job, empty_world) =
    (inr true,
     (stalled_job,
      emit (EvSleep 5) (emit (EvRequest (ReqList "bucket" "result::key")) empty_world)))
  /\ forall fuel,
       job.wait (N := example_naming) (Ser := example_serialization) fuel 5
         (stalled_job, empty_world) = None.
Proof.
  apply (wait_without_slots_never_returns (N := example_naming)
           (Ser := example_serialization) 5 stalled_job empty_world
           "bucket" "result::key").
  - reflexivity.
  - vm_compute. discriminate.
Defined.

Lemma wait_on_empty_source_witness :
  exists w',
    (forall fuel, (2 <= fuel)%nat ->
       job.wait (N := example_naming) (Ser := example_serialization) fuel 5
         (empty_job, empty_world) = Some (inr tt, (empty_job, w'))) /\
    objects w' = objects empty_world /\
    sleeps (trace w') = sleeps (trace empty_world) /\
    job.results (N := example_naming) (Ser := example_serialization) (empty_job, w') =
      (inr [], (empty_job, emit (EvRequest (ReqList "bucket" "result::key")) w')).
Proof.
  apply (wait_on_empty_source (N := example_naming) (Ser := example_serialization)
           5 empty_job empty_world "bucket" "result::key").
  - reflexivity.
  - vm_compute. discriminate.
  - reflexivity.
  - reflexivity.
Defined.

Lemma status_snapshot_witness :
  exists d,
    job.status_dict (N := example_naming) (pulled_twice.1, two_results) =
      (inr d, (pulled_twice.1,
               emit (EvRequest (ReqList "bucket" "result::key")) two_results)) /\
    st_submitted_tasks d = job.submitted_tasks pulled_twice.1 /\
    st_reused_tasks d = job.reused_tasks pulled_twice.1 /\
    NoDup (st_completed_tasks d) /\
    (forall t, t ∈ st_completed_tasks d <->
               exists x, is_Some (objects two_results !! ("bucket", x)) /\
                         startswith x "result::key" = true /\
                         task_name_from_result_name (Naming := example_naming) x = t) /\
    NoDup (st_running_tasks d) /\
    (forall t, t ∈ st_running_tasks d <->
               t ∈ job.submitted_tasks pulled_twice.1 /\ t ∉ st_completed_tasks d).
Proof.
  apply (status_snapshot (N := example_naming) pulled_twice.1 two_results
           "bucket" "result::key").
  reflexivity.
Defined.

Lemma results_clean_up_witness :
  let j := pulled_twice.1 in
  exists values w1 w',
    job.get_running_tasks (N := example_naming) None (j, two_results) =
      (inr ∅, (j, w1)) /\
    job.results (N := example_naming) (Ser := example_serialization) (j, two_results) =
      (inr values, (j, w')) /\
    requests (trace w') =
      (requests (trace w1)
       ++ concat (map (result_requests (N := example_naming) j "bucket")
                    (job.submitted_tasks j)))%list /\
    (forall k,
       (forall t, t ∈ job.submitted_tasks j ->
                  k <> ("bucket", task_result_name (Naming := example_naming) t)) ->
       objects w' !! k = objects two_results !! k) /\
    (forall t, t ∈ job.submitted_tasks j ->
       objects w' !! ("bucket", task_result_name (Naming := example_naming) t) =
       if job.cleanup j then None
       else objects two_results !! ("bucket", task_result_name (Naming := example_naming) t)) /\
    (job.cleanup j = true -> (0 < 2)%nat ->
     (job.results (N := example_naming) (Ser := example_serialization) (j, w')).1 =
       inl (RuntimeError "Not all tasks have completed")).
Proof.
  apply (results_clean_up (N := example_naming) (Ser := example_serialization)
           (NamingLaws0 := example_naming_laws) pulled_twice.1 two_results "bucket" 2).
  - split; reflexivity.
  - reflexivity.
  - intros i Hi.
    destruct i as [|[|i]]; [vm_compute; eauto..|lia].
Defined.

Lemma wait_fails_on_local_process_backend_witness :
  let j := example_job (local_process_backend.LocalProcessBackend true) in
  exists w',
    job.wait (N := example_naming) (Ser := example_serialization) 1 5 (j, empty_world) =
      Some (inl (TypeError "submit_task() takes 3 positional arguments but 4 were given"),
            (job.set_tasks_iter [1; 2; 3; 4]%nat j, w')) /\
    objects w' =
      <[("bucket", task_input_name (Naming := example_naming)
           (make_task_name (Naming := example_naming) (job.cache_key j)
              (length (job.submitted_tasks j))))
        := object_of (dump (Serialization := example_serialization) 0%nat)]>
        (objects empty_world) /\
    popens (trace w') = popens (trace empty_world) /\
    sleeps (trace w') = sleeps (trace empty_world).
Proof.
  apply (wait_fails_on_local_process_backend (N := example_naming)
           (Ser := example_serialization) (NamingLaws0 := example_naming_laws)
           (example_job (local_process_backend.LocalProcessBackend true)) empty_world
           "bucket" 0%nat [1; 2; 3; 4]%nat true 0 5).
  - split; reflexivity.
  - reflexivity.
  - reflexivity.
  - reflexivity.
  - reflexivity.
Defined.

Lemma list_is_singleton {A} (l : list A) (a : A) :
  NoDup l -> (forall x, x ∈ l <-> x = a) -> l = [a].
Proof.
  intros Hnd Hl. destruct l as [|x l].
  - assert (H : a ∈ []) by by apply Hl. by apply elem_of_nil in H.
  - assert (x = a) as -> by (apply Hl; by left).
    destruct l as [|y l]; [done|].
    assert (y = a) as -> by (apply Hl; right; by left).
    apply NoDup_cons in Hnd as [Hnotin _]. destruct Hnotin. by left.
Qed.

Lemma names_in_only o bucket name :
  is_Some (o !! (bucket, name)) ->
  (forall n, is_Some (o !! (bucket, n)) -> startswith n name = true -> n = name) ->
  service.names_in o bucket name = [name].
Proof.
  intros Hstored Honly. apply list_is_singleton; [apply NoDup_names_in|].
  intros n. rewrite elem_of_names_in. split.
  - intros [Hs Hp]. by apply Honly.
  - intros ->. split; [done|apply startswith_refl].
Qed.

Lemma names_in_none o bucket p :
  (forall n, is_Some (o !! (bucket, n)) -> startswith n p = false) ->
  service.names_in o bucket p = [].
Proof.
  intros Hnone. apply elem_of_nil_inv. intros n [Hs Hp]%elem_of_names_in.
  rewrite (Hnone n Hs) in Hp. done.
Qed.

Lemma moved_name_differs stamp :
  startswith ("moved-" ++ test_storage.file_name stamp) (test_storage.file_name stamp)
  = false.
Proof. reflexivity. Qed.

Section tests.
Context (b stamp : string) (Hbucket : partition "/" b = None).
Import test_storage.

Lemma test_upload (w : World) :
  let w1 := set_objects (<[(b, file_name stamp) := object_of data]> (objects w))
              (emit (EvRequest (ReqInsert b
                       {| body_name := file_name stamp; body_acl := None |}
                       "application/octet-stream")) w) in
  storage.put ("gs://" ++ b ++ "/" ++ file_name stamp) data w =
    (inr {| body_name := file_name stamp; body_acl := None |}, w1) /\
  (fresh_name w b (file_name stamp) ->
   service.names_in (objects w1) b (file_name stamp) = [file_name stamp]) /\
  (forall n, is_Some (objects w !! (b, n)) ->
     startswith n (file_name stamp) = true -> n <> file_name stamp ->
     service.names_in (objects w1) b (file_name stamp) <> [file_name stamp]).
Proof.
  cbv zeta. split_and!.
  - apply (put_path b (file_name stamp) Hbucket).
  - intros Hfresh. apply names_in_only; cbn [objects set_objects].
    + by rewrite lookup_insert_eq.
    + intros n Hs Hp. destruct (decide (n = file_name stamp)) as [|Hne]; [done|].
      rewrite lookup_insert_ne in Hs by congruence. by apply Hfresh.
  - intros n Hs Hp Hne Heq.
    assert (Hin : n ∈ service.names_in
              (<[(b, file_name stamp) := object_of data]> (objects w)) b
              (file_name stamp)).
    { apply elem_of_names_in. split; [|done].
      rewrite lookup_insert_ne by congruence. done. }
    cbn [objects set_objects] in Heq. rewrite Heq in Hin.
    by apply list_elem_of_singleton in Hin.
Qed.

Lemma test_put_and_get_start (w : World) :
  let w1 := set_objects (<[(b, file_name stamp) := object_of data]> (objects w))
              (emit (EvRequest (ReqInsert b
                       {| body_name := file_name stamp; body_acl := None |}
                       "application/octet-stream")) w) in
  test_put_and_get_to_bucket ("gs://" ++ b) stamp w =
  assert_ 1 (bool_decide (service.names_in (objects w1) b (file_name stamp)
                          = [file_name stamp])) (
    let* listed := list_contents ("gs://" ++ b ++ "/" ++ "kubeface-test-") in
    assert_ 2 (bool_decide (file_name stamp ∈ listed)) (
    let* result_handle := get ("gs://" ++ b ++ "/" ++ file_name stamp) in
    assert_ 3 (bool_decide (result_handle = data)) (
    delete ("gs://" ++ b ++ "/" ++ file_name stamp) ;;;
    let* listed := list_contents ("gs://" ++ b ++ "/" ++ "") in
    assert_ 4 (bool_decide (file_name stamp ∉ listed)) (
    ret passed))))
    (emit (EvRequest (ReqList b (file_name stamp))) w1).
Proof.
  destruct (test_upload w) as (Hput & _). cbv zeta in *.
  unfold test_put_and_get_to_bucket.
  change (("gs://" ++ b) ++ "/" ++ file_name stamp)
    with ("gs://" ++ b ++ "/" ++ file_name stamp).
  rewrite (bind_inr _ _ _ _ _ Hput).
  unfold storage.list_contents at 1.
  rewrite (bind_inr _ _ _ _ _ (list_contents_path b (file_name stamp) Hbucket _)).
  reflexivity.
Qed.

(** X23. [test_put_and_get_to_bucket] passes on every store in which no
    other object of the bucket has a name that extends the name of the test
    file, and it leaves no object of its own behind: the store is as it
    was, without the test file. *)
Theorem test_put_and_get_to_bucket_passes (w : World)
    (Hfresh : fresh_name w b (file_name stamp)) :
  exists w',
    test_put_and_get_to_bucket ("gs://" ++ b) stamp w = (inr passed, w') /\
    objects w' = base.delete (b, file_name stamp) (objects w).
Proof.
  destruct (test_upload w) as (_ & Hone & _). cbv zeta in *.
  rewrite test_put_and_get_start. cbv zeta.
  set (f := file_name stamp) in *.
  set (w1 := set_objects _ _) in *.
  rewrite (Hone Hfresh), bool_decide_eq_true_2 by done.
  unfold assert_ at 1.
  set (w2 := emit _ w1).
  rewrite (bind_inr _ _ _ _ _ (list_contents_path b "kubeface-test-" Hbucket w2)).
  assert (Hstored : objects w1 !! (b, f) = Some (object_of data)).
  { subst w1. cbn [objects set_objects]. by rewrite lookup_insert_eq. }
  rewrite bool_decide_eq_true_2.
  2:{ apply elem_of_names_in. split; [exact (mk_is_Some _ _ Hstored)|].
      subst f. unfold file_name. apply startswith_app. }
  unfold assert_ at 1.
  set (w3 := emit _ w2).
  rewrite (bind_inr _ _ _ _ _ (get_present b f Hbucket w3 _ Hstored)).
  rewrite bool_decide_eq_true_2 by done. unfold assert_ at 1.
  set (w4 := emit _ w3).
  rewrite (bind_inr _ _ _ _ _ (delete_present b f Hbucket w4 _ Hstored)).
  set (w5 := set_objects _ _).
  rewrite (bind_inr _ _ _ _ _ (list_contents_path b "" Hbucket w5)).
  rewrite bool_decide_eq_true_2.
  2:{ intros [Hs _]%elem_of_names_in. subst w5. cbn [objects set_objects] in Hs.
      rewrite lookup_delete_eq in Hs. by destruct Hs. }
  unfold assert_, ret. eexists. split; [reflexivity|].
  subst w5 w4 w3 w2 w1. cbn [objects set_objects emit].
  apply delete_insert_eq.
Qed.

(** X24. [test_put_and_get_to_bucket] depends on what the bucket holds: when
    another object has a name that extends the name of the test file, the
    first assertion fails, because the listing of the path is a listing by
    prefix, and the uploaded file stays in the bucket. *)
Theorem test_put_and_get_to_bucket_fails (w : World) (n : string)
    (Hstored : is_Some (objects w !! (b, n)))
    (Hextends : startswith n (file_name stamp) = true)
    (Hother : n <> file_name stamp) :
  exists w',
    test_put_and_get_to_bucket ("gs://" ++ b) stamp w =
      (inr (assertion_failed 1), w') /\
    objects w' = <[(b, file_name stamp) := object_of data]> (objects w) /\
    requests (trace w') =
      (requests (trace w) ++
       [ReqInsert b {| body_name := file_name stamp; body_acl := None |}
          "application/octet-stream";
        ReqList b (file_name stamp)])%list.
Proof.
  destruct (test_upload w) as (_ & _ & Hmore). cbv zeta in *.
  rewrite test_put_and_get_start. cbv zeta.
  rewrite bool_decide_eq_false_2 by by eapply Hmore.
  unfold assert_, ret. eexists. split; [reflexivity|]. split; [reflexivity|].
  unfold requests, emit, set_objects. cbn [trace].
  rewrite !omap_app. cbn [omap app]. rewrite <- !app_assoc. reflexivity.
Qed.

(** X25. [test_move] passes on every store in which no other object of the
    bucket has a name that extends the name of the test file or of the
    moved file: the listing of the old path is empty after the move, the
    moved object holds the uploaded bytes, and both names are gone at the
    end. *)
Theorem test_move_passes (w : World)
    (Hfresh : fresh_name w b (file_name stamp))
    (Hfresh2 : fresh_name w b ("moved-" ++ file_name stamp)) :
  exists w',
    test_move ("gs://" ++ b) stamp w = (inr passed, w') /\
    objects w' =
      base.delete (b, "moved-" ++ file_name stamp)
        (base.delete (b, file_name stamp) (objects w)) /\
    requests (trace w') =
      (requests (trace w) ++
       [ReqInsert b {| body_name := file_name stamp; body_acl := None |}
          "application/octet-stream";
        ReqList b (file_name stamp);
        ReqRewrite b (file_name stamp) b ("moved-" ++ file_name stamp);
        ReqDelete b (file_name stamp);
        ReqList b (file_name stamp);
        ReqList b ("moved-" ++ file_name stamp);
        ReqGetMedia b ("moved-" ++ file_name stamp);
        ReqDelete b ("moved-" ++ file_name stamp);
        ReqList b ""])%list.
Proof.
  destruct (test_upload w) as (Hput & Hone & _). cbv zeta in *.
  pose proof (moved_name_differs stamp) as Hdiffers.
  set (f := file_name stamp) in *.
  set (moved := "moved-" ++ f) in *.
  assert (Hne : moved <> f).
  { intros Heq. rewrite Heq, startswith_refl in Hdiffers. done. }
  set (w1 := set_objects _ _) in *.
  unfold test_move. fold f.
  change (("gs://" ++ b) ++ "/" ++ f) with ("gs://" ++ b ++ "/" ++ f).
  change (("gs://" ++ b) ++ "/moved-" ++ f) with ("gs://" ++ b ++ "/" ++ moved).
  change (("gs://" ++ b) ++ "/") with ("gs://" ++ b ++ "/" ++ "").
  fold moved.
  rewrite (bind_inr _ _ _ _ _ Hput).
  unfold storage.list_contents, storage.get, storage.delete, storage.move.
  rewrite (bind_inr _ _ _ _ _ (list_contents_path b f Hbucket w1)).
  rewrite (Hone Hfresh), bool_decide_eq_true_2 by done. unfold assert_ at 1.
  set (w2 := emit _ w1).
  assert (Hstored : objects w2 !! (b, f) = Some (object_of data)).
  { subst w2 w1. cbn [objects set_objects emit]. by rewrite lookup_insert_eq. }
  rewrite (bind_inr _ _ _ _ _ (move_run b f b moved w2 _ Hbucket Hbucket Hstored)).
  set (w3 := set_objects _ _).
  assert (Ho3 : forall n, n <> f -> n <> moved ->
            objects w3 !! (b, n) = objects w !! (b, n)).
  { intros n Hnf Hnm. subst w3 w2 w1. cbn [objects set_objects emit].
    rewrite lookup_delete_ne, !lookup_insert_ne by congruence. done. }
  assert (Hgone : objects w3 !! (b, f) = None).
  { subst w3. cbn [objects set_objects]. apply lookup_delete_eq. }
  assert (Hmoved : objects w3 !! (b, moved) = Some (object_of data)).
  { subst w3. cbn [objects set_objects].
    rewrite lookup_delete_ne, lookup_insert_eq by congruence. done. }
  rewrite (bind_inr _ _ _ _ _ (list_contents_path b f Hbucket w3)).
  rewrite bool_decide_eq_true_2.
  2:{ apply names_in_none. intros n Hs.
      destruct (decide (n = f)) as [->|Hnf]; [rewrite Hgone in Hs; by destruct Hs|].
      destruct (decide (n = moved)) as [->|Hnm]; [done|].
      rewrite Ho3 in Hs by done.
      destruct (startswith n f) eqn:Hp; [|done]. by destruct (Hnf (Hfresh n Hs Hp)). }
  unfold assert_ at 1. set (w4 := emit _ w3).
  rewrite (bind_inr _ _ _ _ _ (list_contents_path b moved Hbucket w4)).
  rewrite bool_decide_eq_true_2.
  2:{ apply names_in_only; [exact (mk_is_Some _ _ Hmoved)|].
      intros n Hs Hp. destruct (decide (n = moved)) as [|Hnm]; [done|].
      destruct (decide (n = f)) as [->|Hnf].
      - change (objects w4) with (objects w3) in Hs. rewrite Hgone in Hs.
        by destruct Hs.
      - change (objects w4) with (objects w3) in Hs. rewrite Ho3 in Hs by done.
        by apply Hfresh2. }
  unfold assert_ at 1. set (w5 := emit _ w4).
  rewrite (bind_inr _ _ _ _ _ (get_present b moved Hbucket w5 _ Hmoved)).
  rewrite bool_decide_eq_true_2 by done. unfold assert_ at 1.
  set (w6 := emit _ w5).
  rewrite (bind_inr _ _ _ _ _ (delete_present b moved Hbucket w6 _ Hmoved)).
  set (w7 := set_objects _ _).
  rewrite (bind_inr _ _ _ _ _ (list_contents_path b "" Hbucket w7)).
  rewrite bool_decide_eq_true_2.
  2:{ intros [Hs _]%elem_of_names_in. subst w7. cbn [objects set_objects] in Hs.
      rewrite lookup_delete_eq in Hs. by destruct Hs. }
  unfold assert_, ret. eexists. split; [reflexivity|]. split.
  - subst w7 w6 w5 w4 w3 w2 w1. cbn [objects set_objects emit].
    apply map_eq. intros k.
    destruct (decide (k = (b, moved))) as [->|Hkm]; [by rewrite !lookup_delete_eq|].
    rewrite !(lookup_delete_ne _ (b, moved)) by done.
    destruct (decide (k = (b, f))) as [->|Hkf]; [by rewrite !lookup_delete_eq|].
    rewrite !(lookup_delete_ne _ (b, f)), !lookup_insert_ne by done. done.
  - subst w7 w6 w5 w4 w3 w2 w1. unfold requests, emit, set_objects. cbn [trace].
    rewrite !omap_app. cbn [omap app]. rewrite <- !app_assoc. reflexivity.
Qed.

End tests.

Lemma fresh_name_empty bucket name : fresh_name empty_world bucket name.
Proof. intros n Hs. cbn [objects empty_world] in Hs. rewrite lookup_empty in Hs. by destruct Hs. Qed.

Lemma test_put_and_get_to_bucket_passes_witness :
  exists w',
    test_storage.test_put_and_get_to_bucket "gs://bucket" "1478250000" empty_world =
      (inr test_storage.passed, w') /\
    objects w' =
      base.delete ("bucket", test_storage.file_name "1478250000")
        (objects empty_world).
Proof.
  apply (test_put_and_get_to_bucket_passes "bucket" "1478250000" eq_refl empty_world).
  apply fresh_name_empty.
Defined.

Lemma test_put_and_get_to_bucket_fails_witness :
  exists w',
    test_storage.test_put_and_get_to_bucket "gs://bucket" "1478250000" leftover_world =
      (inr (test_storage.assertion_failed 1), w') /\
    objects w' =
      <[("bucket", test_storage.file_name "1478250000")
        := object_of test_storage.data]> (objects leftover_world) /\
    requests (trace w') =
      (requests (trace leftover_world) ++
       [ReqInsert "bucket"
          {| body_name := test_storage.file_name "1478250000"; body_acl := None |}
          "application/octet-stream";
        ReqList "bucket" (test_storage.file_name "1478250000")])%list.
Proof.
  apply (test_put_and_get_to_bucket_fails "bucket" "1478250000" eq_refl leftover_world
           "kubeface-test-1478250000.txt.old").
  - vm_compute. eauto.
  - reflexivity.
  - discriminate.
Defined.

Lemma test_move_passes_witness :
  exists w',
    test_storage.test_move "gs://bucket" "1478250000" empty_world =
      (inr test_storage.passed, w') /\
    objects w' =
      base.delete ("bucket", "moved-" ++ test_storage.file_name "1478250000")
        (base.delete ("bucket", test_storage.file_name "1478250000")
           (objects empty_world)) /\
    requests (trace w') =
      (requests (trace empty_world) ++
       [ReqInsert "bucket"
          {| body_name := test_storage.file_name "1478250000"; body_acl := None |}
          "application/octet-stream";
        ReqList "bucket" (test_storage.file_name "1478250000");
        ReqRewrite "bucket" (test_storage.file_name "1478250000") "bucket"
          ("moved-" ++ test_storage.file_name "1478250000");
        ReqDelete "bucket" (test_storage.file_name "1478250000");
        ReqList "bucket" (test_storage.file_name "1478250000");
        ReqList "bucket" ("moved-" ++ test_storage.file_name "1478250000");
        ReqGetMedia "bucket" ("moved-" ++ test_storage.file_name "1478250000");
        ReqDelete "bucket" ("moved-" ++ test_storage.file_name "1478250000");
        ReqList "bucket" ""])%list.
Proof.
  apply (test_move_passes "bucket" "1478250000" eq_refl empty_world).
  - apply fresh_name_empty.
  - apply fresh_name_empty.
Defined.
